(** * pyprob diagnostics: autocorrelation, Gelman-Rubin R-hat and report helpers

    A shallow embedding of [pyprob/diagnostics.py].

    Numbers.  The Python code computes with IEEE doubles through NumPy.  Here
    a double is an [npfloat]: an exact real, one of the two infinities, or
    NaN.  Arithmetic on the finite part is exact (rounding and overflow are
    not modelled, and there is no negative zero); the special values follow
    IEEE 754, which is what the code relies on for missing samples and for
    chains without variance.

    Errors.  A Python exception is a [Raise e] result; only the class of the
    exception is kept. *)

From Stdlib Require Import String Reals Lra Lia ZArith Bool Arith List.
From Stdlib Require Import Permutation Sorted.
From Stdlib Require OrderedTypeEx.
Import ListNotations.

Set Implicit Arguments.

(** ** Exceptions *)

Inductive exn : Type :=
| TypeError
| ValueError
| RuntimeError
| IndexError
| KeyError
| AttributeError
| ZeroDivisionError.

Inductive result (A : Type) : Type :=
| Ok (a : A)
| Raise (e : exn).

Arguments Ok {A} a.
Arguments Raise {A} e.

Definition bind {A B : Type} (c : result A) (k : A -> result B) : result B :=
  match c with
  | Ok a => k a
  | Raise e => Raise e
  end.

Notation "x <- c ;; k" := (bind c (fun x => k))
  (at level 61, c at next level, right associativity).

(** A [for] loop that builds a list and stops at the first exception. *)
Fixpoint mapM {A B : Type} (f : A -> result B) (l : list A) : result (list B) :=
  match l with
  | [] => Ok []
  | a :: l' => b <- f a ;; bs <- mapM f l' ;; Ok (b :: bs)
  end.

(** A [for] loop that threads an accumulator and stops at the first
    exception. *)
Fixpoint foldM {A S : Type} (f : S -> A -> result S) (l : list A) (s : S)
  : result S :=
  match l with
  | [] => Ok s
  | a :: l' => s' <- f s a ;; foldM f l' s'
  end.

(** ** Idealised doubles *)

Inductive npfloat : Type :=
| Fin (r : R)
| PInf
| NInf
| NaN.

Definition isnan (x : npfloat) : bool :=
  match x with
  | NaN => true
  | _ => false
  end.

Definition Rsign (r : R) : comparison :=
  if Rlt_dec r 0 then Lt else if Rlt_dec 0 r then Gt else Eq.

Definition np_neg (x : npfloat) : npfloat :=
  match x with
  | Fin r => Fin (- r)
  | PInf => NInf
  | NInf => PInf
  | NaN => NaN
  end.

Definition np_add (x y : npfloat) : npfloat :=
  match x, y with
  | NaN, _ | _, NaN => NaN
  | Fin a, Fin b => Fin (a + b)
  | PInf, NInf | NInf, PInf => NaN
  | PInf, _ | _, PInf => PInf
  | NInf, _ | _, NInf => NInf
  end.

Definition np_sub (x y : npfloat) : npfloat := np_add x (np_neg y).

(** The infinity whose sign is the given comparison; NaN for [Eq]. *)
Definition inf_of_sign (s : comparison) : npfloat :=
  match s with
  | Gt => PInf
  | Lt => NInf
  | Eq => NaN
  end.

Definition np_mul (x y : npfloat) : npfloat :=
  match x, y with
  | NaN, _ | _, NaN => NaN
  | Fin a, Fin b => Fin (a * b)
  | PInf, Fin b | Fin b, PInf => inf_of_sign (Rsign b)
  | NInf, Fin b | Fin b, NInf => inf_of_sign (CompOpp (Rsign b))
  | PInf, PInf | NInf, NInf => PInf
  | PInf, NInf | NInf, PInf => NInf
  end.

Definition np_div (x y : npfloat) : npfloat :=
  match x, y with
  | NaN, _ | _, NaN => NaN
  | Fin a, Fin b =>
      if Req_dec_T b 0 then inf_of_sign (Rsign a) else Fin (a / b)
  | Fin _, PInf | Fin _, NInf => Fin 0
  | PInf, Fin b => if Rlt_dec b 0 then NInf else PInf
  | NInf, Fin b => if Rlt_dec b 0 then PInf else NInf
  | PInf, PInf | PInf, NInf | NInf, PInf | NInf, NInf => NaN
  end.

Definition np_sqrt (x : npfloat) : npfloat :=
  match x with
  | Fin r => if Rlt_dec r 0 then NaN else Fin (sqrt r)
  | PInf => PInf
  | NInf => NaN
  | NaN => NaN
  end.

(** [x ** 2] *)
Definition np_square (x : npfloat) : npfloat := np_mul x x.

(** [np.sum] of a vector; the sum of no element is [0.0]. *)
Definition np_sum (v : list npfloat) : npfloat := fold_left np_add v (Fin 0).

(** [np.mean] of a vector: the sum over the element count, NaN when empty. *)
Definition np_mean (v : list npfloat) : npfloat :=
  np_div (np_sum v) (Fin (INR (length v))).

(** [np.var] of a vector (population variance, [ddof = 0]): the mean of the
    squared deviations from the mean. *)
Definition np_var (v : list npfloat) : npfloat :=
  let mu := np_mean v in
  np_mean (map (fun a => np_square (np_sub a mu)) v).

(** Truth value of a Python float: anything but zero, NaN included. *)
Definition float_truthy (x : npfloat) : bool :=
  match x with
  | Fin r => if Req_dec_T r 0 then false else true
  | _ => true
  end.

(** [float(a) / float(b)] on Python integers: Python's own division raises
    on a zero divisor instead of producing an infinity. *)
Definition py_int_div (a b : Z) : result npfloat :=
  if (b =? 0)%Z then Raise ZeroDivisionError else Ok (Fin (IZR a / IZR b)).

(** ** Arrays *)

(** A two-dimensional array is the list of its rows. *)
Definition matrix : Type := list (list npfloat).

Definition shape0 (x : matrix) : Z := Z.of_nat (length x).

(** Number of columns; the rows of an array all have this length. *)
Definition shape1 (x : matrix) : Z :=
  match x with
  | [] => 0%Z
  | row :: _ => Z.of_nat (length row)
  end.

(** [l[:k]] with Python's reading of a negative bound. *)
Definition slice_to {A : Type} (k : Z) (l : list A) : list A :=
  if (k <? 0)%Z then firstn (Z.to_nat (Z.of_nat (length l) + k)) l
  else firstn (Z.to_nat k) l.

(** [l[k:]] with Python's reading of a negative bound. *)
Definition slice_from {A : Type} (k : Z) (l : list A) : list A :=
  if (k <? 0)%Z then skipn (Z.to_nat (Z.of_nat (length l) + k)) l
  else skipn (Z.to_nat k) l.

(** [x[:, :k]] *)
Definition slice_cols_to (k : Z) (x : matrix) : matrix := map (slice_to k) x.

(** [x[:, k:]] *)
Definition slice_cols_from (k : Z) (x : matrix) : matrix :=
  map (slice_from k) x.

(** ** gelman_rubin_diagnostic *)

Definition gelman_rubin_diagnostic (x : matrix) (mu : option npfloat)
  : result npfloat :=
  let m := shape0 x in
  let n := shape1 x in
  if (m <? 2)%Z then Raise ValueError
  else
    let theta := map np_mean x in
    let sigma := map np_var x in
    let theta_m :=
      match mu with
      | Some v => if float_truthy v then v else np_mean theta
      | None => np_mean theta
      end in
    c_b <- py_int_div n (m - 1) ;;
    let b :=
      np_mul c_b (np_sum (map (fun t => np_square (np_sub t theta_m)) theta)) in
    c_w <- py_int_div 1 m ;;
    let w := np_mul c_w (np_sum sigma) in
    c_v1 <- py_int_div (n - 1) n ;;
    c_v2 <- py_int_div (m + 1) (m * n) ;;
    let v_hat := np_add (np_mul c_v1 w) (np_mul c_v2 b) in
    Ok (np_sqrt (np_div v_hat w)).

(** ** rhat *)

Definition rhat (trace_dist_length : Z) (values : matrix) (iters : list Z)
  : result (list npfloat) :=
  let num_missing_samples := (trace_dist_length - shape1 values)%Z in
  mapM (fun t =>
          if (t <=? num_missing_samples)%Z then Ok NaN
          else gelman_rubin_diagnostic
                 (slice_cols_to (t - num_missing_samples) values) None)
       iters.

(** ** Trimming and forward fill of a variable's matrix

    The body of the loop of [gelman_rubin] over [variable_values]. *)

(** [np.where(~np.isnan(value))] on a two-dimensional array: the (row,
    column) positions of the entries that are not NaN, in row-major order. *)
Definition where_not_nan_row (i : nat) (row : list npfloat) : list (nat * nat) :=
  map (fun j => (i, j))
      (filter (fun j => negb (isnan (nth j row NaN))) (seq 0 (length row))).

Definition where_not_nan (value : matrix) : list (nat * nat) :=
  concat (map (fun ir => where_not_nan_row (fst ir) (snd ir))
              (combine (seq 0 (length value)) value)).

(** [np.min] and Python's [max] on a list known to be non-empty. *)
Definition np_min (l : list nat) : nat :=
  match l with
  | [] => 0
  | a :: l' => fold_left Nat.min l' a
  end.

Definition py_max (l : list nat) : nat :=
  match l with
  | [] => 0
  | a :: l' => fold_left Nat.max l' a
  end.

(** [[np.min(c[r == i]) for i in range(value.shape[0]) if i in r]] *)
Definition first_non_nans (value : matrix) : list nat :=
  let x := where_not_nan value in
  flat_map (fun i =>
              if existsb (fun rc => fst rc =? i) x
              then [np_min (map snd (filter (fun rc => fst rc =? i) x))]
              else [])
           (seq 0 (length value)).

Definition starting_col (value : matrix) : Z :=
  match first_non_nans value with
  | [] => (shape1 value + 1)%Z
  | _ :: _ => Z.of_nat (py_max (first_non_nans value))
  end.

(** Remove the columns before [starting_col]. *)
Definition trim (value : matrix) : matrix :=
  if (starting_col value =? 0)%Z then value
  else slice_cols_from (starting_col value) value.

(** The inner loop over the columns of one chain: a NaN takes [last_value],
    and [last_value] then follows the (filled) entry. *)
Fixpoint fill_from (last_value : npfloat) (row : list npfloat) : list npfloat :=
  match row with
  | [] => []
  | v :: rest =>
      let v' := if isnan v then last_value else v in
      v' :: fill_from v' rest
  end.

(** One chain: [last_value] starts as [value[chain_idx, 0]], which does not
    exist in a matrix without columns. *)
Definition fill_chain (row : list npfloat) : result (list npfloat) :=
  match row with
  | [] => Raise IndexError
  | v0 :: _ => Ok (fill_from v0 row)
  end.

Fixpoint set_nth {A : Type} (i : nat) (a : A) (l : list A) : list A :=
  match l, i with
  | [], _ => []
  | _ :: l', O => a :: l'
  | b :: l', S i' => b :: set_nth i' a l'
  end.

(** The loop over [range(len(trace_dists))]. *)
Definition fill_missing (num_chains : nat) (value : matrix) : result matrix :=
  foldM (fun v chain_idx =>
           match nth_error v chain_idx with
           | None => Raise IndexError
           | Some row => row' <- fill_chain row ;; Ok (set_nth chain_idx row' v)
           end)
        (seq 0 num_chains) value.

(** What ends up stored for the variable: the trimmed matrix, filled in
    place. *)
Definition prepare (num_chains : nat) (value : matrix) : result matrix :=
  fill_missing num_chains (trim value).

(** Position of the first sample of a chain that is not missing. *)
Fixpoint first_present (row : list npfloat) : option nat :=
  match row with
  | [] => None
  | v :: rest =>
      if isnan v then option_map S (first_present rest) else Some 0
  end.

Definition first_present_col (row : list npfloat) : nat :=
  match first_present row with
  | Some j => j
  | None => 0
  end.

(** The entry at a row and a column, when there is one. *)
Definition entry (x : matrix) (r c : nat) : option npfloat :=
  match nth_error x r with
  | Some row => nth_error row c
  | None => None
  end.

(** The columns of a chain that hold a sample, in increasing order. *)
Definition present_cols (row : list npfloat) : list nat :=
  filter (fun j => negb (isnan (nth j row NaN))) (seq 0 (length row)).

(** A chain after the fill: [last_value] starts at the chain's first entry. *)
Definition filled_row (row : list npfloat) : list npfloat :=
  fill_from (hd NaN row) row.

(** What a chain contributes to [first_non_nans]. *)
Definition first_of_chain (row : list npfloat) : list nat :=
  match first_present row with
  | Some j => [j]
  | None => []
  end.

(** ** Python values: traces, variables, trace distributions *)

(** A tensor is the list of its elements; [nelement] is their number. *)
Definition tensor : Type := list npfloat.

Definition nelement (v : tensor) : Z := Z.of_nat (length v).

(** [float(v)] on a tensor: defined on one-element tensors only. *)
Definition py_float (v : tensor) : result npfloat :=
  match v with
  | [a] => Ok a
  | _ => Raise ValueError
  end.

(** One random choice of a trace ([Variable] in the source). *)
Record PVariable : Type := {
  address : string;
  value : tensor;
  control : bool;
  observed : bool
}.

(** One execution trace, with the attributes the diagnostics read. *)
Record Trace : Type := {
  named_variables : list (string * PVariable);
  variables_controlled : list PVariable;
  variables_dict_address : list (string * PVariable);
  trace_log_prob : npfloat;
  trace_length : Z
}.

(** The Python values a caller can pass where a trace distribution is
    expected.  An [Empirical] is the sequence of its elements. *)
#[local] Set Warnings "-register-all".
Inductive pyobj : Type :=
| PyNone
| PyInt (z : Z)
| PyList (items : list pyobj)
| PyTrace (t : Trace)
| PyEmpirical (values : list pyobj).

(** [type(o) == Empirical] and [type(o) == Trace] *)
Definition is_Empirical (o : pyobj) : bool :=
  match o with
  | PyEmpirical _ => true
  | _ => false
  end.

Definition is_Trace (o : pyobj) : bool :=
  match o with
  | PyTrace _ => true
  | _ => false
  end.

(** [l[i]] on a sequence, a negative index counting from the end. *)
Definition py_index {A : Type} (l : list A) (i : Z) : result A :=
  let n := Z.of_nat (length l) in
  let j := if (i <? 0)%Z then (i + n)%Z else i in
  if (j <? 0)%Z then Raise IndexError
  else match nth_error l (Z.to_nat j) with
       | Some a => Ok a
       | None => Raise IndexError
       end.

(** [o[i]]: only sequences can be subscripted, and a distribution without
    elements refuses to be read. *)
Definition getitem (o : pyobj) (i : Z) : result pyobj :=
  match o with
  | PyEmpirical [] => Raise RuntimeError
  | PyEmpirical values => py_index values i
  | PyList items => py_index items i
  | _ => Raise TypeError
  end.

(** [o.length]: distributions and traces have the attribute. *)
Definition attr_length (o : pyobj) : result Z :=
  match o with
  | PyEmpirical values => Ok (Z.of_nat (length values))
  | PyTrace t => Ok (trace_length t)
  | _ => Raise AttributeError
  end.

(** [o._get_value(i)] *)
Definition get_value (o : pyobj) (i : nat) : result pyobj :=
  match o with
  | PyEmpirical values =>
      match nth_error values i with
      | Some e => Ok e
      | None => Raise IndexError
      end
  | _ => Raise AttributeError
  end.

(** Reading an attribute of a trace on a value that may not be one. *)
Definition attr_trace (o : pyobj) : result Trace :=
  match o with
  | PyTrace t => Ok t
  | _ => Raise AttributeError
  end.

(** ** Dictionaries

    A [dict] keeps its keys in insertion order; assigning to a key that is
    present keeps its place. *)

Section Dict.
Variables (K V : Type) (eqb : K -> K -> bool).

Fixpoint dict_get (d : list (K * V)) (k : K) : option V :=
  match d with
  | [] => None
  | (k', v) :: d' => if eqb k' k then Some v else dict_get d' k
  end.

Definition dict_mem (d : list (K * V)) (k : K) : bool :=
  match dict_get d k with
  | Some _ => true
  | None => false
  end.

Fixpoint dict_set (d : list (K * V)) (k : K) (v : V) : list (K * V) :=
  match d with
  | [] => [(k, v)]
  | (k', v') :: d' =>
      if eqb k' k then (k', v) :: d' else (k', v') :: dict_set d' k v
  end.
End Dict.

(** The keys of [variable_values]: an address and a name or [None]. *)
Definition key : Type := (string * option string)%type.

Definition name_eqb (a b : option string) : bool :=
  match a, b with
  | Some x, Some y => String.eqb x y
  | None, None => true
  | _, _ => false
  end.

Definition key_eqb (a b : key) : bool :=
  String.eqb (fst a) (fst b) && name_eqb (snd a) (snd b).

(** [<] between two names: [None] and a string do not compare. *)
Definition name_compare (a b : option string) : result comparison :=
  match a, b with
  | Some x, Some y => Ok (String.compare x y)
  | None, None => Ok Eq
  | _, _ => Raise TypeError
  end.

(** Comparison of two key tuples: the first component that differs
    decides. *)
Definition key_compare (a b : key) : result comparison :=
  match String.compare (fst a) (fst b) with
  | Eq => name_compare (snd a) (snd b)
  | c => Ok c
  end.

(** [sorted(l, reverse=True)]: a stable sort into descending order.  The
    result is that of Python's sort; which pairs get compared follows this
    insertion sort. *)
Section Sorted.
Variables (A : Type) (cmp : A -> A -> result comparison).

Fixpoint insert_desc (a : A) (l : list A) : result (list A) :=
  match l with
  | [] => Ok [a]
  | b :: l' =>
      c <- cmp a b ;;
      match c with
      | Lt => rest <- insert_desc a l' ;; Ok (b :: rest)
      | _ => Ok (a :: b :: l')
      end
  end.

Fixpoint sorted_desc (l : list A) : result (list A) :=
  match l with
  | [] => Ok []
  | a :: l' => s <- sorted_desc l' ;; insert_desc a s
  end.
End Sorted.

Definition sorted_items {V : Type} (d : list (key * V)) : result (list (key * V)) :=
  sorted_desc (fun a b => key_compare (fst a) (fst b)) d.

(** [np.zeros(n)] and [np.ones(n) * np.nan] *)
Definition np_zeros (n : Z) : list npfloat := repeat (Fin 0) (Z.to_nat n).

Definition nan_vector (n : Z) : list npfloat := repeat NaN (Z.to_nat n).

(** [v[i] = a] on a vector. *)
Definition vec_set (i : nat) (a : npfloat) (v : list npfloat)
  : result (list npfloat) :=
  if i <? length v then Ok (set_nth i a v) else Raise IndexError.

(** ** The most frequent controlled addresses

    The block shared by [autocorrelations] and [gelman_rubin]. *)

(** The controlled variables of one trace, counted by address. *)
Definition count_in_trace (trace : Trace) (address_counts : list (string * Z))
  : list (string * Z) :=
  fold_left
    (fun counts variable =>
       if (nelement (value variable) =? 1)%Z then
         match dict_get String.eqb counts (address variable) with
         | None => dict_set String.eqb counts (address variable) 1%Z
         | Some c => dict_set String.eqb counts (address variable) (c + 1)%Z
         end
       else counts)
    (variables_controlled trace) address_counts.

Definition count_addresses (trace_dist : pyobj) (num_traces : Z)
  : result (list (string * Z)) :=
  foldM (fun counts i =>
           o <- get_value trace_dist i ;;
           trace <- attr_trace o ;;
           Ok (count_in_trace trace counts))
        (seq 0 (Z.to_nat num_traces)) [].

(** The loop that stops once [n_most_frequent] addresses were taken. *)
Fixpoint take_counting {A : Type} (n_most_frequent count : Z) (l : list A)
  : list A :=
  match l with
  | [] => []
  | a :: l' =>
      a :: (if (count + 1 =? n_most_frequent)%Z then []
            else take_counting n_most_frequent (count + 1) l')
  end.

(** The addresses present in every trace, most frequent first, cut at
    [n_most_frequent]. *)
Definition most_frequent_addresses (trace_dist : pyobj)
  (num_traces n_most_frequent : Z) : result (list string) :=
  address_counts <- count_addresses trace_dist num_traces ;;
  let kept := filter (fun kv => (num_traces <=? snd kv)%Z) address_counts in
  ordered <- sorted_desc (fun a b => Ok (Z.compare (snd a) (snd b))) kept ;;
  Ok (take_counting n_most_frequent 0 (map fst ordered)).

Definition add_addresses (blank : list npfloat) (addresses : list string)
  (variable_values : list (key * list npfloat)) : list (key * list npfloat) :=
  fold_left (fun vv a => dict_set key_eqb vv (a, None) blank)
            addresses variable_values.

(** [values[i] = float(trace.variables_dict_address[address].value)] for
    every selected variable. *)
Definition load_by_address (o : pyobj) (i : nat)
  (variable_values : list (key * list npfloat))
  : result (list (key * list npfloat)) :=
  mapM (fun kv =>
          trace <- attr_trace o ;;
          match dict_get String.eqb (variables_dict_address trace) (fst (fst kv)) with
          | None => Raise KeyError
          | Some variable =>
              a <- py_float (value variable) ;;
              values <- vec_set i a (snd kv) ;;
              Ok (fst kv, values)
          end)
       variable_values.

Definition load_all_by_address (trace_dist : pyobj) (num_traces : Z)
  (variable_values : list (key * list npfloat))
  : result (list (key * list npfloat)) :=
  foldM (fun vv i => o <- get_value trace_dist i ;; load_by_address o i vv)
        (seq 0 (Z.to_nat num_traces)) variable_values.

(** ** autocorrelations *)

(** [np.corrcoef(a, b)[0][1]] for two vectors of one length, as NumPy
    computes it: the covariance (with [ddof = 1], the divisor [N - 1] being
    replaced by 0 when it is not positive) divided by the two standard
    deviations in turn, then clipped to [-1, 1]. *)
Definition np_cov (a b : list npfloat) : npfloat :=
  let ma := np_mean a in
  let mb := np_mean b in
  let fact := if length a <=? 1 then 0%R else (INR (length a) - 1)%R in
  np_div (np_sum (map (fun xy => np_mul (np_sub (fst xy) ma) (np_sub (snd xy) mb))
                      (combine a b)))
         (Fin fact).

Definition np_clip (x : npfloat) : npfloat :=
  match x with
  | Fin r => if Rlt_dec r (-1) then Fin (-1) else if Rlt_dec 1 r then Fin 1 else Fin r
  | PInf => Fin 1
  | NInf => Fin (-1)
  | NaN => NaN
  end.

Definition np_corrcoef01 (a b : list npfloat) : npfloat :=
  np_clip (np_div (np_div (np_cov a b) (np_sqrt (np_cov a a)))
                  (np_sqrt (np_cov b b))).

(** The inner function of [autocorrelations]. *)
Definition autocorrelation (values : list npfloat) (lags : list Z) : list npfloat :=
  map (fun lag =>
         if (lag =? 0)%Z then Fin 1
         else np_corrcoef01 (slice_from lag values) (slice_to (- lag) values))
      lags.

(** With no names given: every named variable of the last trace that is
    not observed and holds one element. *)
Definition select_from_last_trace (last : Trace) (len : Z)
  : list (key * list npfloat) :=
  fold_left
    (fun vv nv =>
       let variable := snd nv in
       if negb (observed variable) && (nelement (value variable) =? 1)%Z
       then dict_set key_eqb vv (address variable, Some (fst nv)) (np_zeros len)
       else vv)
    (named_variables last) [].

(** With names given: each of them, looked up in the last trace. *)
Definition select_by_name (trace_dist : pyobj) (len : Z) (names : list string)
  : result (list (key * list npfloat)) :=
  foldM (fun vv name =>
           last <- getitem trace_dist (-1) ;;
           trace <- attr_trace last ;;
           match dict_get String.eqb (named_variables trace) name with
           | None => Raise KeyError
           | Some variable =>
               Ok (dict_set key_eqb vv (address variable, Some name) (np_zeros len))
           end)
        names [].

(** The selection phase of [autocorrelations]: the variables of the last
    trace, then the most frequent controlled addresses. *)
Definition select_variables (trace_dist : pyobj) (len : Z)
  (names : option (list string)) (n_most_frequent : option Z)
  : result (list (key * list npfloat)) :=
  variable_values <-
    match names with
    | None =>
        last <- getitem trace_dist (-1) ;;
        trace <- attr_trace last ;;
        Ok (select_from_last_trace trace len)
    | Some l => select_by_name trace_dist len l
    end ;;
  match n_most_frequent with
  | None => Ok variable_values
  | Some n =>
      addresses <- most_frequent_addresses trace_dist len n ;;
      Ok (add_addresses (np_zeros len) addresses variable_values)
  end.

(** ** gelman_rubin: the values of one chain *)

(** The body of the loop over the names of trace [i]. *)
Definition select_in_trace (names : option (list string)) (len : Z) (i : nat)
  (o : pyobj) (variable_values : list (key * list npfloat))
  : result (list (key * list npfloat)) :=
  name_list <- match names with
               | None => trace <- attr_trace o ;; Ok (map fst (named_variables trace))
               | Some l => Ok l
               end ;;
  foldM (fun vv name =>
           trace <- attr_trace o ;;
           match dict_get String.eqb (named_variables trace) name with
           | None => Ok vv
           | Some variable =>
               if negb (control variable) && (nelement (value variable) =? 1)%Z
               then
                 let k := (address variable, Some name) in
                 let vv1 := if dict_mem key_eqb vv k then vv
                            else dict_set key_eqb vv k (nan_vector len) in
                 a <- py_float (value variable) ;;
                 match dict_get key_eqb vv1 k with
                 | None => Raise KeyError
                 | Some values =>
                     values' <- vec_set i a values ;;
                     Ok (dict_set key_eqb vv1 k values')
                 end
               else Ok vv
           end)
        name_list variable_values.

(** The loop of [single_trace_dist_values] over the traces of a chain. *)
Definition select_named (names : option (list string)) (trace_dist : pyobj)
  (num_traces : Z) : result (list (key * list npfloat)) :=
  foldM (fun vv i =>
           o <- get_value trace_dist i ;;
           select_in_trace names num_traces i o vv)
        (seq 0 (Z.to_nat num_traces)) [].

Definition single_trace_dist_values (trace_dist_length : Z)
  (names : option (list string)) (n_most_frequent : option Z)
  (trace_dist : pyobj) : result (list (key * list npfloat)) :=
  if negb (is_Empirical trace_dist) then Raise TypeError
  else
    first <- getitem trace_dist 0 ;;
    if negb (is_Trace first) then Raise TypeError
    else
      num_traces <- attr_length trace_dist ;;
      if negb (num_traces =? trace_dist_length)%Z then Raise ValueError
      else
        variable_values <- select_named names trace_dist num_traces ;;
        variable_values <-
          match n_most_frequent with
          | None => Ok variable_values
          | Some n =>
              addresses <- most_frequent_addresses trace_dist num_traces n ;;
              load_all_by_address trace_dist num_traces
                (add_addresses (nan_vector num_traces) addresses variable_values)
          end ;;
        sorted_items variable_values.

(** ** gelman_rubin *)

(** The values of a variable over the chains: the vector of the first chain,
    then a matrix with one row per chain. *)
Inductive ndarray : Type :=
| Arr1 (v : list npfloat)
| Arr2 (x : matrix).

Definition size (a : ndarray) : Z :=
  match a with
  | Arr1 v => Z.of_nat (length v)
  | Arr2 x => (shape0 x * shape1 x)%Z
  end.

(** [np.vstack((a, v))]; the row lengths must agree. *)
Definition vstack (a : ndarray) (v : list npfloat) : result ndarray :=
  match a with
  | Arr1 u =>
      if length u =? length v then Ok (Arr2 [u; v]) else Raise ValueError
  | Arr2 x =>
      if (shape1 x =? Z.of_nat (length v))%Z then Ok (Arr2 (x ++ [v]))
      else Raise ValueError
  end.

Definition merge_dicts (d1 : list (key * ndarray)) (d2 : list (key * list npfloat))
  : result (list (key * ndarray)) :=
  foldM (fun d kv =>
           match dict_get key_eqb d (fst kv) with
           | Some a => a' <- vstack a (snd kv) ;; Ok (dict_set key_eqb d (fst kv) a')
           | None => Ok (dict_set key_eqb d (fst kv) (Arr1 (snd kv)))
           end)
        d2 d1.

(** One round of the trim-and-fill loop.  [r, c = x] unpacks the index
    arrays of [np.where], of which a vector yields one only. *)
Definition prepare_variable (num_chains : nat) (a : ndarray) : result ndarray :=
  match a with
  | Arr1 _ => Raise ValueError
  | Arr2 value => filled <- prepare num_chains value ;; Ok (Arr2 filled)
  end.

Definition rhat_of (trace_dist_length : Z) (iters : list Z) (a : ndarray)
  : result (list npfloat) :=
  match a with
  | Arr1 _ => Raise IndexError
  | Arr2 values => rhat trace_dist_length values iters
  end.

Section Diagnostics.

(** [np.unique(np.logspace(0, np.log10(x)).astype(int))]: the log-spaced
    integer grid up to [x], left to NumPy. *)
Variable unique_logspace_ints : R -> list Z.

Definition autocorrelations (trace_dist : pyobj) (names : option (list string))
  (lags : option (list Z)) (n_most_frequent : option Z)
  : result (list Z * list (string * list npfloat)) :=
  if negb (is_Empirical trace_dist) then Raise TypeError
  else
    first <- getitem trace_dist 0 ;;
    if negb (is_Trace first) then Raise TypeError
    else
      len <- attr_length trace_dist ;;
      let lags := match lags with
                  | Some l => l
                  | None => unique_logspace_ints (IZR len / 2)
                  end in
      variable_values <- select_variables trace_dist len names n_most_frequent ;;
      if (length variable_values =? 0)%nat then Raise RuntimeError
      else
        variable_values <- sorted_items variable_values ;;
        variable_values <- load_all_by_address trace_dist len variable_values ;;
        Ok (lags,
            fold_left
              (fun d kv =>
                 dict_set String.eqb d (fst (fst kv)) (autocorrelation (snd kv) lags))
              variable_values []).

Definition gelman_rubin (trace_dists : list pyobj) (names : option (list string))
  (n_most_frequent : option Z)
  : result (list Z * list (string * list npfloat)) :=
  first <- py_index trace_dists 0 ;;
  trace_dist_length <- attr_length first ;;
  variable_values <-
    foldM (fun vv trace =>
             d <- single_trace_dist_values trace_dist_length names
                    n_most_frequent trace ;;
             merge_dicts vv d)
          trace_dists [] ;;
  last <- py_index trace_dists (-1) ;;
  last_length <- attr_length last ;;
  let iters := unique_logspace_ints (IZR last_length) in
  let num_chains := length trace_dists in
  let variable_values :=
    filter (fun kv => (size (snd kv) =? trace_dist_length * Z.of_nat num_chains)%Z)
           variable_values in
  variable_values <-
    mapM (fun kv => a <- prepare_variable num_chains (snd kv) ;; Ok (fst kv, a))
         variable_values ;;
  variable_rhats <-
    foldM (fun d kv =>
             r <- rhat_of trace_dist_length iters (snd kv) ;;
             Ok (dict_set String.eqb d (fst (fst kv)) r))
          variable_values [] ;;
  Ok (iters, variable_rhats).

End Diagnostics.

(** ** log_prob *)

(** [range(0, stop, step)] for a positive step. *)
Definition py_range (stop step : Z) : list Z :=
  map (fun k => (Z.of_nat k * step)%Z)
      (seq 0 (Z.to_nat ((stop + step - 1) / step))).

(** [np.array(rows)] on a list of lists.  The rows of an array have one
    length; rows of different lengths raise ValueError (NumPy 1.24 and
    later; earlier versions wrapped the lists into an array of objects). *)
Definition np_array {A : Type} (rows : list (list A)) : result (list (list A)) :=
  match rows with
  | [] => Ok []
  | row :: rest =>
      if forallb (fun r => length r =? length row) rest then Ok rows
      else Raise ValueError
  end.

Section LogProb.

(** [util._print_refresh_rate], and what [time.time() - time_start] reads
    once the trace at index [i] of the distribution at position [j] has been
    loaded: both come from outside this module. *)
Variable print_refresh_rate : R.
Variable duration : nat -> Z -> R.

(** The progress line, printed when enough time has passed or at the last
    trace: [traces_per_second = (i + 1) / duration] fails when the clock has
    not moved.  The new [prev_duration] is returned. *)
Definition report_progress (j : nat) (num_traces : Z) (prev_duration : R) (i : Z)
  : result R :=
  if (if Rlt_dec print_refresh_rate (duration j i - prev_duration) then true
      else (i =? num_traces - 1)%Z)
  then
    if Req_dec_T (duration j i) 0 then Raise ZeroDivisionError
    else Ok (duration j i)
  else Ok prev_duration.

(** The loop over [iters[j]]. *)
Fixpoint load_log_probs (d : pyobj) (j : nat) (num_traces : Z)
  (prev_duration : R) (its : list Z) : result (list npfloat) :=
  match its with
  | [] => Ok []
  | i :: rest =>
      o <- get_value d (Z.to_nat i) ;;
      trace <- attr_trace o ;;
      prev_duration' <- report_progress j num_traces prev_duration i ;;
      vals <- load_log_probs d j num_traces prev_duration' rest ;;
      Ok (trace_log_prob trace :: vals)
  end.

Definition log_prob (trace_dists : pyobj) (resolution : Z)
  : result (list (list Z) * list (list npfloat)) :=
  match trace_dists with
  | PyList dists =>
      lists <-
        foldM (fun acc d =>
                 first <- getitem d 0 ;;
                 if negb (is_Trace first) then Raise TypeError
                 else
                   len <- attr_length d ;;
                   q <- (if (resolution =? 0)%Z then Raise ZeroDivisionError
                         else Ok (Z.quot len resolution)) ;;
                   let its := py_range len (Z.max 1 q) in
                   vals <- load_log_probs d (length (fst acc)) len 0 its ;;
                   Ok (fst acc ++ [its], snd acc ++ [vals]))
              dists ([], []) ;;
      iters <- np_array (fst lists) ;;
      log_probs <- np_array (snd lists) ;;
      Ok (iters, log_probs)
  | _ => Raise TypeError
  end.

End LogProb.

(** ** graph: the distributions over address and trace identifiers *)

(** An entry of [address_stats] or [trace_stats] of the graph builder. *)
Record stat : Type := { count : Z }.

(** The arguments of an [Empirical(values, weights=..., name=...)]. *)
Record Empirical_args : Type := {
  emp_values : list Z;
  emp_weights : list Z;
  emp_name : string
}.

Record id_dists : Type := {
  address_id_dist : Empirical_args;
  trace_weights : list Z;
  trace_id_dist : Empirical_args
}.

Definition graph_id_dists (address_stats trace_stats : list (string * stat))
  : id_dists :=
  let address_ids := map Z.of_nat (seq 0 (length address_stats)) in
  let address_weights :=
    fold_left (fun w kv => w ++ [count (snd kv)]) address_stats [] in
  let trace_ids := map Z.of_nat (seq 0 (length trace_stats)) in
  let trace_weights :=
    fold_left (fun w kv => w ++ [count (snd kv)]) trace_stats [] in
  {| address_id_dist :=
       {| emp_values := address_ids;
          emp_weights := address_weights;
          emp_name := "Address ID" |};
     trace_weights := trace_weights;
     trace_id_dist :=
       {| emp_values := trace_ids;
          emp_weights := trace_ids;
          emp_name := "Unique trace ID" |} |}.

(** ** Sample inputs *)

(** A latent variable as an MCMC engine records it: controlled, one
    element. *)
Definition latent_mu (a : R) : PVariable :=
  {| address := "addr_mu"; value := [Fin a]; control := true; observed := false |}.

Definition trace_of_mu (a : R) : Trace :=
  {| named_variables := [("mu"%string, latent_mu a)];
     variables_controlled := [latent_mu a];
     variables_dict_address := [("addr_mu"%string, latent_mu a)];
     trace_log_prob := Fin 0;
     trace_length := 1 |}.

(** A chain of two traces. *)
Definition mcmc_chain : pyobj :=
  PyEmpirical [PyTrace (trace_of_mu 1); PyTrace (trace_of_mu 2)].

(** A trace without any named variable, and a distribution of one such
    trace. *)
Definition bare_trace : Trace :=
  {| named_variables := [];
     variables_controlled := [];
     variables_dict_address := [];
     trace_log_prob := Fin 0;
     trace_length := 0 |}.

Definition bare_dist : pyobj := PyEmpirical [PyTrace bare_trace].

(** A trace with an uncontrolled variable [x] next to the controlled [mu],
    and two chains of such traces. *)
Definition tagged_x (a : R) : PVariable :=
  {| address := "addr_x"; value := [Fin a]; control := false; observed := false |}.

Definition trace_of_x_mu (a b : R) : Trace :=
  {| named_variables := [("x"%string, tagged_x a); ("mu"%string, latent_mu b)];
     variables_controlled := [latent_mu b];
     variables_dict_address :=
       [("addr_x"%string, tagged_x a); ("addr_mu"%string, latent_mu b)];
     trace_log_prob := Fin 0;
     trace_length := 2 |}.

Definition chain_a : pyobj :=
  PyEmpirical [PyTrace (trace_of_x_mu 1 1); PyTrace (trace_of_x_mu 2 1)].

Definition chain_b : pyobj :=
  PyEmpirical [PyTrace (trace_of_x_mu 3 2); PyTrace (trace_of_x_mu 5 2)].

(** A key that one trace lets into [variable_values] in the loop of
    [single_trace_dist_values]: a named variable of the trace that is not
    controlled and holds one element. *)
Definition admitted (o : pyobj) (k : key) : Prop :=
  exists trace name variable,
    o = PyTrace trace
    /\ dict_get String.eqb (named_variables trace) name = Some variable
    /\ control variable = false
    /\ nelement (value variable) = 1%Z
    /\ k = (address variable, Some name).

(** The same, somewhere in a chain. *)
Definition admitted_in_chain (chain : pyobj) (k : key) : Prop :=
  exists i o, get_value chain i = Ok o /\ admitted o k.

(** ** The Gelman-Rubin formula on exact reals

    The quantities of Gelman and Rubin (1992) as the specification writes
    them, for [m] chains of [n] finite samples each.  These are what
    [gelman_rubin_diagnostic] is compared with. *)

Definition Rsum (l : list R) : R := fold_right Rplus 0%R l.

Definition chain_mean (row : list R) : R := (Rsum row / INR (length row))%R.

Definition chain_variance (row : list R) : R :=
  (Rsum (map (fun v => Rsqr (v - chain_mean row)) row) / INR (length row))%R.

Definition between_chain_variance (m n : nat) (x : list (list R)) : R :=
  let theta := map chain_mean x in
  (INR n / (INR m - 1)
   * Rsum (map (fun t => Rsqr (t - chain_mean theta)) theta))%R.

Definition within_chain_variance (m : nat) (x : list (list R)) : R :=
  (1 / INR m * Rsum (map chain_variance x))%R.

Definition pooled_variance (m n : nat) (x : list (list R)) : R :=
  ((INR n - 1) / INR n * within_chain_variance m x
   + (INR m + 1) / (INR m * INR n) * between_chain_variance m n x)%R.

(** The same quantities in NumPy's arithmetic, for a matrix that may hold
    NaN or infinite entries. *)
Definition np_between (m n : nat) (x : matrix) : npfloat :=
  let theta := map np_mean x in
  np_mul (Fin (INR n / (INR m - 1)))
         (np_sum (map (fun t => np_square (np_sub t (np_mean theta))) theta)).

Definition np_within (m : nat) (x : matrix) : npfloat :=
  np_mul (Fin (1 / INR m)) (np_sum (map np_var x)).

Definition np_pooled (m n : nat) (x : matrix) : npfloat :=
  np_add (np_mul (Fin ((INR n - 1) / INR n)) (np_within m x))
         (np_mul (Fin ((INR m + 1) / (INR m * INR n))) (np_between m n x)).

(** The array holding the given finite samples. *)
Definition finite_matrix (x : list (list R)) : matrix := map (map Fin) x.

(** ** The Pearson correlation coefficient on exact reals *)

Definition deviations (l : list R) : list R :=
  map (fun v => (v - chain_mean l)%R) l.

(** The sum of the products of two vectors, entry by entry. *)
Definition sum_products (xs ys : list R) : R :=
  Rsum (map (fun p => (fst p * snd p)%R) (combine xs ys)).

(** [r = S_ab / sqrt (S_aa * S_bb)], the [S] being the sums of products of
    the deviations from the means. *)
Definition pearson (a b : list R) : R :=
  (sum_products (deviations a) (deviations b)
   / sqrt (sum_products (deviations a) (deviations a)
           * sum_products (deviations b) (deviations b)))%R.

(** ** Forward fill, declaratively *)

Definition is_sample (v : npfloat) : bool := negb (isnan v).

(** The last sample of a chain at or before column [i], if there is one. *)
Definition last_sample_upto (row : list npfloat) (i : nat) : option npfloat :=
  find is_sample (rev (firstn (S i) row)).

(** A missing value read as NaN. *)
Definition or_nan (o : option npfloat) : npfloat :=
  match o with
  | Some v => v
  | None => NaN
  end.

(** ** Counting addresses, declaratively *)

(** How many controlled one-element variables of a trace sit at an
    address, and the same over a list of traces. *)
Definition occurrences_in_trace (trace : Trace) (a : string) : Z :=
  Z.of_nat
    (length
       (filter (fun v => (nelement (value v) =? 1)%Z && String.eqb (address v) a)
               (variables_controlled trace))).

Definition occurrences (traces : list Trace) (a : string) : Z :=
  fold_right Z.add 0%Z (map (fun t => occurrences_in_trace t a) traces).

(** The count stored for an address, zero when there is none. *)
Definition get_count (counts : list (string * Z)) (a : string) : Z :=
  match dict_get String.eqb counts a with
  | Some c => c
  | None => 0%Z
  end.

(** Counts that never increase along the list. *)
Definition counts_descending (l : list (string * Z)) : Prop :=
  forall i j x y,
    i < j -> nth_error l i = Some x -> nth_error l j = Some y ->
    (snd y <= snd x)%Z.

(** The invariant of the counting loops: distinct keys, positive counts. *)
Definition counts_ok (counts : list (string * Z)) : Prop :=
  NoDup (map fst counts)
  /\ forall a c, dict_get String.eqb counts a = Some c -> (0 < c)%Z.

(** A trace that visits the controlled address [addr_a] twice (a loop). *)
Definition visit_a : PVariable :=
  {| address := "addr_a"; value := [Fin 1]; control := true; observed := false |}.

Definition looping_trace : Trace :=
  {| named_variables := [];
     variables_controlled := [visit_a; visit_a];
     variables_dict_address := [("addr_a"%string, visit_a)];
     trace_log_prob := Fin 0;
     trace_length := 2 |}.

(** ** What log_prob samples *)

(** The trace indices read for a distribution of [len] traces. *)
Definition sampled_indices (len resolution : Z) : list Z :=
  py_range len (Z.max 1 (Z.quot len resolution)).

(** The log-probabilities of the traces at the given indices. *)
Definition sampled_log_probs (traces : list Trace) (its : list Z) : list npfloat :=
  map (fun i => trace_log_prob (nth (Z.to_nat i) traces bare_trace)) its.

(** A distribution of the given traces. *)
Definition Empirical_of (traces : list Trace) : pyobj :=
  PyEmpirical (map PyTrace traces).

(** ** The series behind an autocorrelation *)

(** The value a trace holds at an address, as a float; NaN stands in where
    the trace has no one-element value there. *)
Definition value_at (t : Trace) (a : string) : npfloat :=
  match dict_get String.eqb (variables_dict_address t) a with
  | Some variable =>
      match value variable with
      | [x] => x
      | _ => NaN
      end
  | None => NaN
  end.

(** The values at an address along the traces of a distribution. *)
Definition series (traces : list Trace) (a : string) : list npfloat :=
  map (fun t => value_at t a) traces.

(** A trace holds a one-element value at an address. *)
Definition has_scalar_at (t : Trace) (a : string) : Prop :=
  exists variable x,
    dict_get String.eqb (variables_dict_address t) a = Some variable
    /\ value variable = [x].

(** ** Keys that cannot be ordered *)

(** Both names are strings, or both are [None]. *)
Definition same_kind (a b : option string) : bool :=
  match a, b with
  | Some _, Some _ => true
  | None, None => true
  | _, _ => false
  end.

(** Two entries that share their address, one with a name and one
    without. *)
Definition clash {V : Type} (x y : key * V) : Prop :=
  fst (fst x) = fst (fst y)
  /\ same_kind (snd (fst x)) (snd (fst y)) = false.

(** A dictionary that holds an address once under a name and once under
    [None]. *)
Definition mixed_names {V : Type} (d : list (key * V)) : Prop :=
  exists x y, In x d /\ In y d /\ clash x y.

(** The addresses of two entries are in descending order. *)
Definition address_ge {V : Type} (x y : key * V) : Prop :=
  String.compare (fst (fst x)) (fst (fst y)) <> Lt.

(** ** What gelman_rubin keeps *)

(** The key is taken by [names]: any key when no names are given. *)
Definition picked (names : option (list string)) (k : key) : Prop :=
  match names, snd k with
  | Some l, Some name => In name l
  | _, _ => True
  end.

(** Some trace of the chain stores a sample under the key. *)
Definition stored_in_chain (names : option (list string)) (traces : list Trace)
  (k : key) : Prop :=
  exists t, In t traces /\ admitted (PyTrace t) k /\ picked names k.

(** The uncontrolled one-element samples of a trace are not NaN. *)
Definition samples_are_numbers (t : Trace) : Prop :=
  forall name variable x,
    dict_get String.eqb (named_variables t) name = Some variable ->
    control variable = false -> value variable = [x] -> isnan x = false.

(** The vectors found under a key in the dictionaries of the chains, in the
    order of the chains. *)
Definition collected (ds : list (list (key * list npfloat))) (k : key) : matrix :=
  flat_map (fun d => match dict_get key_eqb d k with
                     | Some v => [v]
                     | None => []
                     end) ds.

(** What [merge_dicts] has stored for a key after these vectors: nothing,
    the vector itself, or the stack of them. *)
Definition to_array (rows : matrix) : option ndarray :=
  match rows with
  | [] => None
  | [v] => Some (Arr1 v)
  | _ => Some (Arr2 rows)
  end.

(** The vectors of one chain: distinct keys, one entry per trace, at least
    one sample each. *)
Definition chain_inv (L : nat) (vv : list (key * list npfloat)) : Prop :=
  NoDup (map fst vv)
  /\ forall kv, In kv vv ->
                length (snd kv) = L /\ first_present (snd kv) <> None.

(** ** The addresses the most-frequent block chooses from *)

(** The keys of [address_counts] once it has been filtered and sorted: the
    addresses seen at least as often as there are traces, most frequent
    first. *)
Definition ordered_addresses (trace_dist : pyobj) (num_traces : Z)
  : result (list string) :=
  address_counts <- count_addresses trace_dist num_traces ;;
  let kept := filter (fun kv => (num_traces <=? snd kv)%Z) address_counts in
  ordered <- sorted_desc (fun a b => Ok (Z.compare (snd a) (snd b))) kept ;;
  Ok (map fst ordered).

(** A trace with three controlled addresses, the second visited twice. *)
Definition visit_b : PVariable :=
  {| address := "addr_b"; value := [Fin 2]; control := true; observed := false |}.

Definition visit_c : PVariable :=
  {| address := "addr_c"; value := [Fin 3]; control := true; observed := false |}.

Definition three_address_trace : Trace :=
  {| named_variables := [];
     variables_controlled := [visit_a; visit_b; visit_b; visit_c];
     variables_dict_address :=
       [("addr_a"%string, visit_a); ("addr_b"%string, visit_b);
        ("addr_c"%string, visit_c)];
     trace_log_prob := Fin 0;
     trace_length := 4 |}.

(** ** The samples gelman_rubin stores under a key *)




(** * Properties *)

(** ** Reading a distribution that has elements *)

Lemma getitem_Empirical (values : list pyobj) (i : Z) :
  values <> [] -> getitem (PyEmpirical values) i = py_index values i.
Proof.
  destruct values; [congruence | reflexivity].
Qed.

(** ** Sums, means and variances of finite vectors *)

Lemma fold_left_np_add_Fin (l : list R) (a : R) :
  fold_left np_add (map Fin l) (Fin a) = Fin (a + Rsum l).
Proof.
  revert a; induction l as [|v l IH]; intros a; simpl.
  - f_equal; lra.
  - rewrite IH. f_equal; lra.
Qed.

Lemma np_sum_Fin (l : list R) : np_sum (map Fin l) = Fin (Rsum l).
Proof.
  unfold np_sum. rewrite fold_left_np_add_Fin. f_equal; lra.
Qed.

Lemma INR_length_neq_0 {A : Type} (l : list A) : l <> [] -> INR (length l) <> 0%R.
Proof.
  destruct l as [|a l]; [congruence|]. intros _.
  apply not_0_INR. simpl; lia.
Qed.

Lemma np_mean_Fin (l : list R) :
  l <> [] -> np_mean (map Fin l) = Fin (chain_mean l).
Proof.
  intros Hl. unfold np_mean, chain_mean.
  rewrite np_sum_Fin, length_map. simpl.
  destruct (Req_dec_T (INR (length l)) 0) as [E|_]; [|reflexivity].
  exfalso. now apply (INR_length_neq_0 Hl).
Qed.

Lemma map_square_dev_Fin (l : list R) (c : R) :
  map (fun a => np_square (np_sub a (Fin c))) (map Fin l)
  = map Fin (map (fun v => Rsqr (v - c)) l).
Proof.
  rewrite !map_map. apply map_ext. intros v.
  unfold np_square, np_sub, Rsqr. simpl. f_equal; lra.
Qed.

Lemma np_var_Fin (l : list R) :
  l <> [] -> np_var (map Fin l) = Fin (chain_variance l).
Proof.
  intros Hl. unfold np_var. rewrite (np_mean_Fin Hl), map_square_dev_Fin.
  rewrite np_mean_Fin.
  - unfold chain_variance, chain_mean at 1. now rewrite length_map.
  - destruct l; [congruence | discriminate].
Qed.

Lemma Rsum_nonneg (l : list R) : Forall (fun v => 0 <= v)%R l -> (0 <= Rsum l)%R.
Proof.
  induction 1 as [|v l Hv _ IH]; simpl; lra.
Qed.

Lemma Rsum_squares_nonneg {A : Type} (f : A -> R) (l : list A) :
  (0 <= Rsum (map (fun a => Rsqr (f a)) l))%R.
Proof.
  apply Rsum_nonneg, Forall_forall. intros v Hv.
  apply in_map_iff in Hv as (a & <- & _). apply Rle_0_sqr.
Qed.

Lemma chain_variance_nonneg (l : list R) : (0 <= chain_variance l)%R.
Proof.
  unfold chain_variance.
  destruct l as [|a l].
  - simpl. unfold Rdiv. rewrite Rmult_0_l. lra.
  - apply Rmult_le_pos.
    + apply (Rsum_squares_nonneg (fun v => (v - chain_mean (a :: l))%R)).
    + left. apply Rinv_0_lt_compat. apply lt_0_INR. simpl; lia.
Qed.

Lemma map_np_mean_finite (x : list (list R)) :
  Forall (fun row => row <> []) x ->
  map np_mean (finite_matrix x) = map Fin (map chain_mean x).
Proof.
  unfold finite_matrix. induction 1 as [|row x Hrow _ IH]; simpl; [reflexivity|].
  now rewrite (np_mean_Fin Hrow), IH.
Qed.

Lemma map_np_var_finite (x : list (list R)) :
  Forall (fun row => row <> []) x ->
  map np_var (finite_matrix x) = map Fin (map chain_variance x).
Proof.
  unfold finite_matrix. induction 1 as [|row x Hrow _ IH]; simpl; [reflexivity|].
  now rewrite (np_var_Fin Hrow), IH.
Qed.

Lemma rows_nonempty (x : list (list R)) (n : nat) :
  (1 <= n)%nat -> Forall (fun row => length row = n) x ->
  Forall (fun row => row <> []) x.
Proof.
  intros Hn H. eapply Forall_impl; [|exact H].
  intros row Hrow ->. simpl in Hrow. lia.
Qed.

Lemma shape1_finite (x : list (list R)) (n : nat) :
  x <> [] -> Forall (fun row => length row = n) x ->
  shape1 (finite_matrix x) = Z.of_nat n.
Proof.
  destruct x as [|row x]; [congruence|]. intros _ H.
  inversion H; subst. simpl. now rewrite length_map.
Qed.

Lemma shape0_finite (x : list (list R)) :
  shape0 (finite_matrix x) = Z.of_nat (length x).
Proof. unfold shape0, finite_matrix. now rewrite length_map. Qed.

(** On finite samples nothing is raised and every intermediate value is the
    finite real of the formula. *)
Lemma gelman_rubin_diagnostic_finite (x : list (list R)) (m n : nat) :
  length x = m -> (2 <= m)%nat -> (1 <= n)%nat ->
  Forall (fun row => length row = n) x ->
  gelman_rubin_diagnostic (finite_matrix x) None
  = Ok (np_sqrt (np_div (Fin (pooled_variance m n x))
                        (Fin (within_chain_variance m x)))).
Proof.
  intros Hm H2 H1 Hrows.
  assert (Hx : x <> []) by (intros ->; simpl in Hm; lia).
  assert (Hne : Forall (fun row => row <> []) x) by (eapply rows_nonempty; eauto).
  unfold gelman_rubin_diagnostic.
  rewrite shape0_finite, (shape1_finite Hx Hrows), Hm.
  destruct (Z.ltb_spec (Z.of_nat m) 2) as [Hlt|_]; [lia|].
  rewrite (map_np_mean_finite Hne), (map_np_var_finite Hne).
  rewrite np_mean_Fin by (destruct x; [congruence | discriminate]).
  rewrite map_square_dev_Fin, !np_sum_Fin.
  unfold py_int_div.
  destruct (Z.eqb_spec (Z.of_nat m - 1) 0) as [E|_]; [lia|].
  destruct (Z.eqb_spec (Z.of_nat m) 0) as [E|_]; [lia|].
  destruct (Z.eqb_spec (Z.of_nat n) 0) as [E|_]; [lia|].
  destruct (Z.eqb_spec (Z.of_nat m * Z.of_nat n) 0) as [E|_]; [lia|].
  cbn [bind np_mul np_add]. do 3 f_equal; f_equal.
  - unfold pooled_variance, within_chain_variance, between_chain_variance.
    rewrite !minus_IZR, !plus_IZR, !mult_IZR, <- !INR_IZR_INZ.
    reflexivity.
  - unfold within_chain_variance. now rewrite <- INR_IZR_INZ.
Qed.

Lemma within_chain_variance_nonneg (m : nat) (x : list (list R)) :
  (0 <= within_chain_variance m x)%R.
Proof.
  unfold within_chain_variance. apply Rmult_le_pos.
  - unfold Rdiv. rewrite Rmult_1_l.
    destruct m as [|m].
    + simpl. rewrite Rinv_0. lra.
    + left. apply Rinv_0_lt_compat, lt_0_INR. lia.
  - apply Rsum_nonneg, Forall_forall. intros v Hv.
    apply in_map_iff in Hv as (row & <- & _). apply chain_variance_nonneg.
Qed.

Lemma between_chain_variance_nonneg (m n : nat) (x : list (list R)) :
  (2 <= m)%nat -> (0 <= between_chain_variance m n x)%R.
Proof.
  intros Hm. unfold between_chain_variance. apply Rmult_le_pos.
  - apply Rmult_le_pos; [apply pos_INR|].
    left. apply Rinv_0_lt_compat.
    apply le_INR in Hm. simpl in Hm. lra.
  - apply (Rsum_squares_nonneg
             (fun t => (t - chain_mean (map chain_mean x))%R)).
Qed.

Lemma pooled_variance_nonneg (m n : nat) (x : list (list R)) :
  (2 <= m)%nat -> (1 <= n)%nat -> (0 <= pooled_variance m n x)%R.
Proof.
  intros Hm Hn. unfold pooled_variance.
  pose proof (within_chain_variance_nonneg m x) as HW.
  pose proof (between_chain_variance_nonneg n x Hm) as HB.
  apply le_INR in Hm, Hn. simpl in Hm, Hn.
  assert (0 < INR n)%R by lra. assert (0 < INR m)%R by lra.
  apply Rplus_le_le_0_compat; apply Rmult_le_pos; try assumption.
  - apply Rmult_le_pos; [lra|]. left. now apply Rinv_0_lt_compat.
  - apply Rmult_le_pos; [lra|]. left. apply Rinv_0_lt_compat.
    now apply Rmult_lt_0_compat.
Qed.

(** In NumPy's arithmetic the result is the root of the quotient for every
    matrix with two rows or more and one column or more. *)
Lemma gelman_rubin_diagnostic_np (x : matrix) (m n : nat) :
  length x = m -> (2 <= m)%nat -> shape1 x = Z.of_nat n -> (1 <= n)%nat ->
  gelman_rubin_diagnostic x None
  = Ok (np_sqrt (np_div (np_pooled m n x) (np_within m x))).
Proof.
  intros Hm H2 Hn H1. unfold gelman_rubin_diagnostic, shape0.
  rewrite Hm, Hn.
  destruct (Z.ltb_spec (Z.of_nat m) 2) as [Hlt|_]; [lia|].
  unfold py_int_div.
  destruct (Z.eqb_spec (Z.of_nat m - 1) 0) as [E|_]; [lia|].
  destruct (Z.eqb_spec (Z.of_nat m) 0) as [E|_]; [lia|].
  destruct (Z.eqb_spec (Z.of_nat n) 0) as [E|_]; [lia|].
  destruct (Z.eqb_spec (Z.of_nat m * Z.of_nat n) 0) as [E|_]; [lia|].
  cbn [bind]. unfold np_pooled, np_within, np_between.
  rewrite !minus_IZR, !plus_IZR, !mult_IZR, <- !INR_IZR_INZ.
  reflexivity.
Qed.

Lemma np_within_finite (x : list (list R)) (m n : nat) :
  (1 <= n)%nat -> Forall (fun row => length row = n) x ->
  np_within m (finite_matrix x) = Fin (within_chain_variance m x).
Proof.
  intros H1 Hrows. unfold np_within, within_chain_variance.
  rewrite (map_np_var_finite (rows_nonempty H1 Hrows)), np_sum_Fin.
  reflexivity.
Qed.

Lemma np_pooled_finite (x : list (list R)) (m n : nat) :
  x <> [] -> (1 <= n)%nat -> Forall (fun row => length row = n) x ->
  np_pooled m n (finite_matrix x) = Fin (pooled_variance m n x).
Proof.
  intros Hx H1 Hrows. unfold np_pooled.
  rewrite (np_within_finite m H1 Hrows). unfold np_between.
  rewrite (map_np_mean_finite (rows_nonempty H1 Hrows)).
  rewrite np_mean_Fin by (destruct x; [congruence | discriminate]).
  rewrite map_square_dev_Fin, np_sum_Fin. reflexivity.
Qed.

(** C1.  For a matrix with [m >= 2] chains (rows) and [n >= 1] iterations
    (columns), [gelman_rubin_diagnostic] raises nothing and returns
    [sqrt (V_hat / W)], where the chain means and (population) variances are
    taken over each row, [B = n/(m-1) * sum_i (theta_i - mean theta)^2],
    [W = (1/m) * sum_i sigma_i] and [V_hat = (n-1)/n * W + (m+1)/(m*n) * B].
    This holds in NumPy's arithmetic whatever the entries; on finite samples
    [W] and [V_hat] are the real numbers of the formula, and whenever [W] is
    not zero the result is the real square root of the real quotient. *)
Theorem gelman_rubin_diagnostic_formula (x : matrix) (m n : nat) :
  length x = m -> (2 <= m)%nat -> shape1 x = Z.of_nat n -> (1 <= n)%nat ->
  gelman_rubin_diagnostic x None
  = Ok (np_sqrt (np_div (np_pooled m n x) (np_within m x)))
  /\ forall xr : list (list R),
       x = finite_matrix xr ->
       Forall (fun row => length row = n) xr ->
       np_within m x = Fin (within_chain_variance m xr)
       /\ np_pooled m n x = Fin (pooled_variance m n xr)
       /\ (within_chain_variance m xr <> 0%R ->
           gelman_rubin_diagnostic x None
           = Ok (Fin (sqrt (pooled_variance m n xr / within_chain_variance m xr)))).
Proof.
  intros Hm H2 Hn H1.
  pose proof (gelman_rubin_diagnostic_np x Hm H2 Hn H1) as Hnp.
  split; [exact Hnp|]. intros xr -> Hrows.
  assert (Hxr : xr <> []).
  { intros ->. simpl in Hm. lia. }
  pose proof (np_within_finite m H1 Hrows) as HW.
  pose proof (np_pooled_finite m Hxr H1 Hrows) as HV.
  split; [exact HW|]. split; [exact HV|].
  intros HWne. rewrite Hnp, HW, HV. f_equal.
  unfold np_div. destruct (Req_dec_T _ 0) as [E|_]; [contradiction|].
  unfold np_sqrt. destruct (Rlt_dec _ 0) as [Hneg|_]; [|reflexivity].
  exfalso.
  pose proof (within_chain_variance_nonneg m xr) as HW0.
  pose proof (pooled_variance_nonneg xr H2 H1) as HV0.
  assert (0 <= pooled_variance m n xr / within_chain_variance m xr)%R.
  { apply Rmult_le_pos; [assumption|]. left. apply Rinv_0_lt_compat. lra. }
  lra.
Qed.

(** ** Identical chains *)

Lemma Rsum_repeat (v : R) (m : nat) : Rsum (repeat v m) = (INR m * v)%R.
Proof.
  induction m as [|m IH].
  - simpl. lra.
  - rewrite S_INR. simpl. rewrite IH. lra.
Qed.

Lemma chain_mean_repeat (v : R) (m : nat) :
  (1 <= m)%nat -> chain_mean (repeat v m) = v.
Proof.
  intros Hm. unfold chain_mean. rewrite Rsum_repeat, repeat_length.
  apply le_INR in Hm. simpl in Hm. field. lra.
Qed.

(** ** rhat *)

(** With two chains or more and at least one column, nothing is raised. *)
Lemma gelman_rubin_diagnostic_total (x : matrix) (mu : option npfloat) :
  (2 <= shape0 x)%Z -> (1 <= shape1 x)%Z ->
  exists r, gelman_rubin_diagnostic x mu = Ok r.
Proof.
  intros Hm Hn. unfold gelman_rubin_diagnostic, py_int_div.
  destruct (Z.ltb_spec (shape0 x) 2) as [Hlt|_]; [lia|].
  destruct (Z.eqb_spec (shape0 x - 1) 0) as [E|_]; [lia|].
  destruct (Z.eqb_spec (shape0 x) 0) as [E|_]; [lia|].
  destruct (Z.eqb_spec (shape1 x) 0) as [E|_]; [lia|].
  destruct (Z.eqb_spec (shape0 x * shape1 x) 0) as [E|_]; [lia|].
  cbn [bind]. eexists; reflexivity.
Qed.

Lemma shape0_slice_cols_to (k : Z) (x : matrix) :
  shape0 (slice_cols_to k x) = shape0 x.
Proof. unfold shape0, slice_cols_to. now rewrite length_map. Qed.

Lemma shape1_slice_cols_to (k : Z) (x : matrix) :
  (0 <= k)%Z -> shape1 (slice_cols_to k x) = Z.min k (shape1 x).
Proof.
  intros Hk. destruct x as [|row x]; simpl; [lia|].
  unfold slice_to. destruct (Z.ltb_spec k 0) as [Hlt|_]; [lia|].
  rewrite length_firstn. lia.
Qed.

Lemma mapM_Ok_inv {A B : Type} (f : A -> result B) (l : list A) (bs : list B) :
  mapM f l = Ok bs ->
  length bs = length l
  /\ forall k a, nth_error l k = Some a ->
                 exists b, f a = Ok b /\ nth_error bs k = Some b.
Proof.
  revert bs; induction l as [|a l IH]; intros bs H; simpl in H.
  - inversion H; subst. split; [reflexivity|].
    intros [|k] a' Hk; discriminate.
  - destruct (f a) as [b|e] eqn:Hfa; [|discriminate]. cbn [bind] in H.
    destruct (mapM f l) as [bs'|e] eqn:Hrec; [|discriminate]. cbn [bind] in H.
    inversion H; subst. destruct (IH bs' eq_refl) as [Hlen Hnth].
    split; [simpl; now rewrite Hlen|].
    intros [|k] a' Hk; simpl in Hk.
    + inversion Hk; subst. exists b. now split.
    + apply (Hnth k a' Hk).
Qed.

Lemma mapM_total {A B : Type} (f : A -> result B) (l : list A) :
  (forall a, In a l -> exists b, f a = Ok b) ->
  exists bs, mapM f l = Ok bs.
Proof.
  induction l as [|a l IH]; intros Hf; simpl.
  - now exists [].
  - destruct (Hf a (or_introl eq_refl)) as [b ->].
    destruct IH as [bs ->]; [intros a' Ha'; apply Hf; now right|].
    cbn [bind]. now exists (b :: bs).
Qed.

(** C5, as the code has it.  For a matrix with two chains or more and at
    least one column, [rhat] raises nothing and returns one value per cutoff:
    NaN at every cutoff [t] at or below [num_missing = chain_length -
    matrix_width], and otherwise the value of [gelman_rubin_diagnostic] on the
    first [t - num_missing] columns. *)
Theorem rhat_nan_up_to_num_missing
  (trace_dist_length : Z) (values : matrix) (iters : list Z) :
  (2 <= shape0 values)%Z -> (1 <= shape1 values)%Z ->
  let num_missing := (trace_dist_length - shape1 values)%Z in
  exists ret,
    rhat trace_dist_length values iters = Ok ret
    /\ length ret = length iters
    /\ forall k t, nth_error iters k = Some t ->
         ((t <= num_missing)%Z -> nth_error ret k = Some NaN)
         /\ ((num_missing < t)%Z ->
             exists r,
               gelman_rubin_diagnostic
                 (slice_cols_to (t - num_missing) values) None = Ok r
               /\ nth_error ret k = Some r).
Proof.
  intros Hm Hn num_missing.
  set (body := fun t : Z =>
                 if (t <=? num_missing)%Z then Ok NaN
                 else gelman_rubin_diagnostic
                        (slice_cols_to (t - num_missing) values) None).
  assert (Htotal : forall t, exists r, body t = Ok r).
  { intros t. unfold body.
    destruct (Z.leb_spec t num_missing) as [_|Hgt]; [now exists NaN|].
    apply gelman_rubin_diagnostic_total.
    - now rewrite shape0_slice_cols_to.
    - rewrite shape1_slice_cols_to by lia. lia. }
  destruct (mapM_total body iters) as [ret Hret]; [intros t _; apply Htotal|].
  exists ret. split; [exact Hret|].
  destruct (mapM_Ok_inv _ _ Hret) as [Hlen Hnth].
  split; [exact Hlen|]. intros k t Hk.
  destruct (Hnth k t Hk) as (r & Hr & Hrk). unfold body in Hr.
  split; intros Ht.
  - destruct (Z.leb_spec t num_missing) as [_|Hgt]; [|lia].
    inversion Hr; subst. exact Hrk.
  - destruct (Z.leb_spec t num_missing) as [Hle|_]; [lia|].
    exists r. now split.
Qed.

(** C5 as stated fails at [t = num_missing]: with chains of length 3 and a
    matrix of width 2 one sample is missing, and the cutoff 1, which is not
    below 1, yields NaN. *)
Lemma rhat_nan_at_num_missing :
  let values := finite_matrix [[1; 2]; [3; 5]]%R in
  let num_missing := (3 - shape1 values)%Z in
  rhat 3 values [1%Z] = Ok [NaN] /\ ~ (1 < num_missing)%Z.
Proof.
  split; [reflexivity|]. cbv. discriminate.
Qed.

(** NaN also comes out above [num_missing]: two chains without variance
    have [W = 0] and [V_hat = 0], and [0/0] is NaN. *)
Lemma rhat_nan_without_variance :
  rhat 2 (finite_matrix [[1; 1]; [1; 1]]%R) [2%Z] = Ok [NaN].
Proof.
  change (rhat 2 (finite_matrix [[1; 1]; [1; 1]]%R) [2%Z])
    with (b <- gelman_rubin_diagnostic (finite_matrix [[1; 1]; [1; 1]]%R) None ;;
          Ok [b]).
  rewrite (@gelman_rubin_diagnostic_finite [[1; 1]; [1; 1]]%R 2 2
             eq_refl ltac:(lia) ltac:(lia) ltac:(repeat constructor)).
  assert (HW : within_chain_variance 2 [[1; 1]; [1; 1]]%R = 0%R).
  { cbv [within_chain_variance chain_variance chain_mean Rsum map fold_right
         length INR Rsqr]. field. }
  assert (HV : pooled_variance 2 2 [[1; 1]; [1; 1]]%R = 0%R).
  { unfold pooled_variance. rewrite HW.
    cbv [between_chain_variance chain_mean Rsum map fold_right length INR Rsqr].
    field. }
  rewrite HW, HV. unfold np_div.
  destruct (Req_dec_T 0 0) as [_|E]; [|contradiction].
  unfold Rsign. destruct (Rlt_dec 0 0) as [E|_]; [lra|]. reflexivity.
Qed.

(** ** Trimming *)

Lemma present_cols_cons (v : npfloat) (rest : list npfloat) :
  present_cols (v :: rest)
  = (if isnan v then [] else [0]) ++ map S (present_cols rest).
Proof.
  unfold present_cols. simpl length. cbn [seq filter nth].
  rewrite <- seq_shift, filter_map_swap. cbn [nth].
  destruct (isnan v); reflexivity.
Qed.

Lemma fold_left_min_0 (l : list nat) : fold_left Nat.min l 0 = 0.
Proof. induction l as [|a l IH]; simpl; [reflexivity | exact IH]. Qed.

Lemma fold_left_min_S (l : list nat) (a : nat) :
  fold_left Nat.min (map S l) (S a) = S (fold_left Nat.min l a).
Proof.
  revert a; induction l as [|b l IH]; intros a; simpl; [reflexivity|].
  apply IH.
Qed.

Lemma np_min_map_S (l : list nat) : l <> [] -> np_min (map S l) = S (np_min l).
Proof.
  destruct l as [|a l]; [congruence|]. intros _. apply fold_left_min_S.
Qed.

(** The smallest present column is the first present one. *)
Lemma present_cols_first (row : list npfloat) :
  match present_cols row with
  | [] => first_present row = None
  | _ :: _ => first_present row = Some (np_min (present_cols row))
  end.
Proof.
  induction row as [|v rest IH]; [reflexivity|].
  rewrite present_cols_cons. simpl first_present.
  destruct (isnan v).
  - simpl app. destruct (present_cols rest) as [|j l] eqn:E.
    + simpl. now rewrite IH.
    + rewrite <- E in *. rewrite np_min_map_S by (rewrite E; discriminate).
      destruct (map S (present_cols rest)) eqn:E'.
      * rewrite E in E'. discriminate.
      * now rewrite IH.
  - simpl. now rewrite fold_left_min_0.
Qed.

Lemma map_snd_where_not_nan_row (i : nat) (row : list npfloat) :
  map snd (where_not_nan_row i row) = present_cols row.
Proof.
  unfold where_not_nan_row, present_cols. rewrite map_map. simpl. apply map_id.
Qed.

Lemma filter_where_not_nan_row (i s : nat) (row : list npfloat) :
  filter (fun rc => fst rc =? i) (where_not_nan_row s row)
  = if s =? i then where_not_nan_row s row else [].
Proof.
  unfold where_not_nan_row.
  induction (filter _ (seq 0 (length row))) as [|j l IH]; simpl.
  - now destruct (s =? i).
  - rewrite IH. now destruct (s =? i).
Qed.

(** The positions of [np.where] in row [i] are those of that row. *)
Lemma filter_where_rows (rows : matrix) (s i : nat) :
  filter (fun rc => fst rc =? i)
         (concat (map (fun ir => where_not_nan_row (fst ir) (snd ir))
                      (combine (seq s (length rows)) rows)))
  = if s <=? i then where_not_nan_row i (nth (i - s) rows []) else [].
Proof.
  revert s; induction rows as [|row rows IH]; intros s.
  - simpl. destruct (s <=? i); [|reflexivity].
    now destruct (i - s).
  - simpl length. cbn [seq combine map concat fst snd].
    rewrite filter_app, filter_where_not_nan_row, IH.
    destruct (Nat.eqb_spec s i) as [->|Hne].
    + rewrite Nat.leb_refl, Nat.sub_diag.
      destruct (Nat.leb_spec (S i) i) as [Hle|_]; [lia|].
      simpl. apply app_nil_r.
    + destruct (Nat.leb_spec s i) as [Hle|Hgt].
      * destruct (Nat.leb_spec (S s) i) as [_|Hlt]; [|lia].
        replace (i - s) with (S (i - S s)) by lia. reflexivity.
      * destruct (Nat.leb_spec (S s) i) as [Hle|_]; [lia|]. reflexivity.
Qed.

Lemma existsb_filter_nil {A : Type} (p : A -> bool) (l : list A) :
  existsb p l = match filter p l with [] => false | _ :: _ => true end.
Proof.
  induction l as [|a l IH]; simpl; [reflexivity|].
  destruct (p a); simpl; [reflexivity | exact IH].
Qed.

Lemma first_non_nans_chain (x : list (nat * nat)) (i : nat) (row : list npfloat) :
  filter (fun rc => fst rc =? i) x = where_not_nan_row i row ->
  (if existsb (fun rc => fst rc =? i) x
   then [np_min (map snd (filter (fun rc => fst rc =? i) x))]
   else [])
  = first_of_chain row.
Proof.
  intros E. rewrite existsb_filter_nil, E, map_snd_where_not_nan_row.
  pose proof (present_cols_first row) as H.
  pose proof (map_snd_where_not_nan_row i row) as Hc.
  unfold first_of_chain.
  destruct (where_not_nan_row i row) as [|rc l]; simpl in Hc; rewrite <- Hc in H.
  - now rewrite H.
  - rewrite H. now rewrite Hc.
Qed.

Lemma flat_map_ext_In {A B : Type} (f g : A -> list B) (l : list A) :
  (forall a, In a l -> f a = g a) -> flat_map f l = flat_map g l.
Proof.
  induction l as [|a l IH]; intros H; simpl; [reflexivity|].
  rewrite (H a (or_introl eq_refl)), IH; [reflexivity|].
  intros b Hb. apply H. now right.
Qed.

Lemma flat_map_nth_seq {A B : Type} (h : A -> list B) (d : A) (l : list A) (s : nat) :
  flat_map (fun i => h (nth (i - s) l d)) (seq s (length l)) = flat_map h l.
Proof.
  revert s; induction l as [|a l IH]; intros s; [reflexivity|].
  simpl length. cbn [seq flat_map]. rewrite Nat.sub_diag. cbn [nth].
  f_equal. rewrite <- (IH (S s)). apply flat_map_ext_In.
  intros i Hi. apply in_seq in Hi.
  replace (i - s) with (S (i - S s)) by lia. reflexivity.
Qed.

(** [first_non_nans] lists, chain by chain, the first present column of the
    chains that have one. *)
Lemma first_non_nans_spec (value : matrix) :
  first_non_nans value = flat_map first_of_chain value.
Proof.
  unfold first_non_nans.
  rewrite <- (flat_map_nth_seq first_of_chain [] value 0).
  apply flat_map_ext_In. intros i Hi.
  apply first_non_nans_chain.
  unfold where_not_nan. rewrite filter_where_rows. reflexivity.
Qed.

Lemma first_non_nans_all_present (value : matrix) :
  Forall (fun row => first_present row <> None) value ->
  first_non_nans value = map first_present_col value.
Proof.
  intros H. rewrite first_non_nans_spec.
  induction H as [|row value Hrow _ IH]; [reflexivity|].
  simpl. rewrite IH. unfold first_of_chain, first_present_col.
  destruct (first_present row); [reflexivity | congruence].
Qed.

Lemma fold_left_max_list_max (l : list nat) (a : nat) :
  fold_left Nat.max l a = Nat.max a (list_max l).
Proof.
  revert a; induction l as [|b l IH]; intros a; simpl.
  - lia.
  - rewrite IH. lia.
Qed.

Lemma py_max_list_max (l : list nat) : py_max l = list_max l.
Proof.
  destruct l as [|a l]; [reflexivity|]. simpl. apply fold_left_max_list_max.
Qed.

Lemma slice_cols_from_skipn (k : nat) (value : matrix) :
  slice_cols_from (Z.of_nat k) value = map (skipn k) value.
Proof.
  unfold slice_cols_from. apply map_ext. intros row. unfold slice_from.
  destruct (Z.ltb_spec (Z.of_nat k) 0) as [Hlt|_]; [lia|].
  now rewrite Nat2Z.id.
Qed.

(** When every chain holds a sample, the matrix is cut at the largest of the
    chains' first present columns. *)
Lemma trim_spec (value : matrix) :
  value <> [] ->
  Forall (fun row => first_present row <> None) value ->
  starting_col value = Z.of_nat (list_max (map first_present_col value))
  /\ trim value = map (skipn (list_max (map first_present_col value))) value.
Proof.
  intros Hne Hall.
  assert (Hstart : starting_col value
                   = Z.of_nat (list_max (map first_present_col value))).
  { unfold starting_col. rewrite (first_non_nans_all_present Hall).
    destruct value as [|row value]; [congruence|].
    cbn [map]. now rewrite py_max_list_max. }
  split; [exact Hstart|].
  unfold trim. rewrite Hstart.
  destruct (Z.eqb_spec (Z.of_nat (list_max (map first_present_col value))) 0)
    as [E|_].
  - replace (list_max (map first_present_col value)) with 0 by lia.
    symmetry. erewrite map_ext; [apply map_id|]. intros row. reflexivity.
  - apply slice_cols_from_skipn.
Qed.

(** ** Forward fill *)




Lemma set_nth_app_head {A : Type} (pre post : list A) (a b : A) :
  set_nth (length pre) b (pre ++ a :: post) = pre ++ b :: post.
Proof.
  induction pre as [|c pre IH]; simpl; [reflexivity | now rewrite IH].
Qed.

Lemma fill_missing_rows (post pre : matrix) :
  Forall (fun row => row <> []) post ->
  foldM (fun v chain_idx =>
           match nth_error v chain_idx with
           | None => Raise IndexError
           | Some row => row' <- fill_chain row ;; Ok (set_nth chain_idx row' v)
           end)
        (seq (length pre) (length post)) (pre ++ post)
  = Ok (pre ++ map filled_row post).
Proof.
  intros H; revert pre.
  induction H as [|row post Hrow _ IH]; intros pre.
  - reflexivity.
  - simpl length. cbn [seq foldM].
    rewrite nth_error_app2 by lia. rewrite Nat.sub_diag. cbn [nth_error].
    destruct row as [|v0 row]; [congruence|].
    cbn [fill_chain bind]. rewrite set_nth_app_head.
    specialize (IH (pre ++ [fill_from v0 (v0 :: row)])).
    rewrite length_app, Nat.add_1_r, <- app_assoc in IH.
    cbn [app] in IH. rewrite IH, <- app_assoc. reflexivity.
Qed.

(** On a matrix with one row per chain and at least one column, the fill
    raises nothing and fills every chain. *)
Lemma fill_missing_spec (value : matrix) :
  Forall (fun row => row <> []) value ->
  fill_missing (length value) value = Ok (map filled_row value).
Proof.
  intros H. unfold fill_missing. exact (fill_missing_rows [] H).
Qed.

Lemma entry_map (f : list npfloat -> list npfloat) (x : matrix) (r c : nat) :
  entry (map f x) r c
  = match nth_error x r with
    | Some row => nth_error (f row) c
    | None => None
    end.
Proof.
  unfold entry. rewrite nth_error_map. now destruct (nth_error x r).
Qed.

Lemma row_no_nan (row : list npfloat) :
  (forall j v, nth_error row j = Some v -> isnan v = false) ->
  Forall (fun v => isnan v = false) row.
Proof.
  intros H. apply Forall_forall. intros v Hv.
  apply In_nth_error in Hv as [j Hj]. eauto.
Qed.



(** ** The correlation coefficient of finite vectors *)

Lemma sum_products_cons (x y : R) (xs ys : list R) :
  sum_products (x :: xs) (y :: ys) = (x * y + sum_products xs ys)%R.
Proof. reflexivity. Qed.

Lemma quadratic_of_sums (xs ys : list R) (t : R) :
  length xs = length ys ->
  Rsum (map (fun p => Rsqr (fst p * t - snd p)) (combine xs ys))
  = (t * t * sum_products xs xs - 2 * t * sum_products xs ys
     + sum_products ys ys)%R.
Proof.
  revert ys; induction xs as [|x xs IH]; intros [|y ys] Hlen;
    try discriminate.
  - unfold sum_products. simpl. ring.
  - injection Hlen as Hlen. rewrite !sum_products_cons.
    cbn [combine map Rsum fold_right fst snd].
    change (fold_right Rplus 0%R
              (map (fun p => Rsqr (fst p * t - snd p)) (combine xs ys)))
      with (Rsum (map (fun p => Rsqr (fst p * t - snd p)) (combine xs ys))).
    rewrite (IH ys Hlen). unfold Rsqr. ring.
Qed.

Lemma sum_products_self_nonneg (xs : list R) : (0 <= sum_products xs xs)%R.
Proof.
  induction xs as [|x xs IH].
  - unfold sum_products. simpl. lra.
  - rewrite sum_products_cons. nra.
Qed.

(** Cauchy-Schwarz, for a first vector that is not null. *)
Lemma sum_products_square_le (xs ys : list R) :
  length xs = length ys ->
  (0 < sum_products xs xs)%R ->
  (sum_products xs ys * sum_products xs ys
   <= sum_products xs xs * sum_products ys ys)%R.
Proof.
  intros Hlen Hxx.
  set (sxx := sum_products xs xs) in *.
  set (sxy := sum_products xs ys).
  set (syy := sum_products ys ys).
  pose proof (quadratic_of_sums xs ys (sxy / sxx) Hlen) as Hq.
  fold sxx sxy syy in Hq.
  assert (Hpos : (0 <= (sxy / sxx) * (sxy / sxx) * sxx
                       - 2 * (sxy / sxx) * sxy + syy)%R).
  { rewrite <- Hq.
    apply (Rsum_squares_nonneg (fun p => (fst p * (sxy / sxx) - snd p)%R)). }
  replace ((sxy / sxx) * (sxy / sxx) * sxx - 2 * (sxy / sxx) * sxy + syy)%R
    with (syy - sxy * sxy / sxx)%R in Hpos by (field; lra).
  assert (Hdiv : (sxy * sxy / sxx <= syy)%R) by lra.
  apply (Rmult_le_compat_r sxx) in Hdiv; [|lra].
  replace (sxy * sxy / sxx * sxx)%R with (sxy * sxy)%R in Hdiv by (field; lra).
  lra.
Qed.

Lemma pearson_bounds (a b : list R) :
  length a = length b ->
  sum_products (deviations a) (deviations a) <> 0%R ->
  sum_products (deviations b) (deviations b) <> 0%R ->
  (-1 <= pearson a b <= 1)%R.
Proof.
  intros Hlen Ha Hb. unfold pearson.
  set (da := deviations a) in *. set (db := deviations b) in *.
  pose proof (sum_products_self_nonneg da) as Ha0.
  pose proof (sum_products_self_nonneg db) as Hb0.
  assert (Hlen' : length da = length db).
  { unfold da, db, deviations. now rewrite !length_map. }
  pose proof (sum_products_square_le da db Hlen' ltac:(lra)) as Hcs.
  set (saa := sum_products da da) in *. set (sbb := sum_products db db) in *.
  set (sab := sum_products da db) in *.
  assert (Hprod : (0 < saa * sbb)%R) by (apply Rmult_lt_0_compat; lra).
  pose proof (sqrt_lt_R0 _ Hprod) as Hs.
  pose proof (sqrt_sqrt (saa * sbb) (Rlt_le _ _ Hprod)) as Hss.
  set (s := sqrt (saa * sbb)) in *.
  assert (Hbound : (- s <= sab <= s)%R) by nra.
  split.
  - apply (Rmult_le_reg_r s); [exact Hs|]. unfold Rdiv.
    rewrite Rmult_assoc, Rinv_l by lra. lra.
  - apply (Rmult_le_reg_r s); [exact Hs|]. unfold Rdiv.
    rewrite Rmult_assoc, Rinv_l by lra. lra.
Qed.

Lemma map_products_Fin (a b : list R) (ca cb : R) :
  map (fun xy => np_mul (np_sub (fst xy) (Fin ca)) (np_sub (snd xy) (Fin cb)))
      (combine (map Fin a) (map Fin b))
  = map Fin (map (fun p => (fst p * snd p)%R)
                 (combine (map (fun v => (v - ca)%R) a)
                          (map (fun v => (v - cb)%R) b))).
Proof.
  revert b; induction a as [|x a IH]; intros [|y b]; try reflexivity.
  cbn [map combine fst snd]. rewrite IH. reflexivity.
Qed.

Lemma np_cov_Fin (a b : list R) :
  a <> [] -> b <> [] -> (2 <= length a)%nat ->
  np_cov (map Fin a) (map Fin b)
  = Fin (sum_products (deviations a) (deviations b) / (INR (length a) - 1)).
Proof.
  intros Ha Hb Hlen. unfold np_cov.
  rewrite (np_mean_Fin Ha), (np_mean_Fin Hb), map_products_Fin, np_sum_Fin.
  rewrite length_map. destruct (Nat.leb_spec (length a) 1) as [Hle|_]; [lia|].
  cbn zeta. unfold np_div.
  apply le_INR in Hlen. simpl in Hlen.
  destruct (Req_dec_T (INR (length a) - 1) 0) as [E|_]; [lra|]. reflexivity.
Qed.

(** On finite vectors of one length, two entries or more and neither of
    them constant, NumPy's coefficient is Pearson's: the clip to [-1, 1]
    leaves it alone. *)
Lemma np_corrcoef01_pearson (a b : list R) :
  length a = length b -> (2 <= length a)%nat ->
  sum_products (deviations a) (deviations a) <> 0%R ->
  sum_products (deviations b) (deviations b) <> 0%R ->
  np_corrcoef01 (map Fin a) (map Fin b) = Fin (pearson a b).
Proof.
  intros Hlen H2 Ha Hb.
  assert (Hane : a <> []) by (intros ->; simpl in H2; lia).
  assert (Hbne : b <> []) by (intros ->; simpl in Hlen; rewrite Hlen in H2; simpl in H2; lia).
  pose proof (pearson_bounds a b Hlen Ha Hb) as Hbounds.
  unfold np_corrcoef01.
  rewrite (np_cov_Fin Hane Hbne H2), (np_cov_Fin Hane Hane H2).
  rewrite (np_cov_Fin Hbne Hbne ltac:(lia)), <- Hlen.
  unfold pearson in *.
  set (saa := sum_products (deviations a) (deviations a)) in *.
  set (sbb := sum_products (deviations b) (deviations b)) in *.
  set (sab := sum_products (deviations a) (deviations b)) in *.
  pose proof (sum_products_self_nonneg (deviations a)) as Ha0. fold saa in Ha0.
  pose proof (sum_products_self_nonneg (deviations b)) as Hb0. fold sbb in Hb0.
  apply le_INR in H2. simpl in H2.
  set (c := (INR (length a) - 1)%R) in *.
  assert (Hc : (0 < c)%R) by (unfold c; lra).
  assert (Hsc : (0 < sqrt c)%R) by now apply sqrt_lt_R0.
  assert (Hsa : (0 < sqrt saa)%R) by (apply sqrt_lt_R0; lra).
  assert (Hsb : (0 < sqrt sbb)%R) by (apply sqrt_lt_R0; lra).
  assert (Hqa : (0 <= saa / c)%R).
  { apply Rmult_le_pos; [lra|]. left. now apply Rinv_0_lt_compat. }
  assert (Hqb : (0 <= sbb / c)%R).
  { apply Rmult_le_pos; [lra|]. left. now apply Rinv_0_lt_compat. }
  unfold np_sqrt.
  destruct (Rlt_dec (saa / c) 0) as [E|_]; [lra|].
  destruct (Rlt_dec (sbb / c) 0) as [E|_]; [lra|].
  rewrite !sqrt_div_alt by assumption.
  assert (Hda : (sqrt saa / sqrt c <> 0)%R).
  { apply Rgt_not_eq. apply Rmult_lt_0_compat; [lra|]. now apply Rinv_0_lt_compat. }
  assert (Hdb : (sqrt sbb / sqrt c <> 0)%R).
  { apply Rgt_not_eq. apply Rmult_lt_0_compat; [lra|]. now apply Rinv_0_lt_compat. }
  unfold np_div.
  destruct (Req_dec_T (sqrt saa / sqrt c) 0) as [E|_]; [contradiction|].
  destruct (Req_dec_T (sqrt sbb / sqrt c) 0) as [E|_]; [contradiction|].
  assert (Hval : (sab / c / (sqrt saa / sqrt c) / (sqrt sbb / sqrt c)
                  = sab / sqrt (saa * sbb))%R).
  { rewrite sqrt_mult by lra.
    pose proof (sqrt_sqrt c (Rlt_le _ _ Hc)) as Hcc.
    rewrite <- Hcc at 1. field. repeat split; lra. }
  rewrite Hval. unfold np_clip.
  destruct (Rlt_dec _ (-1)) as [E|_]; [lra|].
  destruct (Rlt_dec 1 _) as [E|_]; [lra|]. reflexivity.
Qed.

(** ** autocorrelation *)

Lemma slice_from_pos {A : Type} (k : Z) (l : list A) :
  (0 <= k)%Z -> slice_from k l = skipn (Z.to_nat k) l.
Proof.
  intros Hk. unfold slice_from.
  destruct (Z.ltb_spec k 0) as [Hlt|_]; [lia | reflexivity].
Qed.

Lemma slice_to_neg {A : Type} (k : Z) (l : list A) :
  (0 < k)%Z -> slice_to (- k) l = firstn (length l - Z.to_nat k) l.
Proof.
  intros Hk. unfold slice_to.
  destruct (Z.ltb_spec (- k) 0) as [_|Hge]; [|lia].
  f_equal. lia.
Qed.

(** C2.  At a lag equal to 0 the autocorrelation is exactly 1.0, and at a
    lag [k] with [0 < k < length values] it is the correlation coefficient
    (NumPy's [corrcoef]) of the values shifted by [k], [values[k:]], and the
    unshifted values cut to the same length, [values[:-k]].  When these two
    windows are finite, hold two samples or more and are not constant, that
    coefficient is Pearson's [S_ab / sqrt (S_aa * S_bb)], a real between -1
    and 1. *)
Theorem autocorrelation_lags (values : list npfloat) (lags : list Z)
  (i : nat) (k : Z) :
  nth_error lags i = Some k ->
  (k = 0%Z -> nth_error (autocorrelation values lags) i = Some (Fin 1))
  /\ ((0 < k < Z.of_nat (length values))%Z ->
      let shifted := skipn (Z.to_nat k) values in
      let unshifted := firstn (length values - Z.to_nat k) values in
      length shifted = length unshifted
      /\ nth_error (autocorrelation values lags) i
         = Some (np_corrcoef01 shifted unshifted)
      /\ forall a b : list R,
           shifted = map Fin a -> unshifted = map Fin b ->
           (2 <= length a)%nat ->
           sum_products (deviations a) (deviations a) <> 0%R ->
           sum_products (deviations b) (deviations b) <> 0%R ->
           np_corrcoef01 shifted unshifted = Fin (pearson a b)
           /\ (-1 <= pearson a b <= 1)%R).
Proof.
  intros Hi. unfold autocorrelation. rewrite nth_error_map, Hi. simpl.
  split.
  - intros ->. reflexivity.
  - intros Hk.
    assert (Hlen : length (skipn (Z.to_nat k) values)
                   = length (firstn (length values - Z.to_nat k) values)).
    { rewrite length_skipn, length_firstn. lia. }
    split; [exact Hlen|]. split.
    + destruct (Z.eqb_spec k 0) as [E|_]; [lia|].
      rewrite slice_from_pos by lia. rewrite slice_to_neg by lia. reflexivity.
    + intros a b Ha Hb H2 Hsa Hsb.
      rewrite Ha, Hb in Hlen. rewrite !length_map in Hlen.
      rewrite Ha, Hb. split.
      * now apply np_corrcoef01_pearson.
      * now apply pearson_bounds.
Qed.

(** ** graph *)

Lemma fold_left_append_map {A B : Type} (f : A -> B) (l : list A) (acc : list B) :
  fold_left (fun w a => w ++ [f a]) l acc = acc ++ map f l.
Proof.
  revert acc; induction l as [|a l IH]; intros acc; simpl.
  - now rewrite app_nil_r.
  - rewrite IH, <- app_assoc. reflexivity.
Qed.

(** C10.  The distribution named Unique trace ID has the identifiers
    [0 .. K-1] as values and the same identifiers as weights, so identifier
    [i] weighs [i]; the occurrence counts gathered in [trace_weights] are not
    its weights (they differ already for one trace type seen five times).
    The distribution named Address ID is weighted by the occurrence counts of
    the addresses. *)
Theorem graph_trace_ids_weighted_by_id (address_stats trace_stats : list (string * stat)) :
  let d := graph_id_dists address_stats trace_stats in
  emp_name (trace_id_dist d) = "Unique trace ID"%string
  /\ emp_values (trace_id_dist d) = map Z.of_nat (seq 0 (length trace_stats))
  /\ emp_weights (trace_id_dist d) = map Z.of_nat (seq 0 (length trace_stats))
  /\ (forall i, i < length trace_stats ->
                nth_error (emp_weights (trace_id_dist d)) i = Some (Z.of_nat i))
  /\ trace_weights d = map (fun kv => count (snd kv)) trace_stats
  /\ emp_weights (trace_id_dist (graph_id_dists [] [("t"%string, {| count := 5 |})]))
     <> trace_weights (graph_id_dists [] [("t"%string, {| count := 5 |})])
  /\ emp_name (address_id_dist d) = "Address ID"%string
  /\ emp_values (address_id_dist d) = map Z.of_nat (seq 0 (length address_stats))
  /\ emp_weights (address_id_dist d) = map (fun kv => count (snd kv)) address_stats.
Proof.
  cbn zeta. unfold graph_id_dists. cbn [trace_id_dist address_id_dist trace_weights
    emp_name emp_values emp_weights].
  rewrite !fold_left_append_map. cbn [app].
  repeat split; try reflexivity.
  - intros i Hi. rewrite nth_error_map.
    rewrite (nth_error_nth' (seq 0 (length trace_stats)) 0)
      by (now rewrite length_seq).
    rewrite seq_nth by assumption. reflexivity.
  - cbn. discriminate.
Qed.

(** ** Too few chains *)

(** C4 fails on the code.  With no chain at all the first statement of
    [gelman_rubin], [trace_dists[0].length], raises an IndexError; and a
    single chain none of whose variables qualifies (here every named variable
    is controlled) goes through without any error, with an empty result. *)
Theorem gelman_rubin_too_few_chains (unique_logspace_ints : R -> list Z)
  (names : option (list string)) (n_most_frequent : option Z) :
  gelman_rubin unique_logspace_ints [] names n_most_frequent = Raise IndexError
  /\ gelman_rubin unique_logspace_ints [mcmc_chain] None None
     = Ok (unique_logspace_ints 2%R, []).
Proof.
  split; reflexivity.
Qed.

(** A single chain with a variable that qualifies does end in a ValueError,
    the one of the unpacking [r, c = x] of a one-dimensional [np.where]. *)
Lemma gelman_rubin_single_chain_unpack (unique_logspace_ints : R -> list Z) :
  gelman_rubin unique_logspace_ints
    [PyEmpirical
       [PyTrace
          {| named_variables :=
               [("x"%string,
                 {| address := "addr_x"; value := [Fin 1];
                    control := false; observed := false |})];
             variables_controlled := [];
             variables_dict_address := [];
             trace_log_prob := Fin 0;
             trace_length := 1 |}]]
    None None
  = Raise ValueError.
Proof. reflexivity. Qed.

(** ** Type validation *)

(** [log_prob] rejects whatever is not a list. *)
Lemma log_prob_not_list (print_refresh_rate : R) (duration : nat -> Z -> R)
  (trace_dists : pyobj) (resolution : Z) :
  (forall dists, trace_dists <> PyList dists) ->
  log_prob print_refresh_rate duration trace_dists resolution = Raise TypeError.
Proof.
  intros H. destruct trace_dists; try reflexivity.
  exfalso. now apply (H items).
Qed.

(** [log_prob] rejects a list whose first distribution does not start with a
    trace. *)
Lemma log_prob_not_traces (print_refresh_rate : R) (duration : nat -> Z -> R)
  (e : pyobj) (values rest : list pyobj) (resolution : Z) :
  is_Trace e = false ->
  log_prob print_refresh_rate duration
    (PyList (PyEmpirical (e :: values) :: rest)) resolution
  = Raise TypeError.
Proof.
  intros He. unfold log_prob. cbn [foldM getitem py_index length Z.of_nat Z.ltb
    Z.compare Z.to_nat nth_error bind].
  rewrite He. reflexivity.
Qed.

Lemma autocorrelations_not_Empirical (unique_logspace_ints : R -> list Z)
  (trace_dist : pyobj) (names : option (list string)) (lags : option (list Z))
  (n_most_frequent : option Z) :
  is_Empirical trace_dist = false ->
  autocorrelations unique_logspace_ints trace_dist names lags n_most_frequent
  = Raise TypeError.
Proof.
  intros H. unfold autocorrelations. now rewrite H.
Qed.

Lemma autocorrelations_not_traces (unique_logspace_ints : R -> list Z)
  (e : pyobj) (values : list pyobj) (names : option (list string))
  (lags : option (list Z)) (n_most_frequent : option Z) :
  is_Trace e = false ->
  autocorrelations unique_logspace_ints (PyEmpirical (e :: values)) names lags
    n_most_frequent
  = Raise TypeError.
Proof.
  intros H. unfold autocorrelations. cbn. now rewrite H.
Qed.

Lemma single_trace_dist_values_not_Empirical (trace_dist_length : Z)
  (names : option (list string)) (n_most_frequent : option Z) (trace_dist : pyobj) :
  is_Empirical trace_dist = false ->
  single_trace_dist_values trace_dist_length names n_most_frequent trace_dist
  = Raise TypeError.
Proof.
  intros H. unfold single_trace_dist_values. now rewrite H.
Qed.

Lemma single_trace_dist_values_not_traces (trace_dist_length : Z)
  (names : option (list string)) (n_most_frequent : option Z)
  (e : pyobj) (values : list pyobj) :
  is_Trace e = false ->
  single_trace_dist_values trace_dist_length names n_most_frequent
    (PyEmpirical (e :: values))
  = Raise TypeError.
Proof.
  intros H. unfold single_trace_dist_values. cbn. now rewrite H.
Qed.

(** [gelman_rubin] rejects a chain that is not a distribution of traces when
    it comes second, after a chain that was read without error. *)
Lemma gelman_rubin_second_chain_rejected (unique_logspace_ints : R -> list Z)
  (first bad : pyobj) (rest : list pyobj) (names : option (list string))
  (n_most_frequent : option Z) (len : Z)
  (d : list (key * list npfloat)) (vv : list (key * ndarray)) :
  attr_length first = Ok len ->
  single_trace_dist_values len names n_most_frequent first = Ok d ->
  merge_dicts [] d = Ok vv ->
  single_trace_dist_values len names n_most_frequent bad = Raise TypeError ->
  gelman_rubin unique_logspace_ints (first :: bad :: rest) names n_most_frequent
  = Raise TypeError.
Proof.
  intros Hlen Hfirst Hmerge Hbad. unfold gelman_rubin.
  cbn [py_index length Z.of_nat Z.ltb Z.compare Z.to_nat nth_error bind].
  rewrite Hlen. cbn [bind foldM]. rewrite Hfirst. cbn [bind].
  rewrite Hmerge. cbn [bind]. rewrite Hbad. reflexivity.
Qed.

(** C7 fails on the code for [gelman_rubin].  When the first chain is not a
    distribution (here an integer), [trace_dists[0].length] is read before
    any type check and the failure is an AttributeError, not a TypeError. *)
Theorem gelman_rubin_first_chain_not_checked (unique_logspace_ints : R -> list Z)
  (names : option (list string)) (n_most_frequent : option Z) :
  is_Empirical (PyInt 0) = false
  /\ gelman_rubin unique_logspace_ints [PyInt 0; mcmc_chain] names n_most_frequent
     = Raise AttributeError.
Proof.
  split; reflexivity.
Qed.

(** ** No variable selected *)

(** C8.  For a distribution that passes the type checks (its first element
    is a trace), a selection phase that ends with no variable makes
    [autocorrelations] fail with a RuntimeError; no value is loaded and no
    autocorrelation computed. *)
Theorem autocorrelations_no_variable (unique_logspace_ints : R -> list Z)
  (t : Trace) (values : list pyobj) (names : option (list string))
  (lags : option (list Z)) (n_most_frequent : option Z) :
  let trace_dist := PyEmpirical (PyTrace t :: values) in
  select_variables trace_dist (Z.of_nat (length (PyTrace t :: values)))
    names n_most_frequent = Ok [] ->
  autocorrelations unique_logspace_ints trace_dist names lags n_most_frequent
  = Raise RuntimeError.
Proof.
  intros trace_dist Hsel. unfold autocorrelations.
  cbn [trace_dist is_Empirical negb getitem py_index Z.ltb Z.compare Z.to_nat
       nth_error bind is_Trace attr_length].
  fold trace_dist. rewrite Hsel. reflexivity.
Qed.

(** ** Which variables enter the R-hat computation *)

Lemma foldM_invariant {A S : Type} (P : S -> Prop) (f : S -> A -> result S)
  (l : list A) (s s' : S) :
  P s ->
  (forall s1 a s2, In a l -> P s1 -> f s1 a = Ok s2 -> P s2) ->
  foldM f l s = Ok s' -> P s'.
Proof.
  revert s; induction l as [|a l IH]; intros s Hs Hstep H; simpl in H.
  - inversion H; now subst.
  - destruct (f s a) as [s1|e] eqn:Hf; [|discriminate]. cbn [bind] in H.
    apply (IH s1).
    + apply (Hstep s a s1); [now left | assumption | assumption].
    + intros s2 b s3 Hb. apply Hstep. now right.
    + exact H.
Qed.

Lemma dict_set_keys {K V : Type} (eqb : K -> K -> bool) (d : list (K * V))
  (k0 : K) (v0 : V) (k : K) :
  In k (map fst (dict_set eqb d k0 v0)) -> In k (map fst d) \/ k = k0.
Proof.
  induction d as [|[k' v'] d IH]; simpl.
  - intros [<-|[]]. now right.
  - destruct (eqb k' k0); simpl.
    + intros H. now left.
    + intros [<-|H]; [left; now left|].
      destruct (IH H) as [Hd| ->]; [left; now right | now right].
Qed.

Lemma select_in_trace_keys (names : option (list string)) (len : Z) (i : nat)
  (o : pyobj) (vv vv' : list (key * list npfloat)) :
  select_in_trace names len i o vv = Ok vv' ->
  forall k, In k (map fst vv') -> In k (map fst vv) \/ admitted o k.
Proof.
  unfold select_in_trace. intros H.
  destruct (match names with
            | Some l => Ok l
            | None => trace <- attr_trace o ;; Ok (map fst (named_variables trace))
            end) as [name_list|e]; [|discriminate].
  cbn [bind] in H. revert H.
  apply (foldM_invariant
           (fun s => forall k, In k (map fst s) -> In k (map fst vv) \/ admitted o k));
    [intros k Hk; now left|].
  intros s1 name s2 _ IH Hstep k Hk.
  destruct o as [| | |trace|]; try discriminate. cbn [attr_trace bind] in Hstep.
  destruct (dict_get String.eqb (named_variables trace) name) as [variable|] eqn:Hget;
    [|inversion Hstep; subst; now apply IH].
  destruct (negb (control variable) && (nelement (value variable) =? 1)%Z) eqn:Hcond;
    [|inversion Hstep; subst; now apply IH].
  apply andb_true_iff in Hcond as [Hctl Hone].
  apply negb_true_iff in Hctl. apply Z.eqb_eq in Hone.
  set (k0 := (address variable, Some name)) in *.
  assert (Hk0 : admitted (PyTrace trace) k0).
  { exists trace, name, variable. repeat split; assumption. }
  destruct (py_float (value variable)) as [a|e]; [|discriminate].
  cbn [bind] in Hstep.
  set (vv1 := if dict_mem key_eqb s1 k0 then s1
              else dict_set key_eqb s1 k0 (nan_vector len)) in *.
  assert (Hvv1 : forall k', In k' (map fst vv1) -> In k' (map fst s1) \/ k' = k0).
  { intros k' Hk'. unfold vv1 in Hk'. destruct (dict_mem key_eqb s1 k0).
    - now left.
    - now apply dict_set_keys in Hk'. }
  destruct (dict_get key_eqb vv1 k0) as [values|]; [|discriminate].
  destruct (vec_set i a values) as [values'|e]; [|discriminate].
  cbn [bind] in Hstep. inversion Hstep; subst s2.
  apply dict_set_keys in Hk as [Hk| ->]; [|now right].
  destruct (Hvv1 k Hk) as [Hs1| ->]; [now apply IH | now right].
Qed.

Lemma select_named_keys (names : option (list string)) (trace_dist : pyobj)
  (num_traces : Z) (vv : list (key * list npfloat)) :
  select_named names trace_dist num_traces = Ok vv ->
  forall k, In k (map fst vv) -> admitted_in_chain trace_dist k.
Proof.
  unfold select_named.
  apply (foldM_invariant
           (fun s => forall k, In k (map fst s) -> admitted_in_chain trace_dist k));
    [intros k []|].
  intros s1 i s2 _ IH Hstep k Hk.
  destruct (get_value trace_dist i) as [o|e] eqn:Hget; [|discriminate].
  cbn [bind] in Hstep.
  destruct (select_in_trace_keys _ _ _ _ _ Hstep k Hk) as [Hs1|Hadm].
  - now apply IH.
  - now exists i, o.
Qed.

Lemma insert_desc_In {A : Type} (cmp : A -> A -> result comparison) (a : A)
  (l l' : list A) :
  insert_desc cmp a l = Ok l' -> forall x, In x l' <-> x = a \/ In x l.
Proof.
  revert l'; induction l as [|b l IH]; intros l' H x; simpl in H.
  - inversion H; subst. simpl. intuition.
  - destruct (cmp a b) as [c|e]; [|discriminate]. cbn [bind] in H.
    destruct c.
    + inversion H; subst. simpl. intuition.
    + destruct (insert_desc cmp a l) as [rest|e]; [|discriminate].
      cbn [bind] in H. inversion H; subst. simpl.
      rewrite (IH rest eq_refl x). intuition.
    + inversion H; subst. simpl. intuition.
Qed.

Lemma sorted_desc_In {A : Type} (cmp : A -> A -> result comparison)
  (l l' : list A) :
  sorted_desc cmp l = Ok l' -> forall x, In x l' <-> In x l.
Proof.
  revert l'; induction l as [|a l IH]; intros l' H x; simpl in H.
  - inversion H; subst. reflexivity.
  - destruct (sorted_desc cmp l) as [s|e]; [|discriminate]. cbn [bind] in H.
    rewrite (insert_desc_In _ _ _ H x), (IH s eq_refl x). simpl. intuition.
Qed.

Lemma sorted_items_keys {V : Type} (d d' : list (key * V)) :
  sorted_items d = Ok d' -> forall k, In k (map fst d') -> In k (map fst d).
Proof.
  intros H k Hk. apply in_map_iff in Hk as (kv & <- & Hkv).
  apply in_map. now apply (sorted_desc_In _ _ H).
Qed.

(** Without [n_most_frequent], a chain contributes admitted keys only. *)
Lemma single_trace_dist_values_keys (trace_dist_length : Z)
  (names : option (list string)) (trace_dist : pyobj)
  (vv : list (key * list npfloat)) :
  single_trace_dist_values trace_dist_length names None trace_dist = Ok vv ->
  forall k, In k (map fst vv) -> admitted_in_chain trace_dist k.
Proof.
  unfold single_trace_dist_values. intros H k Hk.
  destruct (negb (is_Empirical trace_dist)); [discriminate|].
  destruct (getitem trace_dist 0) as [first|e]; [|discriminate].
  cbn [bind] in H. destruct (negb (is_Trace first)); [discriminate|].
  destruct (attr_length trace_dist) as [num_traces|e]; [|discriminate].
  cbn [bind] in H.
  destruct (negb (num_traces =? trace_dist_length)%Z); [discriminate|].
  destruct (select_named names trace_dist num_traces) as [vv0|e] eqn:Hsel;
    [|discriminate].
  cbn [bind] in H.
  apply (select_named_keys _ _ _ Hsel). now apply (sorted_items_keys _ H).
Qed.

Lemma merge_dicts_keys (d1 : list (key * ndarray)) (d2 : list (key * list npfloat))
  (d : list (key * ndarray)) :
  merge_dicts d1 d2 = Ok d ->
  forall k, In k (map fst d) -> In k (map fst d1) \/ In k (map fst d2).
Proof.
  unfold merge_dicts.
  apply (foldM_invariant
           (fun s => forall k, In k (map fst s) ->
                               In k (map fst d1) \/ In k (map fst d2)));
    [intros k Hk; now left|].
  intros s1 kv s2 Hkv IH Hstep k Hk.
  assert (Hset : forall a, In k (map fst (dict_set key_eqb s1 (fst kv) a)) ->
                           In k (map fst d1) \/ In k (map fst d2)).
  { intros a Ha. apply dict_set_keys in Ha as [Hs1| ->]; [now apply IH|].
    right. now apply in_map. }
  destruct (dict_get key_eqb s1 (fst kv)) as [a|].
  - destruct (vstack a (snd kv)) as [a'|e]; [|discriminate].
    cbn [bind] in Hstep. inversion Hstep; subst s2. now apply (Hset a').
  - inversion Hstep; subst s2. now apply (Hset (Arr1 (snd kv))).
Qed.

Lemma mapM_keys {K A B : Type} (g : A -> result B) (l : list (K * A))
  (l' : list (K * B)) :
  mapM (fun kv => b <- g (snd kv) ;; Ok (fst kv, b)) l = Ok l' ->
  map fst l' = map fst l.
Proof.
  revert l'; induction l as [|kv l IH]; intros l' H; simpl in H.
  - inversion H; now subst.
  - destruct (g (snd kv)) as [b|e]; [|discriminate]. cbn [bind] in H.
    destruct (mapM _ l) as [bs|e]; [|discriminate]. cbn [bind] in H.
    inversion H; subst. simpl. now rewrite (IH bs eq_refl).
Qed.

Lemma rhats_keys {A B : Type} (h : A -> result B) (l : list (key * A))
  (d : list (string * B)) :
  foldM (fun d kv => r <- h (snd kv) ;; Ok (dict_set String.eqb d (fst (fst kv)) r))
        l [] = Ok d ->
  forall a, In a (map fst d) -> exists k, In k (map fst l) /\ fst k = a.
Proof.
  apply (foldM_invariant
           (fun s => forall a, In a (map fst s) ->
                               exists k, In k (map fst l) /\ fst k = a));
    [intros a []|].
  intros s1 kv s2 Hkv IH Hstep a Ha.
  destruct (h (snd kv)) as [r|e]; [|discriminate]. cbn [bind] in Hstep.
  inversion Hstep; subst s2.
  apply dict_set_keys in Ha as [Hs1| ->]; [now apply IH|].
  exists (fst kv). split; [now apply in_map | reflexivity].
Qed.

(** The keys gathered over the chains all come from admitted variables. *)
Lemma gathered_keys (trace_dist_length : Z) (names : option (list string))
  (trace_dists : list pyobj) (vv : list (key * ndarray)) :
  foldM (fun vv trace =>
           d <- single_trace_dist_values trace_dist_length names None trace ;;
           merge_dicts vv d)
        trace_dists [] = Ok vv ->
  forall k, In k (map fst vv) ->
            exists chain, In chain trace_dists /\ admitted_in_chain chain k.
Proof.
  apply (foldM_invariant
           (fun s => forall k, In k (map fst s) ->
                               exists chain, In chain trace_dists
                                             /\ admitted_in_chain chain k));
    [intros k []|].
  intros s1 chain s2 Hchain IH Hstep k Hk.
  destruct (single_trace_dist_values trace_dist_length names None chain)
    as [d|e] eqn:Hd; [|discriminate].
  cbn [bind] in Hstep.
  destruct (merge_dicts_keys _ _ Hstep k Hk) as [Hs1|Hd2]; [now apply IH|].
  exists chain. split; [assumption|].
  now apply (single_trace_dist_values_keys _ _ _ Hd).
Qed.

(** Every address with an R-hat belongs to an admitted variable. *)
Lemma gelman_rubin_addresses (unique_logspace_ints : R -> list Z)
  (trace_dists : list pyobj) (names : option (list string))
  (iters : list Z) (variable_rhats : list (string * list npfloat)) :
  gelman_rubin unique_logspace_ints trace_dists names None
  = Ok (iters, variable_rhats) ->
  forall a, In a (map fst variable_rhats) ->
            exists chain k, In chain trace_dists
                            /\ admitted_in_chain chain k /\ fst k = a.
Proof.
  unfold gelman_rubin. intros H a Ha.
  destruct (py_index trace_dists 0) as [first|e]; [|discriminate].
  cbn [bind] in H.
  destruct (attr_length first) as [len|e]; [|discriminate]. cbn [bind] in H.
  destruct (foldM _ trace_dists []) as [vv|e] eqn:Hvv; [|discriminate].
  cbn [bind] in H.
  destruct (py_index trace_dists (-1)) as [last|e]; [|discriminate].
  cbn [bind] in H.
  destruct (attr_length last) as [last_length|e]; [|discriminate].
  cbn [bind] in H.
  destruct (mapM _ (filter _ vv)) as [prepared|e] eqn:Hprep; [|discriminate].
  cbn [bind] in H.
  match type of H with
  | context [foldM ?f prepared ?s] =>
      destruct (foldM f prepared s) as [rhats|e] eqn:Hrhats; [|discriminate]
  end.
  cbn [bind] in H. inversion H; subst iters variable_rhats.
  destruct (rhats_keys _ _ Hrhats a Ha) as (k & Hk & Hka).
  rewrite (mapM_keys _ _ Hprep) in Hk.
  apply in_map_iff in Hk as (kv & Hkv & Hin). apply filter_In in Hin as [Hin _].
  destruct (gathered_keys _ _ _ Hvv k) as (chain & Hchain & Hadm).
  { rewrite <- Hkv. now apply in_map. }
  exists chain, k. repeat split; assumption.
Qed.

(** ** Which variables [autocorrelations] selects *)

Lemma name_eqb_eq (a b : option string) : name_eqb a b = true -> a = b.
Proof.
  destruct a as [x|], b as [y|]; simpl; try discriminate; [|reflexivity].
  intros H. apply String.eqb_eq in H. now subst.
Qed.

Lemma key_eqb_eq (a b : key) : key_eqb a b = true -> a = b.
Proof.
  destruct a as [a1 a2], b as [b1 b2]. unfold key_eqb. simpl.
  intros H. apply andb_true_iff in H as [H1 H2].
  apply String.eqb_eq in H1. apply name_eqb_eq in H2. now subst.
Qed.





(** ** Worked instances *)

Lemma two_chains_within :
  within_chain_variance 2 [[1; 2]; [3; 5]]%R = (5 / 8)%R.
Proof.
  cbv [within_chain_variance chain_variance chain_mean Rsum map fold_right
       length INR Rsqr]. field.
Qed.

Lemma two_chains_pooled : pooled_variance 2 2 [[1; 2]; [3; 5]]%R = 5%R.
Proof.
  unfold pooled_variance. rewrite two_chains_within.
  cbv [between_chain_variance chain_mean Rsum map fold_right length INR Rsqr].
  field.
Qed.

Lemma two_chains_diagnostic :
  gelman_rubin_diagnostic (finite_matrix [[1; 2]; [3; 5]]%R) None
  = Ok (Fin (sqrt 8)).
Proof.
  rewrite (@gelman_rubin_diagnostic_finite [[1; 2]; [3; 5]]%R 2 2
             eq_refl ltac:(lia) ltac:(lia) ltac:(repeat constructor)).
  rewrite two_chains_within, two_chains_pooled. unfold np_div.
  destruct (Req_dec_T (5 / 8) 0) as [E|_]; [lra|].
  replace (5 / (5 / 8))%R with 8%R by field.
  unfold np_sqrt. destruct (Rlt_dec 8 0) as [E|_]; [lra | reflexivity].
Qed.

(** Two chains [1, 2] and [3, 5]: [W = 5/8], [B = 25/4], [V_hat = 5] and
    the diagnostic is [sqrt 8]. *)
Lemma gelman_rubin_diagnostic_formula_witness :
  gelman_rubin_diagnostic (finite_matrix [[1; 2]; [3; 5]]%R) None
  = Ok (Fin (sqrt 8)).
Proof.
  destruct (@gelman_rubin_diagnostic_formula
              (finite_matrix [[1; 2]; [3; 5]]%R) 2 2
              eq_refl ltac:(lia) eq_refl ltac:(lia))
    as [_ Hfinite].
  destruct (Hfinite [[1; 2]; [3; 5]]%R eq_refl ltac:(repeat constructor))
    as (_ & _ & Hroot).
  rewrite Hroot.
  - rewrite two_chains_within, two_chains_pooled. do 3 f_equal. field.
  - rewrite two_chains_within. lra.
Defined.

(** Chains of length 3 whose variable first shows up at the second
    iteration: cutoff 1 gives NaN, cutoff 3 the diagnostic of both columns. *)
Lemma rhat_nan_up_to_num_missing_witness :
  exists ret,
    rhat 3 (finite_matrix [[1; 2]; [3; 5]]%R) [1; 3]%Z = Ok ret
    /\ nth_error ret 0 = Some NaN
    /\ nth_error ret 1 = Some (Fin (sqrt 8)).
Proof.
  destruct (@rhat_nan_up_to_num_missing 3 (finite_matrix [[1; 2]; [3; 5]]%R)
              [1; 3]%Z ltac:(cbv; discriminate) ltac:(cbv; discriminate))
    as (ret & Hret & _ & Hnth).
  exists ret. split; [exact Hret|]. split.
  - apply (proj1 (Hnth 0 1%Z eq_refl)). cbv. discriminate.
  - destruct (proj2 (Hnth 1 3%Z eq_refl)) as (r & Hr & Hr1); [reflexivity|].
    rewrite Hr1. f_equal.
    change (slice_cols_to (3 - (3 - shape1 (finite_matrix [[1; 2]; [3; 5]]%R)))
              (finite_matrix [[1; 2]; [3; 5]]%R))
      with (finite_matrix [[1; 2]; [3; 5]]%R) in Hr.
    rewrite two_chains_diagnostic in Hr. now inversion Hr.
Defined.

(** Lags 0 and 1 over the values 1, 2, 4, 3: the windows at lag 1 are
    [2, 4, 3] and [1, 2, 4]. *)
Lemma autocorrelation_lags_witness :
  nth_error (autocorrelation [Fin 1; Fin 2; Fin 4; Fin 3] [0; 1]%Z) 0
  = Some (Fin 1)
  /\ nth_error (autocorrelation [Fin 1; Fin 2; Fin 4; Fin 3] [0; 1]%Z) 1
     = Some (Fin (pearson [2; 4; 3]%R [1; 2; 4]%R)).
Proof.
  split.
  - exact (proj1 (@autocorrelation_lags [Fin 1; Fin 2; Fin 4; Fin 3] [0; 1]%Z
                    0 0%Z eq_refl) eq_refl).
  - destruct (proj2 (@autocorrelation_lags [Fin 1; Fin 2; Fin 4; Fin 3]
                       [0; 1]%Z 1 1%Z eq_refl) ltac:(cbn; lia))
      as (_ & Hnth & Hpearson).
    rewrite Hnth. f_equal.
    apply (Hpearson [2; 4; 3]%R [1; 2; 4]%R eq_refl eq_refl); [simpl; lia| |];
      cbv [sum_products deviations chain_mean Rsum map combine fold_right
           length INR fst snd]; lra.
Defined.


(** A distribution whose traces name no variable. *)
Lemma autocorrelations_no_variable_witness :
  autocorrelations (fun _ => [1%Z]) bare_dist None None None = Raise RuntimeError.
Proof.
  exact (@autocorrelations_no_variable (fun _ => [1%Z]) bare_trace [] None None
           None eq_refl).
Defined.

(** One trace type seen five times, two addresses seen three and four
    times. *)
Lemma graph_trace_ids_weighted_by_id_witness :
  emp_weights
    (trace_id_dist
       (graph_id_dists [("a"%string, {| count := 3 |}); ("b"%string, {| count := 4 |})]
                       [("t"%string, {| count := 5 |})]))
  = [0%Z]
  /\ emp_weights
       (address_id_dist
          (graph_id_dists [("a"%string, {| count := 3 |}); ("b"%string, {| count := 4 |})]
                          [("t"%string, {| count := 5 |})]))
     = [3; 4]%Z.
Proof.
  destruct (graph_trace_ids_weighted_by_id
              [("a"%string, {| count := 3 |}); ("b"%string, {| count := 4 |})]
              [("t"%string, {| count := 5 |})])
    as (_ & _ & Hw & _ & _ & _ & _ & _ & Ha).
  split; [exact Hw | exact Ha].
Defined.

(** * Further properties *)

(** ** gelman_rubin_diagnostic: errors *)

(** The diagnostic fails with a ValueError below two chains, whatever [mu]
    is, fails with a ZeroDivisionError on two chains or more without any
    column (Python's own [float(n-1) / float(n)]), and returns a value in
    every other case. *)
Theorem gelman_rubin_diagnostic_errors (x : matrix) (mu : option npfloat) :
  ((shape0 x < 2)%Z -> gelman_rubin_diagnostic x mu = Raise ValueError)
  /\ ((2 <= shape0 x)%Z -> shape1 x = 0%Z ->
      gelman_rubin_diagnostic x mu = Raise ZeroDivisionError)
  /\ ((2 <= shape0 x)%Z -> (1 <= shape1 x)%Z ->
      exists r, gelman_rubin_diagnostic x mu = Ok r).
Proof.
  split; [|split].
  - intros Hm. unfold gelman_rubin_diagnostic.
    destruct (Z.ltb_spec (shape0 x) 2) as [_|Hge]; [reflexivity | lia].
  - intros Hm Hn. unfold gelman_rubin_diagnostic, py_int_div. rewrite Hn.
    destruct (Z.ltb_spec (shape0 x) 2) as [Hlt|_]; [lia|].
    destruct (Z.eqb_spec (shape0 x - 1) 0) as [E|_]; [lia|].
    destruct (Z.eqb_spec (shape0 x) 0) as [E|_]; [lia|].
    reflexivity.
  - apply gelman_rubin_diagnostic_total.
Qed.

Lemma gelman_rubin_diagnostic_errors_witness :
  gelman_rubin_diagnostic [[Fin 1; Fin 2]] None = Raise ValueError
  /\ gelman_rubin_diagnostic [[]; []] None = Raise ZeroDivisionError
  /\ exists r, gelman_rubin_diagnostic [[Fin 1]; [NaN]] None = Ok r.
Proof.
  split; [|split].
  - apply (proj1 (gelman_rubin_diagnostic_errors [[Fin 1; Fin 2]] None)).
    cbv. reflexivity.
  - apply (proj1 (proj2 (gelman_rubin_diagnostic_errors [[]; []] None))).
    + cbv. discriminate.
    + reflexivity.
  - apply (proj2 (proj2 (gelman_rubin_diagnostic_errors [[Fin 1]; [NaN]] None)));
      cbv; discriminate.
Defined.

Lemma Rsum_cons (v : R) (l : list R) : Rsum (v :: l) = (v + Rsum l)%R.
Proof. reflexivity. Qed.

(** ** The forward fill as a whole *)

Lemma find_app {A : Type} (p : A -> bool) (l1 l2 : list A) :
  find p (l1 ++ l2) = match find p l1 with
                      | Some a => Some a
                      | None => find p l2
                      end.
Proof.
  induction l1 as [|a l1 IH]; [reflexivity|].
  simpl. destruct (p a); [reflexivity | exact IH].
Qed.

Lemma fill_from_length (row : list npfloat) (last_value : npfloat) :
  length (fill_from last_value row) = length row.
Proof.
  revert last_value; induction row as [|v row IH]; intros last_value;
    [reflexivity|].
  simpl. now rewrite IH.
Qed.

Lemma fill_from_nth (row : list npfloat) (last_value : npfloat) (i : nat) :
  i < length row ->
  nth_error (fill_from last_value row) i
  = Some (match last_sample_upto row i with
          | Some s => s
          | None => last_value
          end).
Proof.
  revert last_value i; induction row as [|v row IH]; intros last_value i Hi;
    [simpl in Hi; lia|].
  destruct i as [|i].
  - unfold last_sample_upto, is_sample. simpl. now destruct (isnan v).
  - simpl in Hi. cbn [fill_from nth_error]. rewrite IH by lia.
    unfold last_sample_upto. rewrite (firstn_cons (S i) v row).
    cbn [rev]. rewrite find_app.
    destruct (find is_sample (rev (firstn (S i) row))); [reflexivity|].
    unfold is_sample. simpl. now destruct (isnan v).
Qed.

Lemma last_sample_upto_none_hd (row : list npfloat) (i : nat) :
  last_sample_upto row i = None -> isnan (hd NaN row) = true.
Proof.
  destruct row as [|v row]; [reflexivity|]. intros H.
  unfold last_sample_upto in H. rewrite firstn_cons in H.
  pose proof (find_none _ _ H v) as Hv.
  unfold is_sample in Hv. simpl.
  destruct (isnan v); [reflexivity|].
  exfalso. assert (negb false = false) as F; [|discriminate F].
  apply Hv. apply in_rev. rewrite rev_involutive. now left.
Qed.

(** After the fill, every entry of a chain is the chain's last sample at or
    before that column, and NaN where the chain has no sample yet; the chain
    keeps its length. *)
Theorem forward_fill_carries_last_sample (row : list npfloat) (i : nat) :
  i < length row ->
  length (filled_row row) = length row
  /\ nth_error (filled_row row) i = Some (or_nan (last_sample_upto row i)).
Proof.
  intros Hi. unfold filled_row. split; [apply fill_from_length|].
  rewrite fill_from_nth by assumption.
  destruct (last_sample_upto row i) eqn:E; [reflexivity|].
  apply last_sample_upto_none_hd in E. simpl.
  destruct (hd NaN row); try discriminate. reflexivity.
Qed.

Lemma forward_fill_carries_last_sample_witness :
  nth_error (filled_row [NaN; Fin 1; NaN; NaN; Fin 4; NaN]) 0 = Some NaN
  /\ nth_error (filled_row [NaN; Fin 1; NaN; NaN; Fin 4; NaN]) 3 = Some (Fin 1)
  /\ nth_error (filled_row [NaN; Fin 1; NaN; NaN; Fin 4; NaN]) 5 = Some (Fin 4).
Proof.
  split; [|split].
  - exact (proj2 (@forward_fill_carries_last_sample
                    [NaN; Fin 1; NaN; NaN; Fin 4; NaN] 0 ltac:(simpl; lia))).
  - exact (proj2 (@forward_fill_carries_last_sample
                    [NaN; Fin 1; NaN; NaN; Fin 4; NaN] 3 ltac:(simpl; lia))).
  - exact (proj2 (@forward_fill_carries_last_sample
                    [NaN; Fin 1; NaN; NaN; Fin 4; NaN] 5 ltac:(simpl; lia))).
Defined.

Lemma last_sample_upto_is_sample (row : list npfloat) (i : nat) (s : npfloat) :
  last_sample_upto row i = Some s -> isnan s = false.
Proof.
  intros H. apply find_some in H as [_ H]. unfold is_sample in H.
  now destruct (isnan s).
Qed.

Lemma hd_filled_row (row : list npfloat) : hd NaN (filled_row row) = hd NaN row.
Proof.
  destruct row as [|v row]; [reflexivity|].
  unfold filled_row. simpl. now destruct (isnan v).
Qed.

Lemma filled_row_nth_sample (row : list npfloat) (j : nat) :
  j < length row -> isnan (hd NaN row) = false ->
  exists s, isnan s = false /\ nth_error (filled_row row) j = Some s.
Proof.
  intros Hj Hhd. unfold filled_row. rewrite fill_from_nth by assumption.
  destruct (last_sample_upto row j) as [s|] eqn:E.
  - exists s. split; [now apply (last_sample_upto_is_sample row j) | reflexivity].
  - exists (hd NaN row). now split.
Qed.

(** A filled chain is free of NaN exactly when the chain starts with a
    sample. *)
Lemma filled_row_no_nan_iff (row : list npfloat) :
  row <> [] ->
  isnan (hd NaN row) = false
  <-> Forall (fun v => isnan v = false) (filled_row row).
Proof.
  intros Hne. split.
  - intros Hhd. apply row_no_nan. intros j v Hj.
    assert (Hjlt : j < length row).
    { rewrite <- (fill_from_length row (hd NaN row)).
      apply nth_error_Some. unfold filled_row in Hj. congruence. }
    destruct (filled_row_nth_sample row Hjlt Hhd) as [s [Hs Hv]].
    rewrite Hv in Hj. inversion Hj; subst. exact Hs.
  - intros Hall. rewrite <- hd_filled_row.
    destruct (filled_row row) as [|v l] eqn:E.
    + exfalso. apply Hne. apply length_zero_iff_nil.
      rewrite <- (fill_from_length row (hd NaN row)).
      unfold filled_row in E. now rewrite E.
    + inversion Hall; subst. assumption.
Qed.

(** On a matrix with one row per chain and at least one column the fill
    loop raises nothing and keeps the shape; each entry becomes the last
    sample of its chain at or before its column (NaN if there is none), so a
    chain comes out free of NaN exactly when it has a sample in the first
    column. *)
Theorem fill_missing_result (t : matrix) (w : nat) :
  1 <= w ->
  Forall (fun row => length row = w) t ->
  exists filled,
    fill_missing (length t) t = Ok filled
    /\ length filled = length t
    /\ Forall (fun row => length row = w) filled
    /\ forall r row,
         nth_error t r = Some row ->
         exists row',
           nth_error filled r = Some row'
           /\ (forall c, c < w ->
                 nth_error row' c = Some (or_nan (last_sample_upto row c)))
           /\ (isnan (hd NaN row) = false
               <-> Forall (fun v => isnan v = false) row').
Proof.
  intros Hw Hrect.
  assert (Hne : Forall (fun row => row <> []) t).
  { eapply Forall_impl; [|exact Hrect]. intros row Hlen ->. simpl in Hlen. lia. }
  exists (map filled_row t).
  split; [now apply fill_missing_spec|].
  split; [apply length_map|].
  split.
  { apply Forall_forall. intros row' Hrow'.
    apply in_map_iff in Hrow' as (row & <- & Hin).
    unfold filled_row. rewrite fill_from_length.
    rewrite Forall_forall in Hrect. now apply Hrect. }
  intros r row Hr. exists (filled_row row).
  rewrite Forall_forall in Hrect, Hne.
  pose proof (Hrect row (nth_error_In _ _ Hr)) as Hlen.
  split; [now rewrite nth_error_map, Hr|]. split.
  - intros c Hc. unfold filled_row. rewrite fill_from_nth by lia.
    destruct (last_sample_upto row c) eqn:E; [reflexivity|].
    apply last_sample_upto_none_hd in E. simpl.
    destruct (hd NaN row); try discriminate. reflexivity.
  - apply filled_row_no_nan_iff. apply Hne. exact (nth_error_In _ _ Hr).
Qed.

Lemma fill_missing_result_witness :
  exists filled,
    fill_missing 2 [[NaN; Fin 1; NaN]; [Fin 6; NaN; NaN]] = Ok filled
    /\ nth_error filled 0 = Some [NaN; Fin 1; Fin 1]
    /\ nth_error filled 1 = Some [Fin 6; Fin 6; Fin 6].
Proof.
  destruct (@fill_missing_result [[NaN; Fin 1; NaN]; [Fin 6; NaN; NaN]] 3
              ltac:(lia) ltac:(repeat constructor))
    as (filled & Hfill & _ & _ & _).
  exists filled. split; [exact Hfill|].
  cbv in Hfill. inversion Hfill; subst. split; reflexivity.
Defined.

(** ** Trimming: edge cases *)

Lemma first_present_all_nan (row : list npfloat) :
  Forall (fun v => isnan v = true) row -> first_present row = None.
Proof.
  induction 1 as [|v row Hv _ IH]; [reflexivity|].
  simpl. now rewrite Hv, IH.
Qed.

Lemma first_non_nans_all_nan (value : matrix) :
  Forall (fun row => Forall (fun v => isnan v = true) row) value ->
  first_non_nans value = [].
Proof.
  intros H. rewrite first_non_nans_spec.
  induction H as [|row value Hrow _ IH]; [reflexivity|].
  simpl. rewrite IH. unfold first_of_chain.
  now rewrite (first_present_all_nan Hrow).
Qed.

(** A variable without a single sample in any chain: the starting column
    falls one past the width, the trimmed matrix has no column left, and the
    fill loop fails with an IndexError on its first read. *)
Theorem prepare_without_sample (value : matrix) (num_chains : nat) :
  value <> [] -> 1 <= num_chains ->
  Forall (fun row => Forall (fun v => isnan v = true) row) value ->
  starting_col value = (shape1 value + 1)%Z
  /\ prepare num_chains value = Raise IndexError.
Proof.
  intros Hne Hn Hall.
  assert (Hstart : starting_col value = (shape1 value + 1)%Z).
  { unfold starting_col. now rewrite (first_non_nans_all_nan Hall). }
  split; [exact Hstart|].
  unfold prepare, trim. rewrite Hstart.
  destruct value as [|row value]; [congruence|].
  destruct (Z.eqb_spec (shape1 (row :: value) + 1) 0) as [E|_].
  { unfold shape1 in E. lia. }
  unfold fill_missing. destruct num_chains as [|k]; [lia|].
  cbn [seq foldM slice_cols_from map nth_error].
  assert (Hrow : slice_from (shape1 (row :: value) + 1) row = []).
  { unfold slice_from, shape1.
    destruct (Z.ltb_spec (Z.of_nat (length row) + 1) 0) as [Hlt|_]; [lia|].
    apply skipn_all2. lia. }
  rewrite Hrow. reflexivity.
Qed.

Lemma prepare_without_sample_witness :
  prepare 2 [[NaN; NaN]; [NaN; NaN]] = Raise IndexError.
Proof.
  apply (proj2 (@prepare_without_sample [[NaN; NaN]; [NaN; NaN]] 2
                  ltac:(discriminate) ltac:(lia) ltac:(repeat constructor))).
Defined.

Lemma first_present_spec (row : list npfloat) (j : nat) :
  first_present row = Some j ->
  (forall k, k < j -> nth_error row k = Some NaN)
  /\ exists v, nth_error row j = Some v /\ isnan v = false.
Proof.
  revert j; induction row as [|v row IH]; intros j H; [discriminate|].
  simpl in H. destruct (isnan v) eqn:Hv.
  - destruct (first_present row) as [j'|]; [|discriminate].
    simpl in H. inversion H; subst j. destruct (IH j' eq_refl) as [Hbefore Hat].
    split.
    + intros [|k] Hk; [simpl; destruct v; try discriminate; reflexivity|].
      simpl. apply Hbefore. lia.
    + exact Hat.
  - inversion H; subst j. split; [intros k Hk; lia|].
    exists v. now split.
Qed.

Lemma list_max_attained (l : list nat) :
  l <> [] -> In (list_max l) l.
Proof.
  induction l as [|a l IH]; [congruence|]. intros _.
  destruct l as [|b l].
  - simpl. left. lia.
  - change (list_max (a :: b :: l)) with (Nat.max a (list_max (b :: l))).
    destruct (Nat.max_spec a (list_max (b :: l))) as [[_ ->]|[_ ->]].
    + right. apply IH. discriminate.
    + now left.
Qed.

(** When every chain holds a sample, the trimmed rows have the width minus
    the starting column, and there is a chain that has no sample in any
    removed column and a sample in the first kept one: no column common to
    all chains is lost, and that chain will come out of the fill without
    NaN. *)
Theorem trim_starts_at_a_sample (value : matrix) (w : nat) :
  value <> [] ->
  Forall (fun row => first_present row <> None) value ->
  Forall (fun row => length row = w) value ->
  let start := list_max (map first_present_col value) in
  Forall (fun row => length row = w - start) (trim value)
  /\ exists r row v,
       nth_error value r = Some row
       /\ (forall k, k < start -> nth_error row k = Some NaN)
       /\ entry (trim value) r 0 = Some v
       /\ isnan v = false.
Proof.
  intros Hne Hall Hrect start.
  destruct (trim_spec Hne Hall) as [_ Htrim]. fold start in Htrim.
  split.
  { rewrite Htrim. apply Forall_forall. intros row' Hrow'.
    apply in_map_iff in Hrow' as (row & <- & Hin).
    rewrite length_skipn. rewrite Forall_forall in Hrect.
    now rewrite (Hrect row Hin). }
  assert (Hin : In start (map first_present_col value)).
  { apply list_max_attained. destruct value; [congruence | discriminate]. }
  apply in_map_iff in Hin as (row & Hcol & Hrow).
  apply In_nth_error in Hrow as [r Hr].
  rewrite Forall_forall in Hall.
  pose proof (Hall row (nth_error_In _ _ Hr)) as Hpresent.
  unfold first_present_col in Hcol.
  destruct (first_present row) as [j|] eqn:Hfp; [|congruence]. subst j.
  destruct (first_present_spec _ Hfp) as [Hbefore (v & Hv & Hsample)].
  exists r, row, v. split; [exact Hr|]. split; [exact Hbefore|].
  split; [|exact Hsample].
  rewrite Htrim, entry_map, Hr, nth_error_skipn. now rewrite Nat.add_0_r.
Qed.

Lemma trim_starts_at_a_sample_witness :
  exists r row v,
    nth_error [[NaN; Fin 1; NaN; Fin 3]; [Fin 5; Fin 6; Fin 7; Fin 8]] r = Some row
    /\ entry (trim [[NaN; Fin 1; NaN; Fin 3]; [Fin 5; Fin 6; Fin 7; Fin 8]]) r 0
       = Some v
    /\ isnan v = false.
Proof.
  destruct (@trim_starts_at_a_sample
              [[NaN; Fin 1; NaN; Fin 3]; [Fin 5; Fin 6; Fin 7; Fin 8]] 4
              ltac:(discriminate) ltac:(repeat constructor; discriminate)
              ltac:(repeat constructor))
    as [_ (r & row & v & Hr & _ & Hentry & Hv)].
  exists r, row, v. repeat split; assumption.
Defined.

(** ** autocorrelation: windows and degenerate cases *)

(** Whatever the lag (positive, negative, beyond the length), the two
    slices [values[lag:]] and [values[:-lag]] are equally long, so that
    [np.corrcoef] never sees two vectors of different lengths. *)
Theorem autocorrelation_windows_same_length {A : Type} (values : list A) (lag : Z) :
  lag <> 0%Z ->
  length (slice_from lag values) = length (slice_to (- lag) values)
  /\ ((0 < lag)%Z ->
      length (slice_from lag values) = length values - Z.to_nat lag)
  /\ ((lag < 0)%Z ->
      length (slice_from lag values) = Nat.min (Z.to_nat (- lag)) (length values)).
Proof.
  intros Hlag. unfold slice_from, slice_to.
  destruct (Z.ltb_spec lag 0) as [Hneg|Hpos];
    destruct (Z.ltb_spec (- lag) 0) as [Hneg'|Hpos']; try lia;
    rewrite length_skipn, length_firstn; repeat split; intros; lia.
Qed.

Lemma autocorrelation_windows_same_length_witness :
  length (slice_from (-2) [1; 2; 3; 4; 5]) = length (slice_to 2 [1; 2; 3; 4; 5])
  /\ length (slice_from 7 [1; 2; 3; 4; 5]) = length (slice_to (-7) [1; 2; 3; 4; 5]).
Proof.
  split.
  - exact (proj1 (@autocorrelation_windows_same_length nat [1; 2; 3; 4; 5] (-2)
                    ltac:(discriminate))).
  - exact (proj1 (@autocorrelation_windows_same_length nat [1; 2; 3; 4; 5] 7
                    ltac:(discriminate))).
Defined.

Lemma Rsign_0 : Rsign 0 = Eq.
Proof.
  unfold Rsign. destruct (Rlt_dec 0 0) as [H|_]; [lra | reflexivity].
Qed.

Lemma np_div_0_0 : np_div (Fin 0) (Fin 0) = NaN.
Proof.
  unfold np_div. destruct (Req_dec_T 0 0) as [_|H]; [|contradiction].
  now rewrite Rsign_0.
Qed.

Lemma np_div_nan_r (x : npfloat) : np_div x NaN = NaN.
Proof. now destruct x. Qed.

(** The variance of no sample or of a single one is NaN. *)
Lemma np_cov_short (a : list npfloat) : length a <= 1 -> np_cov a a = NaN.
Proof.
  destruct a as [|x [|y a]]; simpl; intros Hlen; [| |lia].
  - unfold np_cov. simpl. apply np_div_0_0.
  - unfold np_cov, np_mean, np_sum. cbn [length map combine fold_left fst snd Nat.leb].
    destruct x as [r| | |]; cbn [np_add INR]; try reflexivity.
    + unfold np_div at 2 3.
      destruct (Req_dec_T 1 0) as [H|_]; [lra|].
      cbn [np_sub np_neg np_add np_mul].
      replace (0 + (r + - ((0 + r) / 1)) * (r + - ((0 + r) / 1)))%R with 0%R
        by (field).
      apply np_div_0_0.
    + unfold np_div at 2 3. destruct (Rlt_dec 1 0) as [H|_]; [lra|]. reflexivity.
    + unfold np_div at 2 3. destruct (Rlt_dec 1 0) as [H|_]; [lra|]. reflexivity.
Qed.

Lemma np_corrcoef01_nan_variance (a b : list npfloat) :
  np_sqrt (np_cov a a) = NaN \/ np_div (np_cov a b) (np_sqrt (np_cov a a)) = NaN ->
  np_corrcoef01 a b = NaN.
Proof.
  unfold np_corrcoef01. intros [H|H].
  - rewrite H, np_div_nan_r. reflexivity.
  - rewrite H. reflexivity.
Qed.

(** A positive lag that leaves a window of one sample or none (a lag of at
    least the length minus one) yields NaN, not an error. *)
Theorem autocorrelation_lag_too_large (values : list npfloat) (lags : list Z)
  (i : nat) (k : Z) :
  nth_error lags i = Some k ->
  (0 < k)%Z -> (Z.of_nat (length values) - 1 <= k)%Z ->
  nth_error (autocorrelation values lags) i = Some NaN.
Proof.
  intros Hi Hpos Hbig. unfold autocorrelation. rewrite nth_error_map, Hi.
  simpl. destruct (Z.eqb_spec k 0) as [E|_]; [lia|]. f_equal.
  apply np_corrcoef01_nan_variance. left.
  rewrite np_cov_short; [reflexivity|].
  rewrite slice_from_pos by lia. rewrite length_skipn. lia.
Qed.

Lemma autocorrelation_lag_too_large_witness :
  nth_error (autocorrelation [Fin 1; Fin 2; Fin 4] [1; 2; 5]%Z) 1 = Some NaN
  /\ nth_error (autocorrelation [Fin 1; Fin 2; Fin 4] [1; 2; 5]%Z) 2 = Some NaN.
Proof.
  split.
  - apply (@autocorrelation_lag_too_large [Fin 1; Fin 2; Fin 4] [1; 2; 5]%Z 1 2%Z
             eq_refl); simpl; lia.
  - apply (@autocorrelation_lag_too_large [Fin 1; Fin 2; Fin 4] [1; 2; 5]%Z 2 5%Z
             eq_refl); simpl; lia.
Defined.

(** ** The most frequent controlled addresses *)

Lemma take_counting_below {A : Type} (n count : Z) (l : list A) :
  (0 <= count < n)%Z ->
  take_counting n count l = firstn (Z.to_nat (n - count)) l.
Proof.
  revert count; induction l as [|a l IH]; intros count Hc.
  - now rewrite firstn_nil.
  - replace (Z.to_nat (n - count)) with (S (Z.to_nat (n - (count + 1)))) by lia.
    cbn [take_counting firstn].
    destruct (Z.eqb_spec (count + 1) n) as [E|E].
    + replace (Z.to_nat (n - (count + 1))) with 0 by lia. reflexivity.
    + f_equal. apply IH. lia.
Qed.

Lemma take_counting_never {A : Type} (n count : Z) (l : list A) :
  (n <= count)%Z -> take_counting n count l = l.
Proof.
  revert count; induction l as [|a l IH]; intros count Hc; [reflexivity|].
  cbn [take_counting].
  destruct (Z.eqb_spec (count + 1) n) as [E|_]; [lia|].
  f_equal. apply IH. lia.
Qed.

(** The loop with its [break]: [n_most_frequent >= 1] keeps the first
    [n_most_frequent] of the ordered addresses (all of them when there are
    fewer); zero or a negative number keeps them all, the [break] never being
    reached. *)
Theorem most_frequent_addresses_cut (trace_dist : pyobj) (num_traces n : Z) :
  most_frequent_addresses trace_dist num_traces n
  = (l <- ordered_addresses trace_dist num_traces ;;
     Ok (if (1 <=? n)%Z then firstn (Z.to_nat n) l else l)).
Proof.
  unfold most_frequent_addresses, ordered_addresses.
  destruct (count_addresses trace_dist num_traces) as [counts|e]; [|reflexivity].
  cbn [bind].
  destruct (sorted_desc _ _) as [ordered|e]; [|reflexivity].
  cbn [bind]. f_equal.
  destruct (Z.leb_spec 1 n) as [Hn|Hn].
  - rewrite take_counting_below by lia. now rewrite Z.sub_0_r.
  - apply take_counting_never. lia.
Qed.

(** One trace with the addresses [addr_b] (twice), [addr_a] and [addr_c]. *)
Lemma most_frequent_addresses_cut_witness :
  ordered_addresses (PyEmpirical [PyTrace three_address_trace]) 1
  = Ok ["addr_b"; "addr_a"; "addr_c"]%string
  /\ most_frequent_addresses (PyEmpirical [PyTrace three_address_trace]) 1 2
     = Ok ["addr_b"; "addr_a"]%string
  /\ most_frequent_addresses (PyEmpirical [PyTrace three_address_trace]) 1 5
     = Ok ["addr_b"; "addr_a"; "addr_c"]%string
  /\ most_frequent_addresses (PyEmpirical [PyTrace three_address_trace]) 1 (-3)
     = Ok ["addr_b"; "addr_a"; "addr_c"]%string.
Proof.
  split; [reflexivity|].
  rewrite !most_frequent_addresses_cut. repeat split; reflexivity.
Defined.

Lemma dict_get_set_same {V : Type} (d : list (string * V)) (k : string) (v : V) :
  dict_get String.eqb (dict_set String.eqb d k v) k = Some v.
Proof.
  induction d as [|[k' v'] d IH]; simpl.
  - now rewrite String.eqb_refl.
  - destruct (String.eqb k' k) eqn:E; simpl; rewrite E; [reflexivity | exact IH].
Qed.

Lemma dict_get_set_other {V : Type} (d : list (string * V)) (k k' : string) (v : V) :
  k <> k' ->
  dict_get String.eqb (dict_set String.eqb d k v) k' = dict_get String.eqb d k'.
Proof.
  intros Hne. induction d as [|[k0 v0] d IH]; simpl.
  - destruct (String.eqb_spec k k'); [contradiction | reflexivity].
  - destruct (String.eqb_spec k0 k) as [->|Hk0]; simpl.
    + destruct (String.eqb_spec k k'); [contradiction | reflexivity].
    + destruct (String.eqb k0 k'); [reflexivity | exact IH].
Qed.

Lemma dict_set_NoDup {V : Type} (d : list (string * V)) (k : string) (v : V) :
  NoDup (map fst d) -> NoDup (map fst (dict_set String.eqb d k v)).
Proof.
  induction d as [|[k0 v0] d IH]; simpl; intros H.
  - constructor; [intros [] | constructor].
  - inversion H as [|? ? Hnotin Hnd]; subst.
    destruct (String.eqb_spec k0 k) as [->|Hk0]; simpl.
    + now constructor.
    + constructor; [|now apply IH].
      intros Hin. apply dict_set_keys in Hin as [Hin|Hin]; [contradiction|].
      now subst.
Qed.

Lemma dict_get_In {V : Type} (d : list (string * V)) (k : string) (v : V) :
  NoDup (map fst d) ->
  (dict_get String.eqb d k = Some v <-> In (k, v) d).
Proof.
  induction d as [|[k0 v0] d IH]; simpl; intros H.
  - split; [discriminate | intros []].
  - inversion H as [|? ? Hnotin Hnd]; subst.
    destruct (String.eqb_spec k0 k) as [->|Hk0].
    + split.
      * intros E. inversion E; subst. now left.
      * intros [E|Hin]; [now inversion E|].
        exfalso. apply Hnotin. now apply (in_map fst) in Hin.
    + rewrite (IH Hnd). split; [now right|].
      intros [E|Hin]; [inversion E; contradiction | assumption].
Qed.

Lemma get_count_step (counts : list (string * Z)) (variable : PVariable) (a : string) :
  counts_ok counts ->
  let counts' :=
    if (nelement (value variable) =? 1)%Z then
      match dict_get String.eqb counts (address variable) with
      | None => dict_set String.eqb counts (address variable) 1%Z
      | Some c => dict_set String.eqb counts (address variable) (c + 1)%Z
      end
    else counts in
  counts_ok counts'
  /\ get_count counts' a
     = (get_count counts a
        + if (nelement (value variable) =? 1)%Z && String.eqb (address variable) a
          then 1 else 0)%Z.
Proof.
  intros [Hnd Hpos]. cbn zeta.
  destruct (nelement (value variable) =? 1)%Z; cbn [andb];
    [|split; [now split | lia]].
  assert (Hset : forall c', (0 < c')%Z ->
            (get_count counts (address variable) + 1 = c')%Z ->
            counts_ok (dict_set String.eqb counts (address variable) c')
            /\ get_count (dict_set String.eqb counts (address variable) c') a
               = (get_count counts a
                  + (if String.eqb (address variable) a then 1 else 0))%Z).
  { intros c' Hc' Hsum. split.
    - split; [now apply dict_set_NoDup|].
      intros a0 c0. destruct (String.eqb_spec (address variable) a0) as [<-|Hne].
      + rewrite dict_get_set_same. intros E. inversion E; now subst.
      + rewrite dict_get_set_other by assumption. apply Hpos.
    - unfold get_count at 1.
      destruct (String.eqb_spec (address variable) a) as [<-|Hne].
      + rewrite dict_get_set_same. lia.
      + rewrite dict_get_set_other by assumption. unfold get_count. lia. }
  destruct (dict_get String.eqb counts (address variable)) as [c|] eqn:Hget.
  - apply Hset; [pose proof (Hpos _ _ Hget); lia|].
    unfold get_count. now rewrite Hget.
  - apply Hset; [lia|]. unfold get_count. now rewrite Hget.
Qed.

Lemma count_in_trace_spec (trace : Trace) (counts : list (string * Z)) (a : string) :
  counts_ok counts ->
  counts_ok (count_in_trace trace counts)
  /\ get_count (count_in_trace trace counts) a
     = (get_count counts a + occurrences_in_trace trace a)%Z.
Proof.
  unfold count_in_trace, occurrences_in_trace.
  generalize (variables_controlled trace) as vars.
  intros vars; revert counts. induction vars as [|v vars IH]; intros counts Hok.
  - simpl. split; [assumption | lia].
  - cbn [fold_left filter].
    destruct (get_count_step v a Hok) as [Hok' Hcount]. cbn zeta in Hok', Hcount.
    destruct (IH _ Hok') as [Hok'' Hcount''].
    split; [exact Hok''|]. rewrite Hcount'', Hcount.
    destruct ((nelement (value v) =? 1)%Z && String.eqb (address v) a);
      cbn [length]; lia.
Qed.

Lemma fold_count_spec (traces : list Trace) (counts : list (string * Z)) (a : string) :
  counts_ok counts ->
  counts_ok (fold_left (fun c t => count_in_trace t c) traces counts)
  /\ get_count (fold_left (fun c t => count_in_trace t c) traces counts) a
     = (get_count counts a + occurrences traces a)%Z.
Proof.
  revert counts; induction traces as [|t traces IH]; intros counts Hok.
  - simpl. unfold occurrences. simpl. split; [assumption | lia].
  - cbn [fold_left]. destruct (count_in_trace_spec t a Hok) as [Hok' Hc].
    destruct (IH _ Hok') as [Hok'' Hc'']. split; [exact Hok''|].
    rewrite Hc'', Hc. unfold occurrences. simpl. lia.
Qed.

(** On a distribution of traces the counting loop is a fold over the
    traces. *)
Lemma count_addresses_fold (pre traces : list Trace) (counts : list (string * Z)) :
  foldM (fun counts i =>
           o <- get_value (PyEmpirical (map PyTrace (pre ++ traces))) i ;;
           trace <- attr_trace o ;;
           Ok (count_in_trace trace counts))
        (seq (length pre) (length traces)) counts
  = Ok (fold_left (fun c t => count_in_trace t c) traces counts).
Proof.
  revert pre counts; induction traces as [|t traces IH]; intros pre counts.
  - reflexivity.
  - simpl length. cbn [seq foldM get_value].
    rewrite nth_error_map, nth_error_app2 by lia. rewrite Nat.sub_diag.
    cbn [nth_error option_map attr_trace bind fold_left].
    specialize (IH (pre ++ [t]) (count_in_trace t counts)).
    rewrite <- app_assoc, length_app, Nat.add_1_r in IH. exact IH.
Qed.

Lemma insert_by_count (a : string * Z) (l : list (string * Z)) :
  StronglySorted (fun x y => (snd y <= snd x)%Z) l ->
  exists l',
    insert_desc (fun x y => Ok (Z.compare (snd x) (snd y))) a l = Ok l'
    /\ Permutation l' (a :: l)
    /\ StronglySorted (fun x y => (snd y <= snd x)%Z) l'.
Proof.
  induction l as [|b l IH]; intros Hs.
  - exists [a]. repeat split; [reflexivity | repeat constructor].
  - inversion Hs as [|? ? Hl Hb]; subst. cbn [insert_desc bind].
    destruct (Z.compare_spec (snd a) (snd b)) as [E|Hlt|Hgt].
    + exists (a :: b :: l). repeat split; [reflexivity|].
      constructor; [assumption|]. constructor; [lia|].
      eapply Forall_impl; [|exact Hb]. simpl. intros y Hy. lia.
    + destruct (IH Hl) as (rest & -> & Hperm & Hsorted). cbn [bind].
      exists (b :: rest). repeat split.
      * rewrite Hperm. apply perm_swap.
      * constructor; [assumption|].
        apply (Permutation_Forall (Permutation_sym Hperm)).
        constructor; [lia | assumption].
    + exists (a :: b :: l). repeat split; [reflexivity|].
      constructor; [assumption|]. constructor; [lia|].
      eapply Forall_impl; [|exact Hb]. simpl. intros y Hy. lia.
Qed.

Lemma sorted_by_count (l : list (string * Z)) :
  exists s,
    sorted_desc (fun x y => Ok (Z.compare (snd x) (snd y))) l = Ok s
    /\ Permutation s l
    /\ StronglySorted (fun x y => (snd y <= snd x)%Z) s.
Proof.
  induction l as [|a l IH].
  - exists []. repeat split; constructor.
  - destruct IH as (s & Hs & Hperm & Hsorted). cbn [sorted_desc]. rewrite Hs.
    cbn [bind]. destruct (insert_by_count a Hsorted) as (s' & Hs' & Hperm' & Hsorted').
    exists s'. repeat split; [assumption | | assumption].
    rewrite Hperm'. now constructor.
Qed.

Lemma StronglySorted_nth {A : Type} (R : A -> A -> Prop) (l : list A) :
  StronglySorted R l ->
  forall i j x y,
    i < j -> nth_error l i = Some x -> nth_error l j = Some y -> R x y.
Proof.
  induction 1 as [|a l Hl IH Ha]; intros i j x y Hij Hi Hj.
  - destruct i; discriminate.
  - destruct j as [|j]; [lia|]. destruct i as [|i].
    + simpl in Hi, Hj. inversion Hi; subst x.
      rewrite Forall_forall in Ha. apply Ha. exact (nth_error_In _ _ Hj).
    + simpl in Hi, Hj. apply (IH i j); [lia | assumption | assumption].
Qed.

Lemma NoDup_keys_filter {V : Type} (p : string * V -> bool) (d : list (string * V)) :
  NoDup (map fst d) -> NoDup (map fst (filter p d)).
Proof.
  induction d as [|kv d IH]; simpl; intros H; [constructor|].
  inversion H as [|? ? Hnotin Hnd]; subst.
  destruct (p kv); simpl; [|now apply IH].
  constructor; [|now apply IH].
  intros Hin. apply Hnotin. apply in_map_iff in Hin as (kv' & E & Hin).
  apply filter_In in Hin as [Hin _]. rewrite <- E. now apply in_map.
Qed.

(** On a distribution of traces the selection of the most frequent
    addresses raises nothing.  Uncut, it returns, without repetition, exactly
    the addresses whose controlled one-element variables occur, over all the
    traces together, at least once and at least as often as there are traces
    (an address need not occur in every trace for that), ordered by
    decreasing number of occurrences. *)
Theorem most_frequent_addresses_spec (traces : list Trace) :
  exists l,
    most_frequent_addresses (PyEmpirical (map PyTrace traces))
      (Z.of_nat (length traces)) 0 = Ok l
    /\ NoDup l
    /\ (forall a, In a l <->
          (1 <= occurrences traces a
           /\ Z.of_nat (length traces) <= occurrences traces a)%Z)
    /\ forall i j a b,
         i < j -> nth_error l i = Some a -> nth_error l j = Some b ->
         (occurrences traces b <= occurrences traces a)%Z.
Proof.
  unfold most_frequent_addresses, count_addresses.
  rewrite Nat2Z.id.
  pose proof (count_addresses_fold [] traces []) as Hfold.
  cbn [app length] in Hfold. rewrite Hfold. cbn [bind].
  set (counts := fold_left (fun c t => count_in_trace t c) traces []).
  assert (Hok0 : counts_ok []).
  { split; [constructor | intros a c; discriminate]. }
  assert (Hcounts : counts_ok counts
                    /\ forall a, get_count counts a = occurrences traces a).
  { split; [apply (fold_count_spec traces ""%string Hok0)|].
    intros a. destruct (fold_count_spec traces a Hok0) as [_ H].
    fold counts in H. rewrite H. unfold get_count. simpl. lia. }
  destruct Hcounts as [[Hnd Hpos] Hocc].
  set (kept := filter (fun kv : string * Z =>
                         (Z.of_nat (length traces) <=? snd kv)%Z) counts).
  destruct (sorted_by_count kept) as (ordered & -> & Hperm & Hsorted).
  cbn [bind]. rewrite take_counting_never by lia.
  exists (map fst ordered). split; [reflexivity|].
  assert (Hin_counts : forall a c, In (a, c) counts -> c = occurrences traces a).
  { intros a c Hin. apply (dict_get_In counts a c Hnd) in Hin.
    rewrite <- Hocc. unfold get_count. now rewrite Hin. }
  assert (Hin_ordered : forall a c, In (a, c) ordered <->
            In (a, c) counts /\ (Z.of_nat (length traces) <= c)%Z).
  { intros a c. split.
    - intros Hin. apply (Permutation_in _ Hperm) in Hin.
      apply filter_In in Hin as [Hin Hle]. simpl in Hle.
      apply Z.leb_le in Hle. now split.
    - intros [Hin Hle]. apply (Permutation_in _ (Permutation_sym Hperm)).
      apply filter_In. split; [assumption|]. simpl. now apply Z.leb_le. }
  split; [|split].
  - apply (Permutation_NoDup (Permutation_map fst (Permutation_sym Hperm))).
    now apply NoDup_keys_filter.
  - intros a. split.
    + intros Hin. apply in_map_iff in Hin as ([a' c] & E & Hin). simpl in E.
      subst a'. apply Hin_ordered in Hin as [Hin Hle].
      pose proof (Hin_counts a c Hin) as Hc.
      apply (dict_get_In counts a c Hnd) in Hin. pose proof (Hpos a c Hin).
      lia.
    + intros [H1 Hle].
      destruct (dict_get String.eqb counts a) as [c|] eqn:Hget.
      * assert (Hc : c = occurrences traces a).
        { rewrite <- Hocc. unfold get_count. now rewrite Hget. }
        apply (dict_get_In counts a c Hnd) in Hget.
        apply in_map_iff. exists (a, c). split; [reflexivity|].
        apply Hin_ordered. split; [assumption | lia].
      * exfalso. rewrite <- Hocc in H1. unfold get_count in H1.
        rewrite Hget in H1. lia.
  - intros i j a b Hij Hi Hj.
    rewrite nth_error_map in Hi, Hj.
    destruct (nth_error ordered i) as [[a' ca]|] eqn:Ei; [|discriminate].
    destruct (nth_error ordered j) as [[b' cb]|] eqn:Ej; [|discriminate].
    simpl in Hi, Hj. inversion Hi; subst a'. inversion Hj; subst b'.
    pose proof (@StronglySorted_nth _ _ _ Hsorted i j _ _ Hij Ei Ej) as Hle.
    simpl in Hle.
    pose proof (nth_error_In _ _ Ei) as Hina. pose proof (nth_error_In _ _ Ej) as Hinb.
    apply Hin_ordered in Hina as [Hina _]. apply Hin_ordered in Hinb as [Hinb _].
    rewrite <- (Hin_counts a ca Hina), <- (Hin_counts b cb Hinb). exact Hle.
Qed.

(** Two traces, the address visited twice in the first and not at all in
    the second: it is selected. *)
Lemma most_frequent_addresses_spec_witness :
  exists l,
    most_frequent_addresses
      (PyEmpirical [PyTrace looping_trace; PyTrace bare_trace]) 2 0 = Ok l
    /\ In "addr_a"%string l.
Proof.
  destruct (most_frequent_addresses_spec [looping_trace; bare_trace])
    as (l & Hl & _ & Hin & _).
  exists l. split; [exact Hl|].
  apply Hin. cbv. split; discriminate.
Defined.

(** ** log_prob *)

Lemma py_range_bounds (stop step i : Z) :
  (1 <= step)%Z -> In i (py_range stop step) -> (0 <= i < stop)%Z.
Proof.
  intros Hstep Hin. unfold py_range in Hin.
  apply in_map_iff in Hin as (k & <- & Hk). apply in_seq in Hk.
  destruct (Z.lt_ge_cases stop 1) as [Hsmall|Hbig].
  - exfalso.
    assert ((stop + step - 1) / step < 1)%Z.
    { apply Z.div_lt_upper_bound; lia. }
    lia.
  - assert (Hq : (0 <= (stop + step - 1) / step)%Z) by (apply Z.div_pos; lia).
    pose proof (Z.mul_div_le (stop + step - 1) step ltac:(lia)) as Hle.
    split; [lia|]. nia.
Qed.

Lemma sampled_indices_bounds (len resolution i : Z) :
  In i (sampled_indices len resolution) -> (0 <= i < len)%Z.
Proof.
  unfold sampled_indices. apply py_range_bounds. lia.
Qed.

(** As long as the clock has moved at every report, the loop over the indices
    of one distribution loads the log-probabilities of the traces read. *)
Lemma load_log_probs_values (print_refresh_rate : R) (duration : nat -> Z -> R)
  (traces : list Trace) (j : nat) (num_traces : Z) (its : list Z) :
  (forall i, In i its -> (0 <= i < Z.of_nat (length traces))%Z) ->
  (forall i, In i its -> duration j i <> 0%R) ->
  forall prev_duration,
    load_log_probs print_refresh_rate duration (Empirical_of traces) j num_traces
      prev_duration its
    = Ok (sampled_log_probs traces its).
Proof.
  induction its as [|i its IH]; intros Hb Hclock prev; [reflexivity|].
  assert (Hi : (0 <= i < Z.of_nat (length traces))%Z) by (apply Hb; now left).
  assert (Hget : get_value (Empirical_of traces) (Z.to_nat i)
                 = Ok (PyTrace (nth (Z.to_nat i) traces bare_trace))).
  { unfold Empirical_of, get_value. rewrite nth_error_map.
    rewrite (nth_error_nth' traces bare_trace) by lia. reflexivity. }
  assert (Hrep : exists prev',
             report_progress print_refresh_rate duration j num_traces prev i
             = Ok prev').
  { unfold report_progress.
    destruct (if Rlt_dec print_refresh_rate (duration j i - prev) then true
              else (i =? num_traces - 1)%Z); [|eexists; reflexivity].
    destruct (Req_dec_T (duration j i) 0) as [E|_]; [|eexists; reflexivity].
    exfalso. apply (Hclock i); [now left | exact E]. }
  destruct Hrep as [prev' Hrep].
  cbn [load_log_probs]. rewrite Hget. cbn [bind attr_trace]. rewrite Hrep.
  cbn [bind]. rewrite IH.
  - reflexivity.
  - intros k Hk. apply Hb. now right.
  - intros k Hk. apply Hclock. now right.
Qed.

Lemma log_prob_loop (print_refresh_rate : R) (duration : nat -> Z -> R)
  (dists : list (list Trace)) (resolution : Z)
  (acc_iters : list (list Z)) (acc_probs : list (list npfloat)) :
  resolution <> 0%Z ->
  Forall (fun traces => traces <> []) dists ->
  (forall j i, duration j i <> 0%R) ->
  foldM (fun acc d =>
           first <- getitem d 0 ;;
           if negb (is_Trace first) then Raise TypeError
           else
             len <- attr_length d ;;
             q <- (if (resolution =? 0)%Z then Raise ZeroDivisionError
                   else Ok (Z.quot len resolution)) ;;
             let its := py_range len (Z.max 1 q) in
             vals <- load_log_probs print_refresh_rate duration d
                       (length (fst acc)) len 0 its ;;
             Ok (fst acc ++ [its], snd acc ++ [vals]))
        (map Empirical_of dists) (acc_iters, acc_probs)
  = Ok (acc_iters
        ++ map (fun traces => sampled_indices (Z.of_nat (length traces)) resolution)
               dists,
        acc_probs
        ++ map (fun traces =>
                  sampled_log_probs traces
                    (sampled_indices (Z.of_nat (length traces)) resolution))
               dists).
Proof.
  intros Hres Hne Hclock; revert acc_iters acc_probs.
  induction Hne as [|traces dists Htraces _ IH]; intros acc_iters acc_probs.
  - cbn. now rewrite !app_nil_r.
  - cbn [map foldM]. destruct traces as [|t traces]; [congruence|].
    cbn [Empirical_of map getitem py_index length Z.of_nat Z.ltb Z.compare
         Z.to_nat nth_error bind is_Trace negb attr_length fst].
    destruct (Z.eqb_spec resolution 0) as [E|_]; [contradiction|].
    cbn [bind].
    change (PyEmpirical (PyTrace t :: map PyTrace traces))
      with (Empirical_of (t :: traces)).
    rewrite length_map.
    change (Z.pos (Pos.of_succ_nat (length traces)))
      with (Z.of_nat (length (t :: traces))).
    fold (sampled_indices (Z.of_nat (length (t :: traces))) resolution).
    rewrite load_log_probs_values;
      [| intros i; apply sampled_indices_bounds | intros i _; apply Hclock].
    cbn [bind fst snd]. rewrite IH, <- !app_assoc. reflexivity.
Qed.

Lemma np_array_rectangular {A : Type} (rows : list (list A)) (n : nat) :
  Forall (fun row => length row = n) rows -> np_array rows = Ok rows.
Proof.
  intros H. destruct rows as [|row rest]; [reflexivity|].
  inversion H as [|? ? Hrow Hrest]; subst. unfold np_array.
  replace (forallb (fun r => length r =? length row) rest) with true;
    [reflexivity|].
  symmetry. apply forallb_forall. intros r Hr. apply Nat.eqb_eq.
  rewrite Forall_forall in Hrest. now apply Hrest.
Qed.

(** On a list of non-empty trace distributions that all yield the same
    number [n] of indices (as distributions of one length do), with a
    resolution other than zero and a clock that has moved since the start
    whenever it is read, [log_prob] raises nothing: for each distribution it
    returns the indices [0, step, 2*step, ...] below the length, with
    [step = max(1, int(length / resolution))], and the stored log-probability
    of the trace at each of these indices; every index read is within
    bounds. *)
Theorem log_prob_samples (print_refresh_rate : R) (duration : nat -> Z -> R)
  (dists : list (list Trace)) (resolution : Z) (n : nat) :
  resolution <> 0%Z ->
  Forall (fun traces => traces <> []) dists ->
  Forall (fun traces =>
            length (sampled_indices (Z.of_nat (length traces)) resolution) = n)
         dists ->
  (forall j i, duration j i <> 0%R) ->
  log_prob print_refresh_rate duration (PyList (map Empirical_of dists)) resolution
  = Ok (map (fun traces => sampled_indices (Z.of_nat (length traces)) resolution)
            dists,
        map (fun traces =>
               sampled_log_probs traces
                 (sampled_indices (Z.of_nat (length traces)) resolution))
            dists)
  /\ forall traces i,
       In traces dists ->
       In i (sampled_indices (Z.of_nat (length traces)) resolution) ->
       (0 <= i < Z.of_nat (length traces))%Z
       /\ exists t, nth_error traces (Z.to_nat i) = Some t
                    /\ In (trace_log_prob t)
                          (sampled_log_probs traces
                             (sampled_indices (Z.of_nat (length traces)) resolution)).
Proof.
  intros Hres Hne Hrect Hclock. split.
  - unfold log_prob.
    pose proof (@log_prob_loop print_refresh_rate duration dists resolution [] []
                  Hres Hne Hclock) as Hloop.
    cbv zeta in Hloop. rewrite Hloop.
    cbn [bind app fst snd].
    rewrite (@np_array_rectangular _ _ n), (@np_array_rectangular _ _ n);
      [reflexivity | |].
    + apply Forall_map. eapply Forall_impl; [|exact Hrect].
      intros traces H. unfold sampled_log_probs. now rewrite length_map.
    + now apply Forall_map.
  - intros traces i _ Hi.
    pose proof (sampled_indices_bounds _ _ _ Hi) as Hb. split; [exact Hb|].
    destruct (nth_error traces (Z.to_nat i)) as [t|] eqn:Ht.
    2:{ apply nth_error_None in Ht. lia. }
    exists t. split; [reflexivity|].
    unfold sampled_log_probs. apply in_map_iff. exists i. split; [|exact Hi].
    now rewrite (nth_error_nth _ _ bare_trace Ht).
Qed.

(** Two chains of two traces, with a clock that reads one second at every
    report. *)
Lemma log_prob_samples_witness :
  log_prob 1 (fun _ _ => 1%R) (PyList [mcmc_chain; chain_a]) 2
  = Ok ([[0; 1]; [0; 1]]%Z, [[Fin 0; Fin 0]; [Fin 0; Fin 0]])
  /\ log_prob 1 (fun _ _ => 1%R) (PyList [mcmc_chain; chain_a]) 1
     = Ok ([[0]; [0]]%Z, [[Fin 0]; [Fin 0]]).
Proof.
  change (PyList [mcmc_chain; chain_a])
    with (PyList (map Empirical_of [[trace_of_mu 1; trace_of_mu 2];
                                    [trace_of_x_mu 1 1; trace_of_x_mu 2 1]])).
  rewrite (proj1 (@log_prob_samples 1%R (fun _ _ => 1%R)
                    [[trace_of_mu 1; trace_of_mu 2];
                     [trace_of_x_mu 1 1; trace_of_x_mu 2 1]] 2 2
                    ltac:(discriminate) ltac:(repeat constructor; discriminate)
                    ltac:(repeat constructor) ltac:(intros; lra))).
  rewrite (proj1 (@log_prob_samples 1%R (fun _ _ => 1%R)
                    [[trace_of_mu 1; trace_of_mu 2];
                     [trace_of_x_mu 1 1; trace_of_x_mu 2 1]] 1 1
                    ltac:(discriminate) ltac:(repeat constructor; discriminate)
                    ltac:(repeat constructor) ltac:(intros; lra))).
  split; reflexivity.
Defined.

Lemma quot_negative_divisor (len resolution : Z) :
  (0 <= len)%Z -> (resolution < 0)%Z -> (Z.quot len resolution <= 0)%Z.
Proof.
  intros Hlen Hres.
  replace resolution with (- - resolution)%Z by lia.
  rewrite Z.quot_opp_r by lia.
  assert (0 <= Z.quot len (- resolution))%Z by (apply Z.quot_pos; lia).
  lia.
Qed.

(** With a negative resolution or one above the length every trace is
    read; with [0 < resolution <= length] the number of traces read is at
    least the resolution and at most twice the resolution minus one. *)
Theorem sampled_indices_count (len resolution : Z) :
  (0 <= len)%Z ->
  ((resolution < 0 \/ len < resolution)%Z ->
   sampled_indices len resolution = map Z.of_nat (seq 0 (Z.to_nat len)))
  /\ ((0 < resolution <= len)%Z ->
      (resolution <= Z.of_nat (length (sampled_indices len resolution))
       <= 2 * resolution - 1)%Z).
Proof.
  intros Hlen. unfold sampled_indices, py_range. split.
  - intros Hres.
    assert (Hq : (Z.quot len resolution <= 0)%Z).
    { destruct Hres as [Hneg|Hbig].
      - now apply quot_negative_divisor.
      - rewrite Z.quot_small by lia. lia. }
    rewrite Z.max_l by lia.
    replace (len + 1 - 1)%Z with len by lia. rewrite Z.div_1_r.
    apply map_ext. intros k. lia.
  - intros [Hpos Hle]. rewrite length_map, length_seq.
    rewrite Z.quot_div_nonneg by lia.
    set (q := (len / resolution)%Z).
    assert (Hq : (1 <= q)%Z).
    { unfold q. apply Z.div_le_lower_bound; lia. }
    rewrite Z.max_r by lia.
    pose proof (Z.div_mod len resolution ltac:(lia)) as Hdm. fold q in Hdm.
    pose proof (Z.mod_pos_bound len resolution Hpos) as Hr.
    set (r := (len mod resolution)%Z) in *.
    replace (len + q - 1)%Z with (resolution * q + (r + q - 1))%Z by lia.
    rewrite Z.div_add_l by lia.
    assert (H0 : (0 <= (r + q - 1) / q)%Z) by (apply Z.div_pos; lia).
    assert (H1 : ((r + q - 1) / q < r + 1)%Z).
    { apply Z.div_lt_upper_bound; [lia | nia]. }
    lia.
Qed.

Lemma sampled_indices_count_witness :
  sampled_indices 5 1000 = [0; 1; 2; 3; 4]%Z
  /\ (1000 <= Z.of_nat (length (sampled_indices 1999 1000)) <= 1999)%Z.
Proof.
  split.
  - rewrite (proj1 (@sampled_indices_count 5 1000 ltac:(lia))) by lia.
    reflexivity.
  - apply (proj2 (@sampled_indices_count 1999 1000 ltac:(lia))). lia.
Defined.

(** A resolution of zero is not caught by the [max(1, ...)]: the division
    [length / resolution] fails first, with a ZeroDivisionError, as soon as
    the list starts with a distribution of traces.  An empty list, on the
    other hand, is no error: it yields two empty arrays. *)
Theorem log_prob_edges (print_refresh_rate : R) (duration : nat -> Z -> R)
  (t : Trace) (values rest : list pyobj) :
  log_prob print_refresh_rate duration
    (PyList (PyEmpirical (PyTrace t :: values) :: rest)) 0
  = Raise ZeroDivisionError
  /\ forall resolution,
       log_prob print_refresh_rate duration (PyList []) resolution = Ok ([], []).
Proof.
  split; reflexivity.
Qed.

(** ** Names that no trace knows *)

Lemma foldM_raise {A S : Type} (f : S -> A -> result S) (e : exn) (l : list A)
  (s : S) (a : A) :
  In a l ->
  (forall s1, f s1 a = Raise e) ->
  (forall s1 b, In b l -> (exists s2, f s1 b = Ok s2) \/ f s1 b = Raise e) ->
  foldM f l s = Raise e.
Proof.
  revert s; induction l as [|b l IH]; intros s Hin Ha Hall; [destruct Hin|].
  cbn [foldM]. destruct (Hall s b (or_introl eq_refl)) as [[s2 Hs2]|Hr].
  - rewrite Hs2. cbn [bind]. destruct Hin as [->|Hin].
    + rewrite Ha in Hs2. discriminate.
    + apply IH; [assumption | assumption|].
      intros s1 c Hc. apply Hall. now right.
  - now rewrite Hr.
Qed.

(** [autocorrelations] fails with a KeyError when one of the names asked
    for is not a named variable of the last trace. *)
Theorem autocorrelations_unknown_name (unique_logspace_ints : R -> list Z)
  (t last : Trace) (values : list pyobj) (names : list string) (name : string)
  (lags : option (list Z)) (n_most_frequent : option Z) :
  getitem (PyEmpirical (PyTrace t :: values)) (-1) = Ok (PyTrace last) ->
  In name names ->
  dict_get String.eqb (named_variables last) name = None ->
  autocorrelations unique_logspace_ints (PyEmpirical (PyTrace t :: values))
    (Some names) lags n_most_frequent
  = Raise KeyError.
Proof.
  intros Hlast Hin Hname. unfold autocorrelations.
  cbn [is_Empirical negb]. 
  change (getitem (PyEmpirical (PyTrace t :: values)) 0) with (@Ok pyobj (PyTrace t)).
  cbn [bind is_Trace negb attr_length].
  unfold select_variables, select_by_name.
  rewrite (@foldM_raise _ _ _ KeyError names [] name Hin).
  - reflexivity.
  - intros s1. rewrite Hlast. cbn [bind attr_trace]. now rewrite Hname.
  - intros s1 b _. rewrite Hlast. cbn [bind attr_trace].
    destruct (dict_get String.eqb (named_variables last) b);
      [left; eexists; reflexivity | now right].
Qed.

Lemma autocorrelations_unknown_name_witness :
  autocorrelations (fun _ => [1%Z]) mcmc_chain (Some ["mu"; "sigma"]%string)
    None None
  = Raise KeyError.
Proof.
  apply (@autocorrelations_unknown_name (fun _ => [1%Z]) (trace_of_mu 1)
           (trace_of_mu 2) [PyTrace (trace_of_mu 2)] ["mu"; "sigma"]%string
           "sigma"%string None None eq_refl).
  - right. now left.
  - reflexivity.
Defined.

Lemma foldM_unchanged {A S : Type} (f : S -> A -> result S) (l : list A) (s : S) :
  (forall a, In a l -> f s a = Ok s) -> foldM f l s = Ok s.
Proof.
  induction l as [|a l IH]; intros H; [reflexivity|].
  cbn [foldM]. rewrite (H a (or_introl eq_refl)). cbn [bind].
  apply IH. intros b Hb. apply H. now right.
Qed.

Lemma select_in_trace_unknown (names : list string) (len : Z) (i : nat)
  (t : Trace) (vv : list (key * list npfloat)) :
  (forall name, In name names ->
                dict_get String.eqb (named_variables t) name = None) ->
  select_in_trace (Some names) len i (PyTrace t) vv = Ok vv.
Proof.
  intros H. unfold select_in_trace. cbn [bind].
  apply foldM_unchanged. intros name Hname.
  cbn [attr_trace bind]. now rewrite (H name Hname).
Qed.

Lemma single_trace_dist_values_unknown (traces : list Trace) (names : list string) :
  traces <> [] ->
  (forall t name, In t traces -> In name names ->
                  dict_get String.eqb (named_variables t) name = None) ->
  single_trace_dist_values (Z.of_nat (length traces)) (Some names) None
    (Empirical_of traces)
  = Ok [].
Proof.
  intros Hne H. unfold single_trace_dist_values, Empirical_of.
  destruct traces as [|t0 traces]; [congruence|].
  cbn [is_Empirical negb map getitem py_index Z.ltb Z.compare Z.of_nat length
       Z.to_nat nth_error bind is_Trace attr_length].
  rewrite length_map.
  change (Z.pos (Pos.of_succ_nat (length traces)))
    with (Z.of_nat (length (t0 :: traces))).
  rewrite Z.eqb_refl. cbn [negb].
  unfold select_named. rewrite foldM_unchanged; [reflexivity|].
  intros i Hi. apply in_seq in Hi. rewrite Nat2Z.id in Hi.
  change (PyEmpirical (PyTrace t0 :: map PyTrace traces))
    with (PyEmpirical (map PyTrace (t0 :: traces))).
  unfold get_value. rewrite nth_error_map.
  destruct (nth_error (t0 :: traces) i) as [t|] eqn:Ht.
  2:{ apply nth_error_None in Ht. lia. }
  cbn [option_map bind]. apply select_in_trace_unknown.
  intros name Hname. apply H; [exact (nth_error_In _ _ Ht) | assumption].
Qed.

Lemma gather_unknown (dists : list (list Trace)) (names : list string) (L : nat) :
  1 <= L ->
  Forall (fun traces => length traces = L) dists ->
  (forall traces t name, In traces dists -> In t traces -> In name names ->
                         dict_get String.eqb (named_variables t) name = None) ->
  foldM (fun vv trace =>
           d <- single_trace_dist_values (Z.of_nat L) (Some names) None trace ;;
           merge_dicts vv d)
        (map Empirical_of dists) []
  = Ok [].
Proof.
  intros HL Hlen H. apply foldM_unchanged. intros chain Hchain.
  apply in_map_iff in Hchain as (traces & <- & Hin).
  rewrite Forall_forall in Hlen. rewrite <- (Hlen traces Hin).
  rewrite single_trace_dist_values_unknown.
  - reflexivity.
  - intros ->. specialize (Hlen [] Hin). simpl in Hlen. lia.
  - intros t name Ht Hname. now apply (H traces).
Qed.

Lemma py_index_last {A : Type} (l : list A) (a : A) :
  py_index (l ++ [a]) (-1) = Ok a.
Proof.
  unfold py_index. rewrite length_app. cbn [length Z.ltb Z.compare].
  destruct (Z.ltb_spec (-1 + Z.of_nat (length l + 1)) 0) as [H|_]; [lia|].
  replace (Z.to_nat (-1 + Z.of_nat (length l + 1))) with (length l) by lia.
  rewrite nth_error_app2 by lia. now rewrite Nat.sub_diag.
Qed.

(** [gelman_rubin] does not complain about names that no trace knows: on
    chains of traces of one length it skips them in every trace and returns
    the iteration grid with an empty set of R-hats. *)
Theorem gelman_rubin_unknown_names (unique_logspace_ints : R -> list Z)
  (dists : list (list Trace)) (names : list string) (L : nat) :
  dists <> [] -> 1 <= L ->
  Forall (fun traces => length traces = L) dists ->
  (forall traces t name, In traces dists -> In t traces -> In name names ->
                         dict_get String.eqb (named_variables t) name = None) ->
  gelman_rubin unique_logspace_ints (map Empirical_of dists) (Some names) None
  = Ok (unique_logspace_ints (IZR (Z.of_nat L)), []).
Proof.
  intros Hne HL Hlen H. unfold gelman_rubin.
  destruct dists as [|d0 dists]; [congruence|].
  assert (Hd0 : length d0 = L) by now inversion Hlen.
  cbn [map py_index Z.ltb Z.compare Z.of_nat length Z.to_nat nth_error bind].
  unfold Empirical_of at 1. cbn [attr_length bind].
  rewrite length_map, Hd0.
  change (Empirical_of d0 :: map Empirical_of dists)
    with (map Empirical_of (d0 :: dists)).
  rewrite (gather_unknown names HL Hlen H). cbn [bind].
  destruct (exists_last Hne) as (pre & dl & Hsplit).
  rewrite Hsplit, map_app. cbn [map]. rewrite py_index_last. cbn [bind].
  assert (Hdl : length dl = L).
  { rewrite Forall_forall in Hlen. apply Hlen. rewrite Hsplit.
    apply in_or_app. right. now left. }
  assert (Hal : attr_length (Empirical_of dl) = Ok (Z.of_nat L)).
  { unfold Empirical_of. cbn [attr_length]. now rewrite length_map, Hdl. }
  rewrite Hal. reflexivity.
Qed.

Lemma gelman_rubin_unknown_names_witness :
  gelman_rubin (fun _ => [1; 2]%Z) [chain_a; chain_b] (Some ["sigma"%string]) None
  = Ok ([1; 2]%Z, []).
Proof.
  apply (@gelman_rubin_unknown_names (fun _ => [1; 2]%Z)
           [[trace_of_x_mu 1 1; trace_of_x_mu 2 1];
            [trace_of_x_mu 3 2; trace_of_x_mu 5 2]]
           ["sigma"%string] 2 ltac:(discriminate) ltac:(lia)
           ltac:(repeat constructor)).
  intros traces t name Htraces Ht [<-|[]].
  destruct Htraces as [<-|[<-|[]]];
    (destruct Ht as [<-|[<-|[]]]; reflexivity).
Defined.

(** ** Chains of different lengths *)

(** A chain whose length differs from that of the first chain makes
    [gelman_rubin] fail with a ValueError, once the chains before it were
    read; here for the second chain. *)
Theorem gelman_rubin_length_mismatch (unique_logspace_ints : R -> list Z)
  (first : pyobj) (traces : list Trace) (rest : list pyobj)
  (names : option (list string)) (n_most_frequent : option Z) (len : Z)
  (d : list (key * list npfloat)) (vv : list (key * ndarray)) :
  attr_length first = Ok len ->
  single_trace_dist_values len names n_most_frequent first = Ok d ->
  merge_dicts [] d = Ok vv ->
  traces <> [] ->
  Z.of_nat (length traces) <> len ->
  gelman_rubin unique_logspace_ints (first :: Empirical_of traces :: rest)
    names n_most_frequent
  = Raise ValueError.
Proof.
  intros Hlen Hfirst Hmerge Hne Hdiff. unfold gelman_rubin.
  cbn [py_index length Z.of_nat Z.ltb Z.compare Z.to_nat nth_error bind].
  rewrite Hlen. cbn [bind foldM]. rewrite Hfirst. cbn [bind].
  rewrite Hmerge. cbn [bind].
  assert (Hbad : single_trace_dist_values len names n_most_frequent
                   (Empirical_of traces) = Raise ValueError).
  { unfold single_trace_dist_values, Empirical_of.
    destruct traces as [|t traces]; [congruence|].
    cbn [is_Empirical negb map getitem py_index Z.ltb Z.compare Z.of_nat length
         Z.to_nat nth_error bind is_Trace attr_length].
    rewrite length_map.
    change (Z.pos (Pos.of_succ_nat (length traces)))
      with (Z.of_nat (length (t :: traces))).
    destruct (Z.eqb_spec (Z.of_nat (length (t :: traces))) len) as [E|_];
      [contradiction | reflexivity]. }
  rewrite Hbad. reflexivity.
Qed.

Lemma gelman_rubin_length_mismatch_witness :
  gelman_rubin (fun _ => [1%Z])
    [chain_a; Empirical_of [trace_of_x_mu 3 2]] None None
  = Raise ValueError.
Proof.
  apply (@gelman_rubin_length_mismatch (fun _ => [1%Z]) chain_a
           [trace_of_x_mu 3 2] [] None None 2
           [(("addr_x"%string, Some "x"%string), [Fin 1; Fin 2])]
           [(("addr_x"%string, Some "x"%string), Arr1 [Fin 1; Fin 2])]);
    try reflexivity; discriminate.
Defined.

(** ** What autocorrelations computes *)

Lemma set_nth_splice {A : Type} (src dst : list A) (i : nat) (x : A) :
  nth_error src i = Some x -> i < length dst ->
  set_nth i x (firstn i src ++ skipn i dst)
  = firstn (S i) src ++ skipn (S i) dst.
Proof.
  revert src dst; induction i as [|i IH]; intros src dst Hx Hi.
  - destruct src as [|s src]; [discriminate|].
    destruct dst as [|v dst]; [simpl in Hi; lia|].
    simpl in Hx. inversion Hx; subst. reflexivity.
  - destruct src as [|s src]; [discriminate|].
    destruct dst as [|v dst]; [simpl in Hi; lia|].
    simpl in Hx, Hi. cbn [firstn skipn app set_nth].
    f_equal. apply IH; [assumption | lia].
Qed.

Lemma load_by_address_step (t : Trace) (traces : list Trace) (i : nat)
  (vv : list (key * list npfloat)) :
  nth_error traces i = Some t ->
  (forall kv, In kv vv -> has_scalar_at t (fst (fst kv))
                          /\ length (snd kv) = length traces) ->
  load_by_address (PyTrace t) i
    (map (fun kv => (fst kv, firstn i (series traces (fst (fst kv)))
                             ++ skipn i (snd kv))) vv)
  = Ok (map (fun kv => (fst kv, firstn (S i) (series traces (fst (fst kv)))
                                ++ skipn (S i) (snd kv))) vv).
Proof.
  intros Ht. unfold load_by_address. cbn [attr_trace bind].
  assert (Hi : i < length traces) by (apply nth_error_Some; congruence).
  induction vv as [|kv vv IH]; intros H; [reflexivity|].
  destruct (H kv (or_introl eq_refl)) as [(variable & x & Hget & Hval) Hlen].
  destruct kv as [[a nm] vec]. cbn [fst snd] in Hget, Hlen.
  cbn [map mapM attr_trace bind fst snd]. rewrite Hget, Hval.
  cbn [py_float bind].
  assert (Hx : nth_error (series traces a) i = Some x).
  { unfold series. rewrite nth_error_map, Ht. simpl.
    unfold value_at. now rewrite Hget, Hval. }
  assert (Hvs : vec_set i x (firstn i (series traces a) ++ skipn i vec)
                = Ok (firstn (S i) (series traces a) ++ skipn (S i) vec)).
  { unfold vec_set.
    rewrite length_app, length_firstn, length_skipn.
    unfold series at 1. rewrite length_map.
    destruct (Nat.ltb_spec i (Nat.min i (length traces) + (length vec - i)))
      as [_|Hge]; [|lia].
    now rewrite (set_nth_splice _ _ Hx) by lia. }
  rewrite Hvs. cbn [bind].
  rewrite IH by (intros kv' Hkv'; apply H; now right). reflexivity.
Qed.

Lemma load_all_from (pre traces : list Trace) (vv : list (key * list npfloat)) :
  (forall t kv, In t traces -> In kv vv ->
                has_scalar_at t (fst (fst kv))) ->
  (forall kv, In kv vv -> length (snd kv) = length (pre ++ traces)) ->
  foldM (fun vv i =>
           o <- get_value (Empirical_of (pre ++ traces)) i ;;
           load_by_address o i vv)
        (seq (length pre) (length traces))
        (map (fun kv => (fst kv,
                         firstn (length pre) (series (pre ++ traces) (fst (fst kv)))
                         ++ skipn (length pre) (snd kv))) vv)
  = Ok (map (fun kv => (fst kv, series (pre ++ traces) (fst (fst kv)))) vv).
Proof.
  revert pre; induction traces as [|t traces IH]; intros pre Hscalar Hlen.
  - cbn [length seq foldM]. f_equal. apply map_ext_in. intros kv Hkv. f_equal.
    rewrite app_nil_r in *.
    rewrite skipn_all2 by (apply Nat.eq_le_incl; exact (Hlen kv Hkv)).
    rewrite app_nil_r. apply firstn_all2. unfold series. rewrite length_map. lia.
  - simpl length. cbn [seq foldM].
    assert (Ht : nth_error (pre ++ t :: traces) (length pre) = Some t).
    { rewrite nth_error_app2 by lia. now rewrite Nat.sub_diag. }
    unfold Empirical_of at 1, get_value. rewrite nth_error_map, Ht.
    cbn [option_map bind].
    rewrite (@load_by_address_step t (pre ++ t :: traces) (length pre) vv Ht).
    2:{ intros kv Hkv. split; [apply Hscalar; [now left | assumption]|].
        now apply Hlen. }
    cbn [bind].
    specialize (IH (pre ++ [t])).
    replace (length (pre ++ [t])) with (S (length pre)) in IH
      by (rewrite length_app; simpl; lia).
    rewrite <- app_assoc in IH. cbn [app] in IH.
    apply IH.
    + intros t' kv Ht' Hkv. apply Hscalar; [now right | assumption].
    + exact Hlen.
Qed.

(** When every trace holds a one-element value at each selected address,
    loading fills each vector with the values at its address, trace by
    trace. *)
Lemma load_all_by_address_series (traces : list Trace)
  (vv : list (key * list npfloat)) :
  (forall t kv, In t traces -> In kv vv -> has_scalar_at t (fst (fst kv))) ->
  (forall kv, In kv vv -> length (snd kv) = length traces) ->
  load_all_by_address (Empirical_of traces) (Z.of_nat (length traces)) vv
  = Ok (map (fun kv => (fst kv, series traces (fst (fst kv)))) vv).
Proof.
  intros Hscalar Hlen. unfold load_all_by_address. rewrite Nat2Z.id.
  pose proof (@load_all_from [] traces vv Hscalar Hlen) as H.
  cbn [app length firstn skipn] in H.
  rewrite <- H. f_equal. symmetry. erewrite map_ext; [apply map_id|].
  intros [k v]. reflexivity.
Qed.

Lemma insert_desc_total {A : Type} (cmp : A -> A -> result comparison) (a : A)
  (l : list A) :
  (forall b, In b l -> exists c, cmp a b = Ok c) ->
  exists l', insert_desc cmp a l = Ok l' /\ Permutation l' (a :: l).
Proof.
  induction l as [|b l IH]; intros H.
  - exists [a]. now split.
  - cbn [insert_desc]. destruct (H b (or_introl eq_refl)) as [c ->]. cbn [bind].
    destruct IH as (rest & Hrest & Hperm); [intros b' Hb'; apply H; now right|].
    destruct c.
    + exists (a :: b :: l). now split.
    + rewrite Hrest. cbn [bind]. exists (b :: rest). split; [reflexivity|].
      rewrite Hperm. apply perm_swap.
    + exists (a :: b :: l). now split.
Qed.

Lemma sorted_desc_total {A : Type} (cmp : A -> A -> result comparison) (l : list A) :
  (forall a b, In a l -> In b l -> exists c, cmp a b = Ok c) ->
  exists s, sorted_desc cmp l = Ok s /\ Permutation s l.
Proof.
  induction l as [|a l IH]; intros H.
  - exists []. now split.
  - destruct IH as (s & Hs & Hperm).
    { intros x y Hx Hy. apply H; now right. }
    cbn [sorted_desc]. rewrite Hs. cbn [bind].
    destruct (@insert_desc_total _ cmp a s) as (s' & Hs' & Hperm').
    { intros b Hb. apply H; [now left|]. right.
      now apply (Permutation_in _ Hperm). }
    exists s'. split; [assumption|]. rewrite Hperm'. now constructor.
Qed.

(** Keys that all carry a name can be sorted. *)
Lemma sorted_items_named {V : Type} (d : list (key * V)) :
  (forall kv, In kv d -> snd (fst kv) <> None) ->
  exists s, sorted_items d = Ok s /\ Permutation s d.
Proof.
  intros H. apply sorted_desc_total. intros a b Ha Hb.
  unfold key_compare.
  destruct (String.compare (fst (fst a)) (fst (fst b))); try (eexists; reflexivity).
  pose proof (H a Ha) as Hna. pose proof (H b Hb) as Hnb.
  destruct (snd (fst a)), (snd (fst b)); try congruence.
  eexists; reflexivity.
Qed.

Lemma dict_set_In (d : list (key * list npfloat)) (k : key) (v : list npfloat)
  (kv : key * list npfloat) :
  In kv (dict_set key_eqb d k v) -> In kv d \/ kv = (k, v).
Proof.
  induction d as [|[k0 v0] d IH]; simpl.
  - intros [<-|[]]. now right.
  - destruct (key_eqb k0 k) eqn:E; simpl.
    + intros [<-|H]; [|left; now right].
      right. apply key_eqb_eq in E. now subst.
    + intros [<-|H]; [left; now left|].
      destruct (IH H) as [Hd|Hk]; [left; now right | now right].
Qed.

Lemma select_from_last_trace_entries (last : Trace) (len : Z)
  (kv : key * list npfloat) :
  In kv (select_from_last_trace last len) ->
  snd (fst kv) <> None /\ snd kv = np_zeros len.
Proof.
  unfold select_from_last_trace.
  assert (Hgen : forall l acc,
            (forall kv', In kv' acc ->
                         snd (fst kv') <> None /\ snd kv' = np_zeros len) ->
            In kv (fold_left
                     (fun vv nv =>
                        if negb (observed (snd nv))
                           && (nelement (value (snd nv)) =? 1)%Z
                        then dict_set key_eqb vv (address (snd nv), Some (fst nv))
                               (np_zeros len)
                        else vv) l acc) ->
            snd (fst kv) <> None /\ snd kv = np_zeros len).
  { induction l as [|nv l IH]; intros acc Hacc Hin; [now apply Hacc|].
    cbn [fold_left] in Hin. apply (IH _) in Hin; [exact Hin|].
    intros kv' Hkv'.
    destruct (negb (observed (snd nv)) && (nelement (value (snd nv)) =? 1)%Z);
      [|now apply Hacc].
    apply dict_set_In in Hkv' as [Hold| ->]; [now apply Hacc|].
    split; [discriminate | reflexivity]. }
  apply Hgen. intros kv' [].
Qed.

Lemma fold_left_map_list {A B S : Type} (f : S -> B -> S) (h : A -> B)
  (l : list A) (s : S) :
  fold_left f (map h l) s = fold_left (fun s a => f s (h a)) l s.
Proof.
  revert s; induction l as [|a l IH]; intros s; [reflexivity|].
  simpl. apply IH.
Qed.

Lemma fold_by_address_other {A V : Type} (addr : A -> string) (g : string -> V)
  (l : list A) (d : list (string * V)) (a : string) :
  ~ In a (map addr l) ->
  dict_get String.eqb
    (fold_left (fun d x => dict_set String.eqb d (addr x) (g (addr x))) l d) a
  = dict_get String.eqb d a.
Proof.
  revert d; induction l as [|x l IH]; intros d Hnot; [reflexivity|].
  cbn [fold_left]. rewrite IH by (intros H; apply Hnot; now right).
  apply dict_get_set_other. intros E. apply Hnot. left. exact E.
Qed.

Lemma fold_by_address_in {A V : Type} (addr : A -> string) (g : string -> V)
  (l : list A) (d : list (string * V)) (a : string) :
  In a (map addr l) ->
  dict_get String.eqb
    (fold_left (fun d x => dict_set String.eqb d (addr x) (g (addr x))) l d) a
  = Some (g a).
Proof.
  revert d; induction l as [|x l IH]; intros d Hin; [destruct Hin|].
  cbn [fold_left].
  destruct (in_dec string_dec a (map addr l)) as [Hl|Hnl].
  - now apply IH.
  - rewrite fold_by_address_other by assumption.
    destruct Hin as [<-|Hin]; [|contradiction].
    apply dict_get_set_same.
Qed.

Lemma getitem_last (traces : list Trace) :
  traces <> [] ->
  getitem (Empirical_of traces) (-1) = Ok (PyTrace (last traces bare_trace)).
Proof.
  intros Hne. destruct (exists_last Hne) as (pre & tl & ->).
  rewrite last_last. unfold Empirical_of.
  rewrite getitem_Empirical by (destruct pre; discriminate).
  rewrite map_app. cbn [map]. apply py_index_last.
Qed.

(** With no names and no [n_most_frequent], on a distribution of traces
    whose last trace selects at least one variable and whose traces all hold
    a one-element value at each selected address, [autocorrelations] raises
    nothing: it returns the lags and, for each selected address and for no
    other, the autocorrelation of the series of the values found at that
    address, trace after trace. *)
Theorem autocorrelations_result (unique_logspace_ints : R -> list Z)
  (traces : list Trace) (lags : option (list Z)) :
  traces <> [] ->
  let len := Z.of_nat (length traces) in
  let selected := select_from_last_trace (last traces bare_trace) len in
  let the_lags := match lags with
                  | Some l => l
                  | None => unique_logspace_ints (IZR len / 2)%R
                  end in
  selected <> [] ->
  (forall t kv, In t traces -> In kv selected -> has_scalar_at t (fst (fst kv))) ->
  exists result,
    autocorrelations unique_logspace_ints (Empirical_of traces) None lags None
    = Ok (the_lags, result)
    /\ forall a,
         dict_get String.eqb result a
         = if in_dec string_dec a (map (fun kv => fst (fst kv)) selected)
           then Some (autocorrelation (series traces a) the_lags)
           else None.
Proof.
  intros Hne len selected the_lags Hsel Hscalar.
  destruct (@sorted_items_named _ selected) as (s & Hs & Hperm).
  { intros kv Hkv. now apply (select_from_last_trace_entries _ _ _ Hkv). }
  assert (Hload : load_all_by_address (Empirical_of traces) len s
                  = Ok (map (fun kv => (fst kv, series traces (fst (fst kv)))) s)).
  { apply load_all_by_address_series.
    - intros t kv Ht Hkv. apply Hscalar; [assumption|].
      now apply (Permutation_in _ Hperm).
    - intros kv Hkv. apply (Permutation_in _ Hperm) in Hkv.
      destruct (select_from_last_trace_entries _ _ _ Hkv) as [_ ->].
      unfold np_zeros, len. now rewrite repeat_length, Nat2Z.id. }
  assert (H0 : exists t0, getitem (Empirical_of traces) 0 = Ok (PyTrace t0)).
  { destruct traces as [|t0 ?]; [congruence|]. now exists t0. }
  destruct H0 as (t0 & H0).
  assert (Hal : attr_length (Empirical_of traces) = Ok len).
  { unfold Empirical_of, attr_length. rewrite length_map. reflexivity. }
  assert (Hlen : (length selected =? 0) = false).
  { destruct selected; [congruence | reflexivity]. }
  eexists. split.
  - unfold autocorrelations.
    change (is_Empirical (Empirical_of traces)) with true.
    cbn [negb]. rewrite H0. cbn [bind is_Trace negb]. rewrite Hal. cbn [bind].
    unfold select_variables. rewrite (getitem_last Hne). cbn [bind attr_trace].
    fold selected. rewrite Hlen, Hs. cbn [bind]. rewrite Hload. cbn [bind].
    reflexivity.
  - intros a. rewrite fold_left_map_list. cbn [fst snd].
    destruct (in_dec string_dec a (map (fun kv => fst (fst kv)) selected))
      as [Hin|Hnot].
    + apply (@fold_by_address_in _ _ (fun kv : key * list npfloat => fst (fst kv))
               (fun a => autocorrelation (series traces a) the_lags)).
      apply (Permutation_in _ (Permutation_sym (Permutation_map _ Hperm))).
      exact Hin.
    + rewrite (@fold_by_address_other _ _
                 (fun kv : key * list npfloat => fst (fst kv))
                 (fun a => autocorrelation (series traces a) the_lags));
        [reflexivity|].
      intros Hin. apply Hnot.
      apply (Permutation_in _ (Permutation_map _ Hperm)). exact Hin.
Qed.

Lemma autocorrelations_result_witness :
  exists result,
    autocorrelations (fun _ => [1%Z])
      (Empirical_of [trace_of_mu 1; trace_of_mu 2]) None None None
    = Ok ([1%Z], result)
    /\ forall a,
         dict_get String.eqb result a
         = if in_dec string_dec a ["addr_mu"%string]
           then Some (autocorrelation
                        (series [trace_of_mu 1; trace_of_mu 2] a) [1%Z])
           else None.
Proof.
  apply (@autocorrelations_result (fun _ => [1%Z])
           [trace_of_mu 1; trace_of_mu 2] None).
  - discriminate.
  - discriminate.
  - intros t kv Ht [<-|[]].
    destruct Ht as [<-|[<-|[]]]; eexists; eexists; split; reflexivity.
Defined.

(** ** The shape of what gelman_rubin returns *)

Lemma rhat_length (trace_dist_length : Z) (values : matrix) (iters : list Z)
  (r : list npfloat) :
  rhat trace_dist_length values iters = Ok r -> length r = length iters.
Proof.
  unfold rhat. intros H. now apply mapM_Ok_inv in H.
Qed.

Lemma dict_set_values {V : Type} (d : list (string * V)) (k : string) (v : V)
  (kv : string * V) :
  In kv (dict_set String.eqb d k v) -> In kv d \/ snd kv = v.
Proof.
  induction d as [|[k0 v0] d IH]; simpl.
  - intros [<-|[]]. now right.
  - destruct (String.eqb k0 k); simpl.
    + intros [<-|H]; [now right | left; now right].
    + intros [<-|H]; [left; now left|].
      destruct (IH H) as [Hd|Hv]; [left; now right | now right].
Qed.

(** Whenever [gelman_rubin] returns, whatever the chains and the selection,
    the addresses of the result are distinct and every R-hat vector has one
    entry per iteration count of the returned grid. *)
Theorem gelman_rubin_result_shape (unique_logspace_ints : R -> list Z)
  (trace_dists : list pyobj) (names : option (list string))
  (n_most_frequent : option Z) (iters : list Z)
  (variable_rhats : list (string * list npfloat)) :
  gelman_rubin unique_logspace_ints trace_dists names n_most_frequent
  = Ok (iters, variable_rhats) ->
  NoDup (map fst variable_rhats)
  /\ forall a r, In (a, r) variable_rhats -> length r = length iters.
Proof.
  unfold gelman_rubin. intros H.
  destruct (py_index trace_dists 0) as [first|]; [|discriminate].
  cbn [bind] in H.
  destruct (attr_length first) as [len|]; [|discriminate]. cbn [bind] in H.
  match type of H with
  | context [foldM ?f trace_dists ?s] => destruct (foldM f trace_dists s) as [vv|]
  end; [|discriminate].
  cbn [bind] in H.
  destruct (py_index trace_dists (-1)) as [lst|]; [|discriminate].
  cbn [bind] in H.
  destruct (attr_length lst) as [last_length|]; [|discriminate].
  cbn [bind] in H.
  match type of H with
  | context [mapM ?f ?l] => destruct (mapM f l) as [prepared|]
  end; [|discriminate].
  cbn [bind] in H.
  match type of H with
  | context [foldM ?f prepared ?s] =>
      destruct (foldM f prepared s) as [rhats|] eqn:Hfold
  end; [|discriminate].
  cbn [bind] in H. inversion H; subst iters variable_rhats; clear H.
  revert Hfold.
  apply (foldM_invariant
           (fun d : list (string * list npfloat) =>
              NoDup (map fst d)
              /\ forall a r, In (a, r) d ->
                             length r
                             = length (unique_logspace_ints (IZR last_length)))).
  - split; [constructor | intros a r []].
  - intros d kv d' _ [Hnd Hlen] Hstep.
    destruct (rhat_of len (unique_logspace_ints (IZR last_length)) (snd kv))
      as [r|] eqn:Hr; [|discriminate].
    cbn [bind] in Hstep. inversion Hstep; subst d'; clear Hstep.
    split; [now apply dict_set_NoDup|].
    intros a r' Hin. apply dict_set_values in Hin as [Hold|Hnew].
    + now apply (Hlen a).
    + cbn [snd] in Hnew. subst r'.
      unfold rhat_of in Hr. destruct (snd kv); [discriminate|].
      now apply rhat_length in Hr.
Qed.

(** The two chains [chain_a] and [chain_b], whose [x] runs through [1, 2]
    and [3, 5], at the iteration count 2. *)
Lemma gelman_rubin_two_chains :
  gelman_rubin (fun _ => [2%Z]) [chain_a; chain_b] None None
  = Ok ([2%Z], [("addr_x"%string, [Fin (sqrt 8)])]).
Proof.
  change (gelman_rubin (fun _ => [2%Z]) [chain_a; chain_b] None None)
    with (b <- gelman_rubin_diagnostic (finite_matrix [[1; 2]; [3; 5]]%R) None ;;
          Ok ([2%Z], [("addr_x"%string, [b])])).
  rewrite two_chains_diagnostic. reflexivity.
Qed.

Lemma gelman_rubin_result_shape_witness :
  gelman_rubin (fun _ => [2%Z]) [chain_a; chain_b] None None
  = Ok ([2%Z], [("addr_x"%string, [Fin (sqrt 8)])])
  /\ NoDup (map fst [("addr_x"%string, [Fin (sqrt 8)])])
  /\ forall a r, In (a, r) [("addr_x"%string, [Fin (sqrt 8)])] ->
                 length r = length [2%Z].
Proof.
  split; [exact gelman_rubin_two_chains|].
  exact (@gelman_rubin_result_shape (fun _ => [2%Z]) [chain_a; chain_b]
           None None [2%Z] [("addr_x"%string, [Fin (sqrt 8)])]
           gelman_rubin_two_chains).
Defined.

(** ** Sorting keys of mixed kinds *)

Lemma string_ge_trans (x y z : string) :
  String.compare x y <> Lt -> String.compare y z <> Lt ->
  String.compare x z <> Lt.
Proof.
  intros Hxy Hyz Hxz.
  apply OrderedTypeEx.String_as_OT.cmp_lt in Hxz.
  destruct (String.compare x y) eqn:E; [| congruence |].
  - apply OrderedTypeEx.String_as_OT.cmp_eq in E. subst y.
    apply Hyz. now apply OrderedTypeEx.String_as_OT.cmp_lt.
  - rewrite String.compare_antisym in E.
    destruct (String.compare y x) eqn:E'; try discriminate.
    apply OrderedTypeEx.String_as_OT.cmp_lt in E'.
    apply Hyz. apply OrderedTypeEx.String_as_OT.cmp_lt.
    exact (OrderedTypeEx.String_as_OT.lt_trans _ _ _ E' Hxz).
Qed.

Lemma string_ge_antisym (x y : string) :
  String.compare x y <> Lt -> String.compare y x <> Lt -> x = y.
Proof.
  intros Hxy Hyx. destruct (String.compare x y) eqn:E; [| congruence |].
  - now apply OrderedTypeEx.String_as_OT.cmp_eq.
  - exfalso. apply Hyx. rewrite String.compare_antisym, E. reflexivity.
Qed.

Lemma string_compare_refl (x : string) : String.compare x x = Eq.
Proof. now apply OrderedTypeEx.String_as_OT.cmp_eq. Qed.

Lemma key_compare_Ok_kind (a b : key) (c : comparison) :
  key_compare a b = Ok c -> fst a = fst b -> same_kind (snd a) (snd b) = true.
Proof.
  unfold key_compare. intros H E. rewrite E, string_compare_refl in H.
  destruct (snd a), (snd b); (reflexivity || discriminate).
Qed.

Lemma key_compare_Lt_address (a b : key) :
  key_compare a b = Ok Lt -> String.compare (fst b) (fst a) <> Lt.
Proof.
  unfold key_compare. intros H E.
  rewrite String.compare_antisym, E in H. discriminate.
Qed.

Lemma key_compare_not_Lt_address (a b : key) (c : comparison) :
  key_compare a b = Ok c -> c <> Lt -> String.compare (fst a) (fst b) <> Lt.
Proof.
  unfold key_compare. intros H Hc E. rewrite E in H.
  inversion H. congruence.
Qed.

Lemma key_compare_raises (a b : key) (e : exn) :
  key_compare a b = Raise e -> e = TypeError.
Proof.
  unfold key_compare, name_compare.
  destruct (String.compare (fst a) (fst b)); try discriminate.
  destruct (snd a), (snd b); intros H; now inversion H.
Qed.

Lemma key_compare_same_kind (a b : key) :
  (fst a = fst b -> same_kind (snd a) (snd b) = true) ->
  exists c, key_compare a b = Ok c.
Proof.
  unfold key_compare. intros H.
  destruct (String.compare (fst a) (fst b)) eqn:E; try (eexists; reflexivity).
  apply OrderedTypeEx.String_as_OT.cmp_eq in E. specialize (H E).
  destruct (snd a), (snd b); try discriminate; eexists; reflexivity.
Qed.

Lemma same_kind_trans (a b c : option string) :
  same_kind a b = true -> same_kind b c = true -> same_kind a c = true.
Proof. destruct a, b, c; simpl; congruence. Qed.

Lemma same_kind_sym (a b : option string) : same_kind a b = same_kind b a.
Proof. now destruct a, b. Qed.

Lemma insert_desc_raises {V : Type} (a : key * V) (l : list (key * V)) (e : exn) :
  insert_desc (fun a b => key_compare (fst a) (fst b)) a l = Raise e ->
  e = TypeError.
Proof.
  induction l as [|b l IH]; [discriminate|]. cbn [insert_desc].
  destruct (key_compare (fst a) (fst b)) as [c|e'] eqn:E; cbn [bind].
  - destruct c; try discriminate.
    destruct (insert_desc _ a l) as [rest|e'']; cbn [bind]; [discriminate|].
    intros H; inversion H; subst. now apply IH.
  - intros H; inversion H; subst. exact (key_compare_raises _ _ E).
Qed.

Lemma sorted_items_raises {V : Type} (d : list (key * V)) (e : exn) :
  sorted_items d = Raise e -> e = TypeError.
Proof.
  unfold sorted_items. induction d as [|a d IH]; [discriminate|].
  cbn [sorted_desc].
  destruct (sorted_desc _ d) as [s|e']; cbn [bind].
  - apply insert_desc_raises.
  - intros H; inversion H; subst. now apply IH.
Qed.

(** Inserting into a list in descending order of address keeps it so, and
    succeeds only if the new entry clashes with none of the list. *)
Lemma insert_desc_sorted {V : Type} (a : key * V) (s s' : list (key * V)) :
  StronglySorted address_ge s ->
  (forall x y, In x s -> In y s -> ~ clash x y) ->
  insert_desc (fun a b => key_compare (fst a) (fst b)) a s = Ok s' ->
  StronglySorted address_ge s'
  /\ Permutation s' (a :: s)
  /\ forall y, In y s -> ~ clash a y.
Proof.
  revert s'. induction s as [|b l IH]; intros s' Hsorted Hclean H.
  - inversion H; subst. repeat split.
    + repeat constructor.
    + reflexivity.
    + intros y [].
  - cbn [insert_desc] in H.
    destruct (key_compare (fst a) (fst b)) as [c|] eqn:E; [|discriminate].
    cbn [bind] in H. inversion Hsorted as [|? ? Hl Hb]; subst.
    assert (Hab : ~ clash a b).
    { intros [Haddr Hkind]. rewrite (key_compare_Ok_kind _ _ E Haddr) in Hkind.
      discriminate. }
    assert (Hstop : c <> Lt ->
                    StronglySorted address_ge (a :: b :: l)
                    /\ Permutation (a :: b :: l) (a :: b :: l)
                    /\ forall y, In y (b :: l) -> ~ clash a y).
    { intros Hc.
      pose proof (key_compare_not_Lt_address _ _ E Hc) as Hge.
      repeat split.
      - constructor; [assumption|]. constructor; [exact Hge|].
        rewrite Forall_forall in Hb |- *. intros y Hy.
        exact (string_ge_trans _ _ _ Hge (Hb y Hy)).
      - reflexivity.
      - intros y [<-|Hy]; [exact Hab|]. intros [Haddr Hkind].
        rewrite Forall_forall in Hb. pose proof (Hb y Hy) as Hby.
        unfold address_ge in Hby. rewrite <- Haddr in Hby.
        pose proof (string_ge_antisym _ _ Hge Hby) as Eab.
        pose proof (key_compare_Ok_kind _ _ E Eab) as Kab.
        assert (Kby : same_kind (snd (fst b)) (snd (fst y)) = true).
        { destruct (same_kind (snd (fst b)) (snd (fst y))) eqn:K; [reflexivity|].
          exfalso. apply (Hclean b y); [now left | now right |].
          split; [congruence | exact K]. }
        rewrite (same_kind_trans _ _ _ Kab Kby) in Hkind. discriminate. }
    destruct c.
    + inversion H; subst. exact (Hstop ltac:(discriminate)).
    + destruct (insert_desc _ a l) as [rest|] eqn:Hrest; [|discriminate].
      cbn [bind] in H. inversion H; subst; clear H.
      destruct (IH rest Hl) as (Hs & Hp & Hc); [|reflexivity|].
      { intros x y Hx Hy. apply Hclean; now right. }
      repeat split.
      * constructor; [assumption|]. rewrite Forall_forall. intros y Hy.
        apply (Permutation_in _ Hp) in Hy. destruct Hy as [<-|Hy].
        -- exact (key_compare_Lt_address _ _ E).
        -- rewrite Forall_forall in Hb. now apply Hb.
      * rewrite Hp. apply perm_swap.
      * intros y [<-|Hy]; [exact Hab | now apply Hc].
    + inversion H; subst. exact (Hstop ltac:(discriminate)).
Qed.

Lemma clash_sym {V : Type} (x y : key * V) : clash x y -> clash y x.
Proof.
  intros [Ha Hk]. split; [now symmetry | now rewrite same_kind_sym].
Qed.

Lemma clash_irrefl {V : Type} (x : key * V) : ~ clash x x.
Proof.
  intros [_ Hk]. destruct (snd (fst x)); discriminate.
Qed.

Lemma sorted_items_Ok_inv {V : Type} (d s : list (key * V)) :
  sorted_items d = Ok s ->
  StronglySorted address_ge s
  /\ Permutation s d
  /\ forall x y, In x d -> In y d -> ~ clash x y.
Proof.
  unfold sorted_items. revert s. induction d as [|a d IH]; intros s H.
  - inversion H; subst. repeat split; [constructor | reflexivity |].
    intros x y [].
  - cbn [sorted_desc] in H.
    destruct (sorted_desc _ d) as [s0|] eqn:Hs0; [|discriminate].
    cbn [bind] in H. destruct (IH s0 eq_refl) as (Hsorted & Hperm & Hclean).
    destruct (@insert_desc_sorted _ a s0 s Hsorted) as (Hs & Hp & Hc);
      [|exact H|].
    { intros x y Hx Hy.
      apply Hclean; now apply (Permutation_in _ Hperm). }
    repeat split; [exact Hs | now rewrite Hp, Hperm |].
    assert (Ha : forall y, In y d -> ~ clash a y).
    { intros y Hy. apply Hc.
      now apply (Permutation_in _ (Permutation_sym Hperm)). }
    intros x y [<-|Hx] [<-|Hy].
    + apply clash_irrefl.
    + now apply Ha.
    + intros Hxy. apply (Ha x Hx). now apply clash_sym.
    + now apply Hclean.
Qed.

(** [sorted(variable_values.items(), reverse=True)] raises [TypeError]
    exactly when an address sits in the dictionary once under a name and
    once under [None] (a named variable that is also one of the most
    frequent addresses); otherwise it returns the entries rearranged, the
    addresses in descending order. *)
Theorem sorted_items_mixed_names {V : Type} (d : list (key * V)) :
  (mixed_names d -> sorted_items d = Raise TypeError)
  /\ (~ mixed_names d ->
      exists s, sorted_items d = Ok s
                /\ Permutation s d
                /\ StronglySorted address_ge s).
Proof.
  split.
  - intros (x & y & Hx & Hy & Hxy).
    destruct (sorted_items d) as [s|e] eqn:E.
    + exfalso.
      destruct (sorted_items_Ok_inv _ E) as (_ & _ & Hclean).
      exact (Hclean x y Hx Hy Hxy).
    + now rewrite (sorted_items_raises _ E).
  - intros Hclean.
    destruct (@sorted_desc_total _
                (fun a b : key * V => key_compare (fst a) (fst b)) d)
      as (s & Hs & Hperm).
    { intros a b Ha Hb. apply key_compare_same_kind. intros Haddr.
      destruct (same_kind (snd (fst a)) (snd (fst b))) eqn:K; [reflexivity|].
      exfalso. apply Hclean. exists a, b. repeat split; assumption. }
    exists s. split; [exact Hs|]. split; [exact Hperm|].
    now destruct (sorted_items_Ok_inv _ Hs) as (Hsorted & _).
Qed.

(** The dictionary [autocorrelations] builds on [mcmc_chain] when asked for
    the most frequent address as well: [mu] is there under its name and,
    being controlled and present in every trace, once more under [None]. *)
Lemma sorted_items_mixed_names_witness :
  select_variables mcmc_chain 2 None (Some 1%Z)
  = Ok [(("addr_mu"%string, Some "mu"%string), np_zeros 2);
        (("addr_mu"%string, None), np_zeros 2)]
  /\ sorted_items [(("addr_mu"%string, Some "mu"%string), np_zeros 2);
                   (("addr_mu"%string, None), np_zeros 2)]
     = Raise TypeError
  /\ exists s,
       sorted_items [(("addr_mu"%string, Some "mu"%string), np_zeros 2)] = Ok s
       /\ Permutation s [(("addr_mu"%string, Some "mu"%string), np_zeros 2)]
       /\ StronglySorted address_ge s.
Proof.
  split; [reflexivity|]. split.
  - apply (proj1 (sorted_items_mixed_names _)).
    exists (("addr_mu"%string, None), np_zeros 2),
           (("addr_mu"%string, Some "mu"%string), np_zeros 2).
    repeat split; simpl; auto.
  - apply (proj2 (sorted_items_mixed_names _)).
    intros (x & y & [<-|[]] & [<-|[]] & _ & Hk). discriminate.
Defined.

(** ** gelman_rubin from end to end *)

Section DictFacts.
Variables (K V : Type) (eqb : K -> K -> bool).
Hypothesis eqb_spec : forall a b, eqb a b = true <-> a = b.

Lemma dict_get_set_eq (d : list (K * V)) (k : K) (v : V) :
  dict_get eqb (dict_set eqb d k v) k = Some v.
Proof.
  induction d as [|[k0 v0] d IH]; simpl.
  - now rewrite (proj2 (eqb_spec k k) eq_refl).
  - destruct (eqb k0 k) eqn:E; simpl; rewrite E; [reflexivity | exact IH].
Qed.

Lemma dict_get_set_neq (d : list (K * V)) (k k' : K) (v : V) :
  k <> k' -> dict_get eqb (dict_set eqb d k v) k' = dict_get eqb d k'.
Proof.
  intros Hne. induction d as [|[k0 v0] d IH]; simpl.
  - destruct (eqb k k') eqn:E; [|reflexivity].
    apply eqb_spec in E. contradiction.
  - destruct (eqb k0 k) eqn:E; simpl.
    + apply eqb_spec in E. subst k0.
      destruct (eqb k k') eqn:E'; [|reflexivity].
      apply eqb_spec in E'. contradiction.
    + now rewrite IH.
Qed.

Lemma dict_get_keys (d : list (K * V)) (k : K) :
  In k (map fst d) <-> dict_get eqb d k <> None.
Proof.
  induction d as [|[k0 v0] d IH]; simpl; [tauto|].
  destruct (eqb k0 k) eqn:E.
  - apply eqb_spec in E. split; [discriminate | now left].
  - rewrite <- IH. split; [|tauto].
    intros [Heq|H]; [|exact H]. subst k0.
    rewrite (proj2 (eqb_spec k k) eq_refl) in E. discriminate.
Qed.

Lemma dict_get_Some_In (d : list (K * V)) (k : K) (v : V) :
  dict_get eqb d k = Some v -> In (k, v) d.
Proof.
  induction d as [|[k0 v0] d IH]; simpl; [discriminate|].
  destruct (eqb k0 k) eqn:E.
  - apply eqb_spec in E. intros H; inversion H; subst. now left.
  - intros H. right. now apply IH.
Qed.

Lemma dict_In_get (d : list (K * V)) (k : K) (v : V) :
  NoDup (map fst d) -> In (k, v) d -> dict_get eqb d k = Some v.
Proof.
  induction d as [|[k0 v0] d IH]; simpl; [tauto|].
  intros Hnd [Heq|Hin]; inversion Hnd as [|? ? Hnot Hnd']; subst.
  - inversion Heq; subst. now rewrite (proj2 (eqb_spec k k) eq_refl).
  - destruct (eqb k0 k) eqn:E; [|now apply IH].
    apply eqb_spec in E. subst k0. exfalso. apply Hnot.
    change k with (fst (k, v)). now apply in_map.
Qed.

Lemma dict_set_entries (d : list (K * V)) (k : K) (v : V) (kv : K * V) :
  In kv (dict_set eqb d k v) -> In kv d \/ kv = (k, v).
Proof.
  induction d as [|[k0 v0] d IH]; simpl.
  - intros [<-|[]]. now right.
  - destruct (eqb k0 k) eqn:E; simpl.
    + intros [<-|H]; [|left; now right].
      right. apply eqb_spec in E. now subst.
    + intros [<-|H]; [left; now left|].
      destruct (IH H) as [Hd|Hk]; [left; now right | now right].
Qed.

Lemma dict_set_keys_NoDup (d : list (K * V)) (k : K) (v : V) :
  NoDup (map fst d) -> NoDup (map fst (dict_set eqb d k v)).
Proof.
  induction d as [|[k0 v0] d IH]; simpl; intros Hnd.
  - repeat constructor. intros [].
  - inversion Hnd as [|? ? Hnot Hnd']; subst.
    destruct (eqb k0 k) eqn:E; simpl; [now constructor|].
    constructor; [|now apply IH].
    intros Hin. apply in_map_iff in Hin as ([k1 v1] & Hk1 & Hin). simpl in Hk1.
    subst k1. apply dict_set_entries in Hin as [Hin|Heq].
    + apply Hnot. change k0 with (fst (k0, v1)). now apply in_map.
    + inversion Heq; subst.
      rewrite (proj2 (eqb_spec k k) eq_refl) in E. discriminate.
Qed.

Lemma dict_set_key_in (d : list (K * V)) (k : K) (v : V) (k' : K) :
  In k' (map fst (dict_set eqb d k v)) <-> In k' (map fst d) \/ k' = k.
Proof.
  rewrite !dict_get_keys.
  destruct (eqb k k') eqn:E.
  - apply eqb_spec in E. subst k'. rewrite dict_get_set_eq.
    split; [now right | discriminate].
  - assert (Hne : k <> k').
    { intros ->. rewrite (proj2 (eqb_spec k' k') eq_refl) in E. discriminate. }
    rewrite (dict_get_set_neq _ _ Hne). split; [now left|].
    intros [H|H]; [exact H | congruence].
Qed.

End DictFacts.

Lemma key_eqb_spec (a b : key) : key_eqb a b = true <-> a = b.
Proof.
  split; [apply key_eqb_eq|]. intros ->. destruct b as [b1 [b2|]];
    unfold key_eqb; simpl; now rewrite ?String.eqb_refl.
Qed.

Lemma dict_set_twice {K V : Type} (eqb : K -> K -> bool)
  (Hspec : forall a b, eqb a b = true <-> a = b)
  (d : list (K * V)) (k : K) (a b : V) :
  dict_set eqb (dict_set eqb d k a) k b = dict_set eqb d k b.
Proof.
  induction d as [|[k0 v0] d IH]; simpl.
  - now rewrite (proj2 (Hspec k k) eq_refl).
  - destruct (eqb k0 k) eqn:E; simpl; rewrite E; [reflexivity | now rewrite IH].
Qed.

Lemma set_nth_length {A : Type} (i : nat) (a : A) (l : list A) :
  length (set_nth i a l) = length l.
Proof.
  revert i; induction l as [|b l IH]; intros [|i]; simpl; auto.
Qed.

Lemma set_nth_In {A : Type} (i : nat) (a : A) (l : list A) :
  i < length l -> In a (set_nth i a l).
Proof.
  revert i; induction l as [|b l IH]; intros [|i] H; simpl in *; try lia.
  - now left.
  - right. apply IH. lia.
Qed.

Lemma first_present_In (row : list npfloat) (v : npfloat) :
  In v row -> isnan v = false -> first_present row <> None.
Proof.
  induction row as [|u row IH]; intros Hin Hv; [destruct Hin|].
  simpl. destruct (isnan u) eqn:Hu; [|discriminate].
  destruct Hin as [->|Hin]; [congruence|].
  specialize (IH Hin Hv). destruct (first_present row); [discriminate|congruence].
Qed.

Lemma first_present_lt (row : list npfloat) (j : nat) :
  first_present row = Some j -> j < length row.
Proof.
  intros H. destruct (first_present_spec _ H) as (_ & v & Hv & _).
  apply nth_error_Some. congruence.
Qed.

Lemma nan_vector_length (L : nat) : length (nan_vector (Z.of_nat L)) = L.
Proof. unfold nan_vector. now rewrite repeat_length, Nat2Z.id. Qed.

Lemma chain_inv_set (L i : nat) (vv : list (key * list npfloat)) (k : key)
  (x : npfloat) (values : list npfloat) :
  chain_inv L vv -> i < L -> length values = L -> isnan x = false ->
  chain_inv L (dict_set key_eqb vv k (set_nth i x values)).
Proof.
  intros [Hnd Hrows] Hi Hlen Hx. split.
  - now apply (dict_set_keys_NoDup key_eqb key_eqb_spec).
  - intros kv Hin. apply (dict_set_entries key_eqb key_eqb_spec) in Hin as [Hin| ->].
    + now apply Hrows.
    + cbn [snd]. rewrite set_nth_length. split; [exact Hlen|].
      apply (@first_present_In _ x); [|exact Hx].
      apply set_nth_In. lia.
Qed.

(** The loop over the names of one trace. *)
Lemma select_names_ok (L i : nat) (t : Trace) (l : list string)
  (vv : list (key * list npfloat)) :
  i < L -> samples_are_numbers t -> chain_inv L vv ->
  exists vv',
    foldM (fun vv name =>
             trace <- attr_trace (PyTrace t) ;;
             match dict_get String.eqb (named_variables trace) name with
             | None => Ok vv
             | Some variable =>
                 if negb (control variable) && (nelement (value variable) =? 1)%Z
                 then
                   let k := (address variable, Some name) in
                   let vv1 := if dict_mem key_eqb vv k then vv
                              else dict_set key_eqb vv k (nan_vector (Z.of_nat L)) in
                   a <- py_float (value variable) ;;
                   match dict_get key_eqb vv1 k with
                   | None => Raise KeyError
                   | Some values =>
                       values' <- vec_set i a values ;;
                       Ok (dict_set key_eqb vv1 k values')
                   end
                 else Ok vv
             end)
          l vv = Ok vv'
    /\ chain_inv L vv'
    /\ forall k,
         In k (map fst vv')
         <-> In k (map fst vv)
             \/ exists name variable,
                  In name l
                  /\ dict_get String.eqb (named_variables t) name = Some variable
                  /\ control variable = false
                  /\ nelement (value variable) = 1%Z
                  /\ k = (address variable, Some name).
Proof.
  intros Hi Hnum. revert vv. induction l as [|name l IH]; intros vv Hinv.
  - exists vv. split; [reflexivity|]. split; [exact Hinv|].
    intros k. split; [now left|]. intros [H|(? & ? & [] & _)]. exact H.
  - cbn [foldM attr_trace bind].
    destruct (dict_get String.eqb (named_variables t) name) as [variable|] eqn:Hget.
    2:{ cbn [bind]. destruct (IH vv Hinv) as (vv' & Hrun & Hinv' & Hkeys).
        exists vv'. split; [exact Hrun|]. split; [exact Hinv'|].
        intros k. rewrite Hkeys. split; (intros [H|H]; [now left|right]).
        - destruct H as (n & v & Hn & H). exists n, v. split; [now right|exact H].
        - destruct H as (n & v & [<-|Hn] & Hg & H); [congruence|].
          exists n, v. tauto. }
    destruct (negb (control variable) && (nelement (value variable) =? 1)%Z) eqn:Hq.
    2:{ cbn [bind]. destruct (IH vv Hinv) as (vv' & Hrun & Hinv' & Hkeys).
        exists vv'. split; [exact Hrun|]. split; [exact Hinv'|].
        intros k. rewrite Hkeys. split; (intros [H|H]; [now left|right]).
        - destruct H as (n & v & Hn & H). exists n, v. split; [now right|exact H].
        - destruct H as (n & v & [<-|Hn] & Hg & Hc & Hne & Hk).
          + exfalso. rewrite Hget in Hg. inversion Hg; subst v.
            rewrite Hc in Hq. apply Z.eqb_eq in Hne. rewrite Hne in Hq.
            discriminate.
          + exists n, v. tauto. }
    apply andb_true_iff in Hq as [Hc Hne].
    apply negb_true_iff in Hc. apply Z.eqb_eq in Hne.
    assert (Hval : exists x, value variable = [x]).
    { unfold nelement in Hne. destruct (value variable) as [|x [|y rest]];
        simpl in Hne; try lia. now exists x. }
    destruct Hval as [x Hval].
    pose proof (Hnum name variable x Hget Hc Hval) as Hx.
    set (k := (address variable, Some name)).
    assert (Hstep : exists values,
               length values = L
               /\ (a <- py_float (value variable) ;;
                   match dict_get key_eqb
                           (if dict_mem key_eqb vv k then vv
                            else dict_set key_eqb vv k (nan_vector (Z.of_nat L))) k
                   with
                   | None => Raise KeyError
                   | Some values =>
                       values' <- vec_set i a values ;;
                       Ok (dict_set key_eqb
                             (if dict_mem key_eqb vv k then vv
                              else dict_set key_eqb vv k (nan_vector (Z.of_nat L)))
                             k values')
                   end)
                  = Ok (dict_set key_eqb vv k (set_nth i x values))).
    { rewrite Hval. cbn [py_float bind]. unfold dict_mem.
      destruct (dict_get key_eqb vv k) as [values|] eqn:Hk.
      - exists values. rewrite Hk.
        assert (Hlen : length values = L).
        { apply (dict_get_Some_In key_eqb key_eqb_spec) in Hk.
          now destruct (proj2 Hinv _ Hk). }
        split; [exact Hlen|]. unfold vec_set.
        replace (i <? length values) with true
          by (symmetry; apply Nat.ltb_lt; lia).
        reflexivity.
      - exists (nan_vector (Z.of_nat L)).
        split; [apply nan_vector_length|].
        rewrite (dict_get_set_eq key_eqb key_eqb_spec). unfold vec_set.
        rewrite nan_vector_length.
        replace (i <? L) with true by (symmetry; apply Nat.ltb_lt; lia).
        cbn [bind]. now rewrite (dict_set_twice key_eqb key_eqb_spec). }
    destruct Hstep as (values & Hlen & Hstep).
    cbv zeta. fold k. rewrite Hstep. cbn [bind].
    destruct (IH (dict_set key_eqb vv k (set_nth i x values)))
      as (vv' & Hrun & Hinv' & Hkeys).
    { now apply chain_inv_set. }
    exists vv'. split; [exact Hrun|]. split; [exact Hinv'|].
    intros k'. rewrite Hkeys, (dict_set_key_in key_eqb key_eqb_spec).
    split.
    + intros [[H| ->]|H]; [now left | right | right].
      * exists name, variable. repeat split; (assumption || now left).
      * destruct H as (n & v & Hn & H). exists n, v. split; [now right|exact H].
    + intros [H|(n & v & [<-|Hn] & Hg & H)]; [left; now left | |].
      * left. right. rewrite Hget in Hg. inversion Hg; subst v. tauto.
      * right. exists n, v. tauto.
Qed.

Lemma string_eqb_spec (a b : string) : String.eqb a b = true <-> a = b.
Proof. apply String.eqb_eq. Qed.

(** One trace of a chain: the keys it adds are those it stores. *)
Lemma select_in_trace_ok (names : option (list string)) (L i : nat) (t : Trace)
  (vv : list (key * list npfloat)) :
  i < L -> samples_are_numbers t -> chain_inv L vv ->
  exists vv',
    select_in_trace names (Z.of_nat L) i (PyTrace t) vv = Ok vv'
    /\ chain_inv L vv'
    /\ forall k,
         In k (map fst vv')
         <-> In k (map fst vv) \/ (admitted (PyTrace t) k /\ picked names k).
Proof.
  intros Hi Hnum Hinv. unfold select_in_trace.
  destruct names as [l|]; cbn [attr_trace bind].
  - destruct (@select_names_ok L i t l vv Hi Hnum Hinv)
      as (vv' & Hrun & Hinv' & Hkeys).
    exists vv'. split; [exact Hrun|]. split; [exact Hinv'|].
    intros k. rewrite Hkeys. split; (intros [H|H]; [now left|right]).
    + destruct H as (n & v & Hn & Hg & Hc & Hne & ->).
      split; [|exact Hn]. exists t, n, v. tauto.
    + destruct H as [(t' & n & v & Ht & Hg & Hc & Hne & ->) Hp].
      inversion Ht; subst t'. exists n, v. cbn in Hp. tauto.
  - destruct (@select_names_ok L i t (map fst (named_variables t)) vv Hi Hnum Hinv)
      as (vv' & Hrun & Hinv' & Hkeys).
    exists vv'. split; [exact Hrun|]. split; [exact Hinv'|].
    intros k. rewrite Hkeys. split; (intros [H|H]; [now left|right]).
    + destruct H as (n & v & Hn & Hg & Hc & Hne & ->).
      split; [|exact I]. exists t, n, v. tauto.
    + destruct H as [(t' & n & v & Ht & Hg & Hc & Hne & ->) _].
      inversion Ht; subst t'. exists n, v. split; [|tauto].
      apply (dict_get_keys String.eqb string_eqb_spec). congruence.
Qed.

(** The traces of a chain from index [n] on. *)
Lemma select_named_from (names : option (list string)) (traces : list Trace)
  (L : nat) (post : list Trace) :
  forall (n : nat) (vv : list (key * list npfloat)),
    (forall j t, nth_error post j = Some t -> nth_error traces (n + j) = Some t) ->
    n + length post <= L ->
    (forall t, In t post -> samples_are_numbers t) ->
    chain_inv L vv ->
    exists vv',
      foldM (fun vv i =>
               o <- get_value (Empirical_of traces) i ;;
               select_in_trace names (Z.of_nat L) i o vv)
            (seq n (length post)) vv = Ok vv'
      /\ chain_inv L vv'
      /\ forall k,
           In k (map fst vv')
           <-> In k (map fst vv) \/ stored_in_chain names post k.
Proof.
  induction post as [|t post IH]; intros n vv Hnth Hlen Hnum Hinv.
  - exists vv. split; [reflexivity|]. split; [exact Hinv|].
    intros k. split; [now left|]. intros [H|(? & [] & _)]. exact H.
  - cbn [length seq foldM].
    assert (Hget : get_value (Empirical_of traces) n = Ok (PyTrace t)).
    { unfold get_value, Empirical_of. rewrite nth_error_map.
      pose proof (Hnth 0 t eq_refl) as H0. rewrite Nat.add_0_r in H0.
      now rewrite H0. }
    rewrite Hget. cbn [bind]. cbn [length] in Hlen.
    destruct (@select_in_trace_ok names L n t vv) as (vv1 & Hrun & Hinv1 & Hkeys1);
      [lia | apply Hnum; now left | exact Hinv |].
    rewrite Hrun. cbn [bind].
    destruct (IH (S n) vv1) as (vv' & Hrun' & Hinv' & Hkeys');
      [| lia | intros t' Ht'; apply Hnum; now right | exact Hinv1 |].
    { intros j t' Hj. replace (S n + j) with (n + S j) by lia.
      now apply Hnth. }
    exists vv'. split; [exact Hrun'|]. split; [exact Hinv'|].
    intros k. rewrite Hkeys', Hkeys1. split.
    + intros [[H|[Ha Hp]]|(t' & Ht' & H)]; [now left | right | right].
      * exists t. split; [now left | tauto].
      * exists t'. split; [now right | exact H].
    + intros [H|(t' & [<-|Ht'] & H)]; [left; now left | left; now right |].
      right. exists t'. tauto.
Qed.

Lemma chain_inv_Permutation (L : nat) (d s : list (key * list npfloat)) :
  Permutation s d -> chain_inv L d -> chain_inv L s.
Proof.
  intros Hperm [Hnd Hrows]. split.
  - apply (Permutation_NoDup (l := map fst d)); [|exact Hnd].
    apply Permutation_map. now symmetry.
  - intros kv Hin. apply Hrows. now apply (Permutation_in _ Hperm).
Qed.

(** A chain of [L >= 1] traces whose samples are not NaN: the dictionary
    of the chain holds exactly the keys stored in it. *)
Lemma single_trace_dist_values_ok (names : option (list string))
  (traces : list Trace) (L : nat) :
  length traces = L -> 1 <= L ->
  (forall t, In t traces -> samples_are_numbers t) ->
  exists d,
    single_trace_dist_values (Z.of_nat L) names None (Empirical_of traces) = Ok d
    /\ chain_inv L d
    /\ forall k, In k (map fst d) <-> stored_in_chain names traces k.
Proof.
  intros Hlen HL Hnum.
  destruct (@select_named_from names traces L traces 0 [])
    as (vv & Hrun & Hinv & Hkeys).
  { intros j t Hj. exact Hj. }
  { lia. }
  { exact Hnum. }
  { split; [constructor | intros kv []]. }
  destruct (@sorted_items_named _ vv) as (s & Hs & Hperm).
  { intros kv Hkv.
    assert (Hk : In (fst kv) (map fst vv)) by now apply in_map.
    apply Hkeys in Hk as [[]|(t & _ & (t' & n & v & _ & _ & _ & _ & ->) & _)].
    discriminate. }
  exists s. split; [|split].
  - unfold single_trace_dist_values.
    change (is_Empirical (Empirical_of traces)) with true. cbn [negb].
    assert (H0 : exists t0, getitem (Empirical_of traces) 0 = Ok (PyTrace t0)).
    { destruct traces as [|t0 rest]; [simpl in Hlen; lia|]. now exists t0. }
    destruct H0 as (t0 & H0). rewrite H0. cbn [bind is_Trace negb].
    assert (Hal : attr_length (Empirical_of traces) = Ok (Z.of_nat L)).
    { unfold Empirical_of, attr_length. now rewrite length_map, Hlen. }
    rewrite Hal. cbn [bind]. rewrite Z.eqb_refl. cbn [negb].
    unfold select_named. rewrite Nat2Z.id. rewrite Hlen in Hrun.
    rewrite Hrun. cbn [bind]. exact Hs.
  - exact (chain_inv_Permutation Hperm Hinv).
  - intros k. split.
    + intros Hin. apply (Permutation_in _ (Permutation_map fst Hperm)) in Hin.
      apply Hkeys in Hin as [[]|H]. exact H.
    + intros H.
      apply (Permutation_in _ (Permutation_sym (Permutation_map fst Hperm))).
      apply Hkeys. now right.
Qed.

(** ** Merging the dictionaries of the chains *)

Lemma merge_dicts_collect (L : nat) (d2 : list (key * list npfloat)) :
  forall (d1 : list (key * ndarray)) (R : key -> matrix),
    NoDup (map fst d1) ->
    (forall k, dict_get key_eqb d1 k = to_array (R k)) ->
    (forall k, Forall (fun row => length row = L) (R k)) ->
    NoDup (map fst d2) ->
    (forall kv, In kv d2 -> length (snd kv) = L) ->
    exists d',
      merge_dicts d1 d2 = Ok d'
      /\ NoDup (map fst d')
      /\ forall k,
           dict_get key_eqb d' k
           = to_array (R k ++ match dict_get key_eqb d2 k with
                              | Some v => [v]
                              | None => []
                              end).
Proof.
  unfold merge_dicts.
  induction d2 as [|[k v] d2 IH]; intros d1 R Hnd1 Hget Hrows Hnd2 Hlen.
  - exists d1. split; [reflexivity|]. split; [exact Hnd1|].
    intros k. cbn [dict_get]. now rewrite app_nil_r.
  - cbn [foldM fst snd].
    assert (Hv : length v = L) by exact (Hlen (k, v) (or_introl eq_refl)).
    assert (Hstep : exists a',
               match dict_get key_eqb d1 k with
               | Some a => a' <- vstack a v ;; Ok (dict_set key_eqb d1 k a')
               | None => Ok (dict_set key_eqb d1 k (Arr1 v))
               end = Ok (dict_set key_eqb d1 k a')
               /\ to_array (R k ++ [v]) = Some a').
    { rewrite Hget. pose proof (Hrows k) as HRk.
      destruct (R k) as [|u [|u2 r]]; cbn [to_array app].
      - now exists (Arr1 v).
      - exists (Arr2 [u; v]). split; [|reflexivity].
        inversion HRk; subst. unfold vstack.
        replace (length u =? length v) with true
          by (symmetry; apply Nat.eqb_eq; congruence).
        reflexivity.
      - exists (Arr2 (u :: u2 :: r ++ [v])). split; [|reflexivity].
        inversion HRk; subst. unfold vstack, shape1.
        replace (Z.of_nat (length u) =? Z.of_nat (length v))%Z with true
          by (symmetry; apply Z.eqb_eq; congruence).
        reflexivity. }
    destruct Hstep as (a' & Hstep & Ha'). rewrite Hstep. cbn [bind].
    inversion Hnd2 as [|? ? Hnot Hnd2']; subst.
    destruct (IH (dict_set key_eqb d1 k a')
                 (fun k' => if key_eqb k k' then R k ++ [v] else R k'))
      as (d' & Hrun & Hnd' & Hget').
    + now apply (dict_set_keys_NoDup key_eqb key_eqb_spec).
    + intros k'. destruct (key_eqb k k') eqn:E.
      * apply key_eqb_spec in E. subst k'.
        now rewrite (dict_get_set_eq key_eqb key_eqb_spec).
      * rewrite (dict_get_set_neq key_eqb key_eqb_spec); [apply Hget|].
        intros ->. rewrite (proj2 (key_eqb_spec k' k') eq_refl) in E.
        discriminate.
    + intros k'. destruct (key_eqb k k'); [|apply Hrows].
      apply Forall_app. split; [apply Hrows | now repeat constructor].
    + exact Hnd2'.
    + intros kv Hkv. apply Hlen. now right.
    + exists d'. split; [exact Hrun|]. split; [exact Hnd'|].
      intros k'. rewrite Hget'. cbn [dict_get].
      destruct (key_eqb k k') eqn:E; [|reflexivity].
      apply key_eqb_spec in E. subst k'.
      destruct (dict_get key_eqb d2 k) eqn:Hd2.
      * exfalso. apply Hnot.
        apply (dict_get_keys key_eqb key_eqb_spec). congruence.
      * now rewrite app_nil_r.
Qed.

(** The loop of [gelman_rubin] over the chains. *)
Lemma merge_chains (names : option (list string)) (L : nat)
  (dists : list (list Trace)) :
  1 <= L ->
  Forall (fun traces => length traces = L) dists ->
  (forall traces t, In traces dists -> In t traces -> samples_are_numbers t) ->
  forall (vv : list (key * ndarray)) (R : key -> matrix),
    NoDup (map fst vv) ->
    (forall k, dict_get key_eqb vv k = to_array (R k)) ->
    (forall k, Forall (fun row => length row = L) (R k)) ->
    exists vv' ds,
      Forall2 (fun traces d =>
                 chain_inv L d
                 /\ forall k, In k (map fst d) <-> stored_in_chain names traces k)
              dists ds
      /\ foldM (fun vv trace =>
                  d <- single_trace_dist_values (Z.of_nat L) names None trace ;;
                  merge_dicts vv d)
               (map Empirical_of dists) vv = Ok vv'
      /\ NoDup (map fst vv')
      /\ forall k, dict_get key_eqb vv' k = to_array (R k ++ collected ds k).
Proof.
  intros HL Hlens Hnum.
  induction dists as [|traces dists IH]; intros vv R Hnd Hget Hrows.
  - exists vv, []. split; [constructor|]. split; [reflexivity|].
    split; [exact Hnd|]. intros k. cbn. now rewrite app_nil_r.
  - inversion Hlens as [|? ? Hlen Hlens']; subst.
    destruct (@single_trace_dist_values_ok names traces (length traces) eq_refl HL)
      as (d & Hd & Hinv & Hkeys).
    { intros t Ht. apply (Hnum traces); [now left | exact Ht]. }
    destruct (@merge_dicts_collect (length traces) d vv R Hnd Hget Hrows)
      as (vv1 & Hmerge & Hnd1 & Hget1).
    { exact (proj1 Hinv). }
    { intros kv Hkv. now destruct (proj2 Hinv kv Hkv). }
    destruct (IH Hlens') with (vv := vv1)
      (R := fun k => R k ++ match dict_get key_eqb d k with
                            | Some v => [v]
                            | None => []
                            end)
      as (vv' & ds & Hall & Hrun & Hnd' & Hget').
    + intros traces' t Ht' Ht. apply (Hnum traces'); [now right | exact Ht].
    + exact Hnd1.
    + exact Hget1.
    + intros k. apply Forall_app. split; [apply Hrows|].
      destruct (dict_get key_eqb d k) as [v|] eqn:Hk; [|constructor].
      apply (dict_get_Some_In key_eqb key_eqb_spec) in Hk.
      destruct (proj2 Hinv _ Hk) as [Hv _]. now repeat constructor.
    + exists vv', (d :: ds). split; [constructor; [split|]; assumption|].
      split.
      * cbn [map foldM]. rewrite Hd. cbn [bind]. rewrite Hmerge. cbn [bind].
        exact Hrun.
      * split; [exact Hnd'|]. intros k. rewrite Hget'.
        unfold collected. cbn [flat_map]. now rewrite app_assoc.
Qed.

(** ** Trimming, filling and R-hat never fail on chains with samples *)

Lemma prepare_total (value : matrix) (L : nat) :
  value <> [] ->
  Forall (fun row => length row = L /\ first_present row <> None) value ->
  exists filled w,
    prepare (length value) value = Ok filled
    /\ length filled = length value
    /\ 1 <= w
    /\ Forall (fun row => length row = w) filled.
Proof.
  intros Hne Hrows.
  destruct (@trim_spec value Hne) as [_ Htrim].
  { eapply Forall_impl; [|exact Hrows]. now intros row [_ H]. }
  set (start := list_max (map first_present_col value)) in *.
  assert (Hstart : start < L).
  { assert (Hin : In start (map first_present_col value)).
    { apply list_max_attained. destruct value; [congruence | discriminate]. }
    apply in_map_iff in Hin as (row & Hrow & Hin).
    rewrite Forall_forall in Hrows. destruct (Hrows row Hin) as [Hlen Hfp].
    unfold first_present_col in Hrow.
    destruct (first_present row) as [j|] eqn:Hj; [|congruence].
    apply first_present_lt in Hj. lia. }
  assert (Hw : Forall (fun row => length row = L - start) (trim value)).
  { rewrite Htrim. apply Forall_map. eapply Forall_impl; [|exact Hrows].
    intros row [Hlen _]. rewrite length_skipn. lia. }
  exists (map filled_row (trim value)), (L - start).
  unfold prepare. split; [|split; [|split]].
  - replace (length value) with (length (trim value))
      by (rewrite Htrim; apply length_map).
    apply fill_missing_spec. eapply Forall_impl; [|exact Hw].
    intros row Hlen ->. simpl in Hlen. lia.
  - rewrite length_map, Htrim. apply length_map.
  - lia.
  - apply Forall_map. eapply Forall_impl; [|exact Hw].
    intros row Hlen. unfold filled_row. now rewrite fill_from_length.
Qed.

Lemma rhat_total (L : Z) (x : matrix) (w : nat) (iters : list Z) :
  2 <= length x -> Forall (fun row => length row = w) x -> 1 <= w ->
  exists r, rhat L x iters = Ok r.
Proof.
  intros Hm Hrows Hw. unfold rhat. apply mapM_total. intros t _.
  assert (Hs1 : shape1 x = Z.of_nat w).
  { destruct x as [|row x]; [simpl in Hm; lia|].
    inversion Hrows; subst. reflexivity. }
  destruct (Z.leb_spec t (L - shape1 x)) as [_|Hgt]; [eexists; reflexivity|].
  apply gelman_rubin_diagnostic_total.
  - rewrite shape0_slice_cols_to. unfold shape0. lia.
  - rewrite shape1_slice_cols_to by lia. lia.
Qed.

Lemma collected_rows (names : option (list string)) (L : nat)
  (dists : list (list Trace)) (ds : list (list (key * list npfloat))) (k : key) :
  Forall2 (fun traces d =>
             chain_inv L d
             /\ forall k, In k (map fst d) <-> stored_in_chain names traces k)
          dists ds ->
  Forall (fun row => length row = L /\ first_present row <> None)
         (collected ds k).
Proof.
  induction 1 as [|traces d dists ds [Hinv _] _ IH]; [constructor|].
  unfold collected. cbn [flat_map]. apply Forall_app. split; [|exact IH].
  destruct (dict_get key_eqb d k) as [v|] eqn:Hk; [|constructor].
  apply (dict_get_Some_In key_eqb key_eqb_spec) in Hk.
  constructor; [|constructor]. exact (proj2 Hinv _ Hk).
Qed.

Lemma collected_length (names : option (list string)) (L : nat)
  (dists : list (list Trace)) (ds : list (list (key * list npfloat))) (k : key) :
  Forall2 (fun traces d =>
             chain_inv L d
             /\ forall k, In k (map fst d) <-> stored_in_chain names traces k)
          dists ds ->
  length (collected ds k) <= length dists
  /\ (length (collected ds k) = length dists
      <-> forall traces, In traces dists -> stored_in_chain names traces k).
Proof.
  induction 1 as [|traces d dists ds [_ Hkeys] _ [IHle IHeq]].
  - split; [simpl; lia|]. split; [intros _ ? [] | reflexivity].
  - unfold collected in *. cbn [flat_map]. rewrite length_app. cbn [length].
    pose proof (Hkeys k) as Hk.
    rewrite (dict_get_keys key_eqb key_eqb_spec) in Hk.
    destruct (dict_get key_eqb d k) as [v|]; cbn [length].
    + split; [lia|]. split.
      * intros Hlen traces' [<-|Hin]; [apply Hk; discriminate|].
        apply IHeq; [lia | exact Hin].
      * intros Hall. apply eq_S. apply IHeq. intros traces' Hin. apply Hall.
        now right.
    + split; [lia|]. split; [lia|].
      intros Hall. exfalso. apply (proj2 Hk); [|reflexivity].
      apply Hall. now left.
Qed.

Lemma to_array_size (L n : nat) (rows : matrix) (a : ndarray) :
  1 <= L -> 2 <= n ->
  Forall (fun row => length row = L) rows ->
  to_array rows = Some a ->
  ((size a =? Z.of_nat L * Z.of_nat n)%Z = true <-> length rows = n).
Proof.
  intros HL Hn Hrows Ha. rewrite Z.eqb_eq.
  destruct rows as [|u [|u2 r]]; cbn [to_array] in Ha; [discriminate| |];
    inversion Ha; subst a; clear Ha; inversion Hrows; subst.
  - cbn [size length]. split; [nia | lia].
  - unfold size, shape0, shape1. split; [|intros <-]; nia.
Qed.

Lemma mapM_In_inv {A B : Type} (f : A -> result B) (l : list A) (bs : list B) :
  mapM f l = Ok bs ->
  (forall b, In b bs -> exists a, In a l /\ f a = Ok b)
  /\ (forall a, In a l -> exists b, In b bs /\ f a = Ok b).
Proof.
  revert bs; induction l as [|a l IH]; intros bs H; simpl in H.
  - inversion H; subst. split; intros ? [].
  - destruct (f a) as [b|] eqn:Hb; [|discriminate]. cbn [bind] in H.
    destruct (mapM f l) as [bs'|]; [|discriminate]. cbn [bind] in H.
    inversion H; subst. destruct (IH bs' eq_refl) as [IH1 IH2]. split.
    + intros b' [<-|Hin]; [exists a; split; [now left | exact Hb]|].
      destruct (IH1 b' Hin) as (a' & Ha' & Hf). exists a'. split; [now right|exact Hf].
    + intros a' [<-|Hin]; [exists b; split; [now left | exact Hb]|].
      destruct (IH2 a' Hin) as (b' & Hb' & Hf). exists b'. split; [now right|exact Hf].
Qed.

(** The last loop of [gelman_rubin]. *)
Lemma rhat_fold (L : Z) (iters : list Z) (prepared : list (key * ndarray)) :
  (forall kv, In kv prepared -> exists r, rhat_of L iters (snd kv) = Ok r) ->
  forall acc : list (string * list npfloat),
  exists rhats,
    foldM (fun d kv =>
             r <- rhat_of L iters (snd kv) ;;
             Ok (dict_set String.eqb d (fst (fst kv)) r))
          prepared acc = Ok rhats
    /\ forall a, In a (map fst rhats)
                 <-> In a (map fst acc)
                     \/ In a (map (fun kv => fst (fst kv)) prepared).
Proof.
  induction prepared as [|kv prepared IH]; intros Hok acc.
  - exists acc. split; [reflexivity|]. intros a. cbn. tauto.
  - destruct (Hok kv (or_introl eq_refl)) as [r Hr].
    destruct kv as [[a0 nm] arr]. cbn [foldM fst snd] in *.
    rewrite Hr. cbn [bind].
    destruct (IH (fun kv' H => Hok kv' (or_intror H))
                 (dict_set String.eqb acc a0 r))
      as (rhats & Hrun & Hkeys).
    exists rhats. split; [exact Hrun|]. intros a. rewrite Hkeys.
    rewrite (dict_set_key_in String.eqb string_eqb_spec). cbn [map In].
    split; [intros [[H|H]|H] | intros [H|[H|H]]]; auto.
Qed.

(** On two or more chains of one length [L >= 1] whose uncontrolled
    one-element samples are not NaN, with or without [names] and without
    [n_most_frequent], [gelman_rubin] raises nothing.  It returns the grid
    of iteration counts up to [L] and a dictionary whose addresses are
    exactly those of the keys (address, name) under which every chain
    stores a sample in at least one of its traces. *)
Theorem gelman_rubin_result (unique_logspace_ints : R -> list Z)
  (dists : list (list Trace)) (names : option (list string)) (L : nat) :
  2 <= length dists -> 1 <= L ->
  Forall (fun traces => length traces = L) dists ->
  (forall traces t, In traces dists -> In t traces -> samples_are_numbers t) ->
  exists rhats,
    gelman_rubin unique_logspace_ints (map Empirical_of dists) names None
    = Ok (unique_logspace_ints (IZR (Z.of_nat L)), rhats)
    /\ forall a,
         In a (map fst rhats)
         <-> exists k,
               fst k = a
               /\ forall traces, In traces dists ->
                                 stored_in_chain names traces k.
Proof.
  intros Hn HL Hlens Hnum.
  assert (H0 : exists d0, py_index (map Empirical_of dists) 0
                          = Ok (Empirical_of d0) /\ In d0 dists).
  { destruct dists as [|d0 rest]; [simpl in Hn; lia|].
    exists d0. split; [reflexivity | now left]. }
  destruct H0 as (d0 & H0 & Hd0).
  assert (Hlast : exists dl, py_index (map Empirical_of dists) (-1)
                             = Ok (Empirical_of dl) /\ In dl dists).
  { destruct (@exists_last _ dists) as (pre & dl & E).
    { intros E. rewrite E in Hn. simpl in Hn. lia. }
    exists dl. rewrite E, map_app. cbn [map].
    split; [apply py_index_last | apply in_or_app; right; now left]. }
  destruct Hlast as (dl & Hlast & Hdl).
  assert (Hal : forall d, In d dists ->
                          attr_length (Empirical_of d) = Ok (Z.of_nat L)).
  { intros d Hd. unfold Empirical_of, attr_length. rewrite length_map.
    rewrite Forall_forall in Hlens. now rewrite (Hlens d Hd). }
  destruct (@merge_chains names L dists HL Hlens Hnum [] (fun _ => []))
    as (vv & ds & Hall & Hrun & Hnd & Hget);
    [constructor | reflexivity | constructor |].
  cbn [app] in Hget.
  set (n := length dists) in *.
  set (iters := unique_logspace_ints (IZR (Z.of_nat L))).
  set (filtered :=
         filter (fun kv : key * ndarray =>
                   (size (snd kv) =? Z.of_nat L * Z.of_nat n)%Z) vv).
  (* what the size filter keeps *)
  assert (Hkept : forall k a,
             In (k, a) filtered
             <-> length (collected ds k) = n /\ a = Arr2 (collected ds k)).
  { intros k a. unfold filtered. rewrite filter_In. cbn [snd].
    pose proof (collected_rows k Hall) as Hrows.
    assert (Hrows' : Forall (fun row => length row = L) (collected ds k)).
    { eapply Forall_impl; [|exact Hrows]. now intros row [H _]. }
    split.
    - intros [Hin Hsize].
      apply (dict_In_get key_eqb key_eqb_spec _ _ _ Hnd) in Hin.
      rewrite Hget in Hin.
      pose proof (proj1 (to_array_size HL Hn Hrows' Hin) Hsize) as Hlen.
      split; [exact Hlen|].
      destruct (collected ds k) as [|u [|u2 r]]; cbn [to_array length] in *;
        [lia | lia | congruence].
    - intros [Hlen ->].
      assert (Harr : to_array (collected ds k) = Some (Arr2 (collected ds k))).
      { destruct (collected ds k) as [|u [|u2 r]]; cbn [length] in Hlen;
          [lia | lia | reflexivity]. }
      split.
      + apply (dict_get_Some_In key_eqb key_eqb_spec). now rewrite Hget.
      + exact (proj2 (to_array_size HL Hn Hrows' Harr) Hlen). }
  (* trimming and filling succeed *)
  assert (Hprep : forall kv, In kv filtered ->
             exists filled w,
               (a <- prepare_variable n (snd kv) ;; Ok (fst kv, a))
               = Ok (fst kv, Arr2 filled)
               /\ length filled = n /\ 1 <= w
               /\ Forall (fun row => length row = w) filled).
  { intros [k a] Hin. apply Hkept in Hin as [Hlen ->]. cbn [fst snd].
    destruct (@prepare_total (collected ds k) L) as (filled & w & Hp & Hl & Hw & Hf).
    - intros E. rewrite E in Hlen. simpl in Hlen. lia.
    - exact (collected_rows k Hall).
    - exists filled, w. rewrite Hlen in Hp. cbn [prepare_variable].
      rewrite Hp. cbn [bind]. repeat split; [congruence | exact Hw | exact Hf]. }
  destruct (@mapM_total _ _
              (fun kv : key * ndarray =>
                 a <- prepare_variable n (snd kv) ;; Ok (fst kv, a)) filtered)
    as (prepared & Hprepared).
  { intros kv Hin. destruct (Hprep kv Hin) as (filled & w & Hf & _).
    eexists. exact Hf. }
  destruct (mapM_In_inv _ _ Hprepared) as [Hback Hforth].
  destruct (@rhat_fold (Z.of_nat L) iters prepared) with (acc := @nil (string * list npfloat))
    as (rhats & Hrhats & Hkeys).
  { intros b Hb. destruct (Hback b Hb) as (kv & Hkv & Hf).
    destruct (Hprep kv Hkv) as (filled & w & Hf' & Hl & Hw & Hrows).
    rewrite Hf' in Hf. inversion Hf; subst b. cbn [snd rhat_of].
    apply (@rhat_total _ filled w); [lia | exact Hrows | exact Hw]. }
  exists rhats. split.
  - unfold gelman_rubin. rewrite H0. cbn [bind].
    rewrite (Hal d0 Hd0). cbn [bind]. rewrite Hrun. cbn [bind].
    rewrite Hlast. cbn [bind]. rewrite (Hal dl Hdl). cbn [bind].
    rewrite length_map. fold n. fold filtered. rewrite Hprepared. cbn [bind].
    fold iters. rewrite Hrhats. reflexivity.
  - intros a. rewrite Hkeys. cbn [map In]. split.
    + intros [[]|Hin]. apply in_map_iff in Hin as (b & Hb & Hin).
      destruct (Hback b Hin) as ([k arr] & Hkv & Hf).
      destruct (Hprep _ Hkv) as (filled & w & Hf' & _).
      rewrite Hf' in Hf. inversion Hf; subst b. cbn [fst] in Hb.
      exists k. split; [exact Hb|].
      apply Hkept in Hkv as [Hlen _].
      now apply (proj2 (collected_length k Hall)).
    + intros (k & Hk & Hstored). right.
      assert (Hin : In (k, Arr2 (collected ds k)) filtered).
      { apply Hkept. split; [|reflexivity].
        now apply (proj2 (collected_length k Hall)). }
      destruct (Hforth _ Hin) as (b & Hb & Hf).
      destruct (Hprep _ Hin) as (filled & w & Hf' & _).
      rewrite Hf' in Hf. inversion Hf; subst b.
      apply in_map_iff. exists (k, Arr2 filled). split; [exact Hk | exact Hb].
Qed.

Lemma trace_of_x_mu_numbers (a b : R) : samples_are_numbers (trace_of_x_mu a b).
Proof.
  intros name variable x Hget _ Hval.
  unfold trace_of_x_mu in Hget. cbn [named_variables dict_get] in Hget.
  destruct (String.eqb "x" name);
    [|destruct (String.eqb "mu" name); [|discriminate]];
    injection Hget as <-; cbn in Hval; injection Hval as <-; reflexivity.
Qed.

(** The chains [chain_a] and [chain_b]. *)
Lemma gelman_rubin_result_witness :
  exists rhats,
    gelman_rubin (fun _ => [2%Z])
      (map Empirical_of
         [[trace_of_x_mu 1 1; trace_of_x_mu 2 1];
          [trace_of_x_mu 3 2; trace_of_x_mu 5 2]]) None None
    = Ok ([2%Z], rhats)
    /\ forall a,
         In a (map fst rhats)
         <-> exists k,
               fst k = a
               /\ forall traces,
                    In traces [[trace_of_x_mu 1 1; trace_of_x_mu 2 1];
                               [trace_of_x_mu 3 2; trace_of_x_mu 5 2]] ->
                    stored_in_chain None traces k.
Proof.
  apply (@gelman_rubin_result (fun _ => [2%Z])
           [[trace_of_x_mu 1 1; trace_of_x_mu 2 1];
            [trace_of_x_mu 3 2; trace_of_x_mu 5 2]] None 2).
  - simpl. lia.
  - lia.
  - repeat constructor.
  - intros traces t [<-|[<-|[]]] [<-|[<-|[]]]; apply trace_of_x_mu_numbers.
Defined.

(** * The samples behind each R-hat *)














(** ** What a normal return says about the chains *)

















